(** * claude-unified-history-mcp: source contract, local log engine,
      remote client and query orchestration

    A shallow embedding of the TypeScript sources
    ([src/utils/date.ts], [src/sources/claude-code.ts],
    [src/sources/claude-api.ts], [src/auth/session.ts], [src/tools/*.ts])
    together with the properties the design document states about them. *)

From Stdlib Require Import ZArith NArith List String Ascii Bool Lia.
From Stdlib Require Import Sorting.Sorted Sorting.Permutation.
From Stdlib Require DecimalString.
Import ListNotations.

Local Open Scope Z_scope.

(* ===================================================================== *)
(** * JavaScript values used by the sources *)
(* ===================================================================== *)

(** A JavaScript string is a sequence of UTF-16 code units. *)
Definition codeunit := N.
Definition jsstring := list codeunit.

(** ASCII literals, written [js "text"]. *)
Definition js (s : string) : jsstring :=
  List.map N_of_ascii (list_ascii_of_string s).

Definition jseqb (a b : jsstring) : bool :=
  if list_eq_dec N.eq_dec a b then true else false.

(** [s.length] *)
Definition jslength {A} (s : list A) : Z := Z.of_nat (List.length s).

(** [a + b] on strings *)
Definition jsconcat (a b : jsstring) : jsstring := a ++ b.

(** [Array.prototype.slice(start, end)] and [String.prototype.slice]:
    a negative index counts from the end, both indexes are clamped to
    [0, length], and an empty range gives an empty result. *)
Definition clamp_index (len i : Z) : Z :=
  if i <? 0 then Z.max (len + i) 0 else Z.min i len.

Definition slice {A} (l : list A) (start stop : Z) : list A :=
  let len := jslength l in
  let k := clamp_index len start in
  let final := clamp_index len stop in
  firstn (Z.to_nat (final - k)) (skipn (Z.to_nat k) l).

(** [Array.prototype.sort(cmp)]: a stable sort; [cmp a b <= 0] keeps [a]
    in front of [b].  For a consistent comparator every stable sort
    returns this list. *)
Fixpoint sort_insert {A} (cmp : A -> A -> Z) (x : A) (l : list A) : list A :=
  match l with
  | [] => [x]
  | y :: l' => if cmp x y <=? 0 then x :: l else y :: sort_insert cmp x l'
  end.

Fixpoint sort {A} (cmp : A -> A -> Z) (l : list A) : list A :=
  match l with
  | [] => []
  | x :: l' => sort_insert cmp x (sort cmp l')
  end.

(** [Array.prototype.includes] on an array of strings *)
Definition includes_str (l : list jsstring) (x : jsstring) : bool :=
  existsb (jseqb x) l.

(** [String.prototype.startsWith] at position 0 *)
Fixpoint isPrefix (p s : jsstring) : bool :=
  match p, s with
  | [], _ => true
  | _ :: _, [] => false
  | a :: p', b :: s' => N.eqb a b && isPrefix p' s'
  end.

(** [String.prototype.indexOf(q)]: the first position at which [q]
    occurs, [-1] when there is none. *)
Fixpoint indexOf_from (s q : jsstring) (i : Z) : Z :=
  if isPrefix q s then i
  else match s with
       | [] => -1
       | _ :: s' => indexOf_from s' q (i + 1)
       end.

Definition indexOf (s q : jsstring) : Z := indexOf_from s q 0.

(** [String.prototype.includes(q)] *)
Definition includes (s q : jsstring) : bool := negb (indexOf s q =? -1).

(** [String.prototype.endsWith(suffix)] *)
Definition endsWith (s suffix : jsstring) : bool :=
  isPrefix (rev suffix) (rev s).

(** [s.replace(pat, '')] with a string pattern: only the first
    occurrence is removed. *)
Definition remove_first (s pat : jsstring) : jsstring :=
  let i := indexOf s pat in
  if i =? -1 then s
  else firstn (Z.to_nat i) s ++ skipn (Z.to_nat i + List.length pat) s.

(** Comparison of strings with [<]: lexicographic on code units. *)
Fixpoint jsltb (a b : jsstring) : bool :=
  match a, b with
  | _, [] => false
  | [], _ :: _ => true
  | x :: a', y :: b' => N.ltb x y || (N.eqb x y && jsltb a' b')
  end.

Definition jsleb (a b : jsstring) : bool := negb (jsltb b a).

(** [arr.join(' ')] *)
Fixpoint join_space (l : list jsstring) : jsstring :=
  match l with
  | [] => []
  | [x] => x
  | x :: l' => x ++ 32%N :: join_space l'
  end.

(** The outcome of an awaited promise: fulfilled with a value or
    rejected with an error (its [name]). *)
Inductive result (A : Type) : Type :=
| Ok (a : A)
| Rejected (name : jsstring).
Arguments Ok {A} a.
Arguments Rejected {A} name.

(** [p.catch(() => dflt)] *)
Definition catch {A} (p : result A) (dflt : A) : result A :=
  match p with
  | Ok a => Ok a
  | Rejected _ => Ok dflt
  end.

(** [await Promise.all(ps)]: the values in order, or the first
    rejection. *)
Fixpoint promise_all {A} (ps : list (result A)) : result (list A) :=
  match ps with
  | [] => Ok []
  | Ok a :: ps' =>
      match promise_all ps' with
      | Ok l => Ok (a :: l)
      | Rejected e => Rejected e
      end
  | Rejected e :: _ => Rejected e
  end.

(** [for (const arr of arrays) all.push(...arr)] *)
Definition push_all {A} (arrays : list (list A)) : list A := List.concat arrays.

(** JavaScript numbers that may be [NaN].  The sources only do integer
    arithmetic on time values and calendar fields. *)
Definition jsnum := option Z.
Definition NaN : jsnum := None.

Definition num_lift2 (f : Z -> Z -> Z) (a b : jsnum) : jsnum :=
  match a, b with
  | Some x, Some y => Some (f x y)
  | _, _ => NaN
  end.

(** A [Date] object is its time value: milliseconds since the epoch, or
    [NaN] for an Invalid Date. *)
Definition Date := jsnum.
Definition getTime (d : Date) : jsnum := d.

(** [Math.min(...xs)] and [Math.max(...xs)]: [NaN] as soon as one
    argument is; on no argument the results are the infinities, which
    [new Date] turns into an Invalid Date, so the two are modelled
    together with the [new Date(...)] wrapped around them. *)
Fixpoint all_valid (xs : list jsnum) : option (list Z) :=
  match xs with
  | [] => Some []
  | Some x :: r => option_map (cons x) (all_valid r)
  | None :: _ => None
  end.

Definition date_of_min (xs : list jsnum) : Date :=
  match all_valid xs with
  | Some (x :: r) => Some (fold_left Z.min r x)
  | _ => NaN
  end.

Definition date_of_max (xs : list jsnum) : Date :=
  match all_valid xs with
  | Some (x :: r) => Some (fold_left Z.max r x)
  | _ => NaN
  end.

(** The value a comparator hands to [sort]: [NaN] counts as [+0]. *)
Definition cmp_value (v : jsnum) : Z :=
  match v with
  | Some z => z
  | None => 0
  end.

(* ===================================================================== *)
(** * Data model ([src/types.ts]) *)
(* ===================================================================== *)

Inductive SourceType := code | cloud.

Definition SourceType_eqb (a b : SourceType) : bool :=
  match a, b with
  | code, code | cloud, cloud => true
  | _, _ => false
  end.

Record Source := { src_type : SourceType }.

Record Project := {
  proj_id : jsstring;
  proj_name : jsstring;
  proj_path : option jsstring;
  proj_source : Source;
  sessionCount : Z;
  proj_messageCount : Z;
  lastActivity : Date
}.

Record Session := {
  sess_id : jsstring;
  sess_source : Source;
  projectId : option jsstring;
  projectName : option jsstring;
  title : option jsstring;
  createdAt : Date;
  updatedAt : Date;
  messageCount : Z
}.

Record Message := {
  msg_id : jsstring;
  role : jsstring;
  content : jsstring;
  timestamp : Date
}.

Record Conversation := {
  conv_id : jsstring;
  conv_source : Source;
  session : Session;
  messages : list Message
}.

Record SearchResult := {
  sr_source : Source;
  sr_sessionId : jsstring;
  sr_messageId : jsstring;
  snippet : jsstring;
  sr_timestamp : Date
}.

Record PaginationInfo := {
  total_count : Z;
  pg_limit : Z;
  pg_offset : Z;
  has_more : bool
}.

(** Raw Claude Code JSONL record.  [message.content] is a string or a
    list of blocks; a block carries its [type], its optional [text] and
    what [JSON.stringify] prints for it. *)
Inductive ContentItem :=
| ItemString (s : jsstring)
| ItemBlock (btype : jsstring) (btext : option jsstring) (bjson : jsstring).

Inductive MessageContent :=
| ContentString (s : jsstring)
| ContentBlocks (items : list ContentItem).

Record MessageBody := {
  body_role : jsstring;
  body_content : option MessageContent
}.

(** The [timestamp] of a record.  [types.ts] declares it a string, but a
    line of a session file holds what was written there: the summary
    lines carry no timestamp, and [JSON.parse] accepts any value.  The
    sources apply three operations to the field: [t < bound],
    [t > bound] and [new Date(t)].  A value that is not a string is
    given by what the three yield. *)
Inductive Timestamp :=
| TimeString (s : jsstring)
| NotAString (below above : jsstring -> bool) (date : Date).

(** A record without [timestamp]: [undefined] compares false with
    every string, and [new Date(undefined)] is an Invalid Date. *)
Definition no_timestamp : Timestamp :=
  NotAString (fun _ => false) (fun _ => false) NaN.

(** [t < bound] and [t > bound] for a string [bound] *)
Definition ts_ltb (t : Timestamp) (bound : jsstring) : bool :=
  match t with
  | TimeString s => jsltb s bound
  | NotAString below _ _ => below bound
  end.

Definition ts_gtb (t : Timestamp) (bound : jsstring) : bool :=
  match t with
  | TimeString s => jsltb bound s
  | NotAString _ above _ => above bound
  end.

Record ClaudeCodeMessage := {
  cc_sessionId : jsstring;
  cc_type : jsstring;
  cc_message : option MessageBody;
  cc_uuid : jsstring;
  cc_timestamp : Timestamp
}.

(** ** Session files on disk *)

(** A line of a [.jsonl] file, by what the reader does with it: blank
    lines are skipped, a line [JSON.parse] rejects is skipped, any other
    line is a record. *)
Inductive Line :=
| Blank
| Malformed
| Parsed (m : ClaudeCodeMessage).

(** An entry of a project directory: its lines when it can be read as a
    file, and the times [fs.stat] reports. *)
Record DirEntry := {
  lines : option (list Line);
  mtime : Z;
  birthtime : Z
}.

(** claude.ai API response types *)
Record CloudOrganization := { org_uuid : jsstring; org_name : jsstring }.

Record CloudConversationSummary := {
  cs_uuid : jsstring;
  cs_name : jsstring;
  cs_created_at : jsstring;
  cs_updated_at : jsstring
}.

Record CloudContentBlock := { cb_type : jsstring; cb_text : option jsstring }.

Record CloudMessage := {
  cm_uuid : jsstring;
  cm_sender : jsstring;
  cm_text : jsstring;
  cm_created_at : jsstring;
  cm_content : option (list CloudContentBlock)
}.

Record CloudConversationDetail := {
  cd_uuid : jsstring;
  cd_name : jsstring;
  cd_created_at : jsstring;
  cd_updated_at : jsstring;
  chat_messages : option (list CloudMessage)
}.

(* ===================================================================== *)
(** * The JavaScript runtime the sources call into *)
(* ===================================================================== *)

(** What the environment decides, not the sources: the built-ins whose
    results are fixed by the runtime (ICU data, the zone database, the
    system zone, the size of its stack), and the part of the disk the
    project tree does not describe. *)
Record Host := {
  (** [s.toLowerCase()] *)
  toLowerCase : jsstring -> jsstring;
  (** [new Date(s).getTime()] *)
  parseDate : jsstring -> Date;
  (** [d.toISOString()] on a valid time value *)
  isoString : Z -> jsstring;
  (** [Number(s)] *)
  toNumber : jsstring -> jsnum;
  (** [Intl.DateTimeFormat().resolvedOptions().timeZone] *)
  systemZone : jsstring;
  (** [new Date(y, m, d, h, mi, s, ms).getTime()], in the system zone *)
  localDate : jsnum -> jsnum -> jsnum -> Z -> Z -> Z -> Z -> Date;
  (** [d.getTimezoneOffset()], in minutes *)
  timezoneOffset : Date -> jsnum;
  (** [d.toLocaleString('en-CA', { timeZone })]; a zone the runtime
      does not know raises a RangeError *)
  toLocaleString : Date -> jsstring -> result jsstring;
  (** Whether [Math.min(...xs)] and [Math.max(...xs)] return for [xs]
      of that length: every element is passed as an argument, and the
      engine raises a RangeError when they do not fit its stack *)
  spreadFits : Z -> bool;
  (** What [fs.access] finds for [path.join(projectsDir, projectDir,
      `${sessionId}.jsonl`)] when that path leaves the project
      directories listed in the tree or goes below one of them: the
      session id is part of the path and may contain separators *)
  outside : jsstring -> jsstring -> option DirEntry
}.

(** [new Date(t)] on the [timestamp] of a record *)
Definition date_of (H : Host) (t : Timestamp) : Date :=
  match t with
  | TimeString s => parseDate H s
  | NotAString _ _ date => date
  end.

(** [d.toISOString()]: a RangeError on an Invalid Date. *)
Definition toISOString (H : Host) (d : Date) : result jsstring :=
  match d with
  | Some t => Ok (isoString H t)
  | None => Rejected (js "RangeError")
  end.

(** [new Date(v)] on a number: values outside the range of time values
    give an Invalid Date. *)
Definition new_Date (v : jsnum) : Date :=
  match v with
  | Some t => if Z.abs t <=? 8640000000000000 then Some t else NaN
  | None => NaN
  end.

(** [s.split(sep)] with a one-character separator *)
Fixpoint split_on (sep : codeunit) (s : jsstring) : list jsstring :=
  match s with
  | [] => [[]]
  | c :: r =>
      if N.eqb c sep then [] :: split_on sep r
      else match split_on sep r with
           | h :: t => (c :: h) :: t
           | [] => [[c]]
           end
  end.

(** [arr[i] ?? dflt]: only a missing element is replaced *)
Definition nth_or {A} (l : list A) (i : nat) (dflt : A) : A :=
  match nth_error l i with
  | Some v => v
  | None => dflt
  end.

(* ===================================================================== *)
(** * Date normalizer ([src/utils/date.ts]) *)
(* ===================================================================== *)

Module DateUtil.

Section WithHost.
Variable H : Host.

Definition boundary_time (isEndDate : bool) : jsstring :=
  if isEndDate then js "23:59:59.999" else js "00:00:00.000".

(** [`${dateString}T${timeStr}Z`] *)
Definition utc_boundary (dateString : jsstring) (isEndDate : bool) : jsstring :=
  dateString ++ js "T" ++ boundary_time isEndDate ++ js "Z".

(** The part of the [try] block taken for a zone other than UTC. *)
Definition zoned_boundary (dateString : jsstring) (isEndDate : bool)
    (tz : jsstring) : result jsstring :=
  let parts := List.map (toNumber H) (split_on 45%N dateString) in
  let year := nth_or parts 0 (Some 0) in
  let month := nth_or parts 1 (Some 1) in
  let day := nth_or parts 2 (Some 1) in
  let hour := if isEndDate then 23 else 0 in
  let minute := if isEndDate then 59 else 0 in
  let second := if isEndDate then 59 else 0 in
  let millisecond := if isEndDate then 999 else 0 in
  let month0 := num_lift2 Z.sub month (Some 1) in
  let referenceDate := localDate H year month0 day 12 0 0 0 in
  let offsetMs := num_lift2 Z.mul (timezoneOffset H referenceDate) (Some 60000) in
  let localTime := localDate H year month0 day hour minute second millisecond in
  match toLocaleString H localTime tz with
  | Rejected e => Rejected e
  | Ok inZone =>
      let targetTzTime := parseDate H inZone in
      match toLocaleString H localTime (js "UTC") with
      | Rejected e => Rejected e
      | Ok inUtc =>
          let utcTime := parseDate H inUtc in
          let tzOffsetMs := num_lift2 Z.sub (getTime targetTzTime) (getTime utcTime) in
          let utcResult :=
            new_Date (num_lift2 Z.sub
                        (num_lift2 Z.add (getTime localTime) offsetMs)
                        tzOffsetMs) in
          toISOString H utcResult
      end
  end.

Definition normalizeDate (dateString : jsstring) (isEndDate : bool)
    (timezone : option jsstring) : jsstring :=
  if includes dateString (js "T") then dateString
  else
    let tz := match timezone with
              | Some z => match z with [] => systemZone H | _ => z end
              | None => systemZone H
              end in
    let attempt :=
      if jseqb tz (js "UTC") then Ok (utc_boundary dateString isEndDate)
      else zoned_boundary dateString isEndDate tz in
    match attempt with
    | Ok s => s
    | Rejected _ => utc_boundary dateString isEndDate
    end.

End WithHost.

End DateUtil.

(* ===================================================================== *)
(** * Source contract ([src/sources/index.ts]) *)
(* ===================================================================== *)

Module Sources.

(** Optional fields are [option]s; [limit] and [offset] are integers. *)
Record ListSessionsOptions := {
  ls_projectPath : option jsstring;
  ls_projectId : option jsstring;
  ls_startDate : option jsstring;
  ls_endDate : option jsstring;
  ls_timezone : option jsstring;
  ls_limit : option Z;
  ls_offset : option Z
}.

Record GetConversationOptions := {
  gc_sessionId : jsstring;
  gc_messageTypes : option (list jsstring);
  gc_limit : option Z;
  gc_offset : option Z
}.

Record SearchOptions := {
  so_query : jsstring;
  so_projectPath : option jsstring;
  so_projectId : option jsstring;
  so_startDate : option jsstring;
  so_endDate : option jsstring;
  so_timezone : option jsstring;
  so_limit : option Z
}.

(** The interface both sources implement.  A method's promise is its
    [result]; within one orchestration call a source answers a given
    request in one way. *)
Record ConversationSource := {
  type : SourceType;
  isAvailable : bool;
  listProjects : result (list Project);
  listSessions : ListSessionsOptions -> result (list Session);
  getConversation : GetConversationOptions -> result (option Conversation);
  search : SearchOptions -> result (list SearchResult)
}.

End Sources.
Import Sources.

(** A string used as a condition: [undefined] and [''] are falsy. *)
Definition truthy (o : option jsstring) : option jsstring :=
  match o with
  | Some (c :: r) => Some (c :: r)
  | _ => None
  end.

(** [x ?? dflt] and destructuring defaults *)
Definition default_to {A} (o : option A) (dflt : A) : A :=
  match o with
  | Some v => v
  | None => dflt
  end.

(** Comparators of the sources *)
Definition by_updatedAt_desc (a b : Session) : Z :=
  cmp_value (num_lift2 Z.sub (getTime (updatedAt b)) (getTime (updatedAt a))).

Definition by_timestamp_asc (a b : Message) : Z :=
  cmp_value (num_lift2 Z.sub (getTime (timestamp a)) (getTime (timestamp b))).

Definition by_sr_timestamp_desc (a b : SearchResult) : Z :=
  cmp_value (num_lift2 Z.sub (getTime (sr_timestamp b)) (getTime (sr_timestamp a))).

Definition by_lastActivity_desc (a b : Project) : Z :=
  cmp_value (num_lift2 Z.sub (getTime (lastActivity b)) (getTime (lastActivity a))).

(** The search snippet, built the same way by both sources: the match
    position is looked up in the lowercased content and applied to the
    content itself. *)
Definition ellipsis : jsstring := js "...".

Definition make_snippet (H : Host) (content query : jsstring) : jsstring :=
  let queryLower := toLowerCase H query in
  let idx := indexOf (toLowerCase H content) queryLower in
  let snippetStart := Z.max 0 (idx - 50) in
  let snippetEnd := Z.min (jslength content) (idx + jslength query + 50) in
  (if 0 <? snippetStart then ellipsis else []) ++
  slice content snippetStart snippetEnd ++
  (if snippetEnd <? jslength content then ellipsis else []).

Definition matches (H : Host) (content query : jsstring) : bool :=
  includes (toLowerCase H content) (toLowerCase H query).

(* ===================================================================== *)
(** * Local log source ([src/sources/claude-code.ts]) *)
(* ===================================================================== *)

Module ClaudeCode.

(** ** The directory tree under [~/.claude/projects] *)

(** An entry of the projects directory, in [readdir] order inside. *)
Inductive ProjectNode :=
| ProjectDir (files : list (jsstring * DirEntry))
| NotADirectory.

(** [None]: the projects directory cannot be listed. *)
Definition FileSystem := option (list (jsstring * ProjectNode)).

Definition jsonl_ext : jsstring := js ".jsonl".

(** The entry called [name] in the listing of a directory *)
Fixpoint lookup_entry (name : jsstring) (files : list (jsstring * DirEntry))
  : option DirEntry :=
  match files with
  | [] => None
  | (n, e) :: r => if jseqb n name then Some e else lookup_entry name r
  end.

Fixpoint lookup_dir (name : jsstring) (projectDirs : list (jsstring * ProjectNode))
  : option ProjectNode :=
  match projectDirs with
  | [] => None
  | (n, node) :: r => if jseqb n name then Some node else lookup_dir name r
  end.

(** [path.join] on a POSIX system, seen from the projects directory:
    the segments of a relative path are applied to a position below it,
    innermost name first; [''] and ['.'] stay, ['..'] goes up.  [None]:
    the path leaves the projects directory. *)
Fixpoint walk (segments : list jsstring) (position : list jsstring)
  : option (list jsstring) :=
  match segments with
  | [] => Some position
  | segment :: rest =>
      if jseqb segment [] || jseqb segment (js ".") then walk rest position
      else if jseqb segment (js "..") then
        match position with
        | _ :: up => walk rest up
        | [] => None
        end
      else walk rest (segment :: position)
  end.

Definition join_below (position : list jsstring) (relative : jsstring)
  : option (list jsstring) :=
  walk (split_on 47%N relative) position.

(** ** Helper functions *)

Definition decodeProjectPath (projectDir : jsstring) : jsstring :=
  let slashed := List.map (fun c => if N.eqb c 45%N then 47%N else c) projectDir in
  match slashed with
  | c :: r => if N.eqb c 47%N then r else slashed
  | [] => []
  end.

Definition extractContent (entry : ClaudeCodeMessage) : jsstring :=
  match cc_message entry with
  | None => []
  | Some body =>
      match body_content body with
      | None => []
      | Some (ContentString s) => s
      | Some (ContentBlocks items) =>
          join_space
            (List.map (fun item =>
               match item with
               | ItemString s => s
               | ItemBlock btype btext bjson =>
                   match truthy btext with
                   | Some t => if jseqb btype (js "text") then t else bjson
                   | None => bjson
                   end
               end) items)
      end
  end.

Definition keep_line (startDate endDate : option jsstring) (l : Line)
  : option ClaudeCodeMessage :=
  match l with
  | Blank | Malformed => None
  | Parsed msg =>
      if match truthy startDate with
         | Some s => ts_ltb (cc_timestamp msg) s
         | None => false
         end then None
      else if match truthy endDate with
              | Some e => ts_gtb (cc_timestamp msg) e
              | None => false
              end then None
      else Some msg
  end.

Fixpoint filter_map {A B} (f : A -> option B) (l : list A) : list B :=
  match l with
  | [] => []
  | x :: r => match f x with
              | Some y => y :: filter_map f r
              | None => filter_map f r
              end
  end.

(** [parseJsonlFile(filePath, startDate, endDate)]: nothing is read
    from an entry that is not a readable file. *)
Definition parseJsonlFile (file : DirEntry) (startDate endDate : option jsstring)
  : list ClaudeCodeMessage :=
  match lines file with
  | None => []
  | Some ls => filter_map (keep_line startDate endDate) ls
  end.

Section WithHost.
Variable H : Host.

Definition shouldSkipFile (file : DirEntry) (startDate endDate : option jsstring)
  : bool :=
  match truthy startDate, truthy endDate with
  | None, None => false
  | sd, ed =>
      let fileModTime := isoString H (mtime file) in
      let fileCreateTime := isoString H (birthtime file) in
      let oldestPossibleTime :=
        if jsltb fileCreateTime fileModTime then fileCreateTime else fileModTime in
      let newestPossibleTime := fileModTime in
      if match ed with Some e => jsltb e oldestPossibleTime | None => false end
      then true
      else match sd with Some s => jsltb newestPossibleTime s | None => false end
  end.

Definition code_source : Source := {| src_type := code |}.

(** [startDate ? normalizeDate(startDate, isEnd, timezone) : undefined] *)
Definition normalized (d : option jsstring) (isEnd : bool)
    (timezone : option jsstring) : option jsstring :=
  match truthy d with
  | Some s => Some (DateUtil.normalizeDate H s isEnd timezone)
  | None => None
  end.

(** ** listSessions *)

(** One iteration of the loop over the files of a project directory:
    nothing pushed ([Ok None]), a session pushed, or an exception that
    ends the whole traversal: the RangeError of [Math.min(...)] on a
    file with more records than a call takes arguments, or that of
    [toISOString] on an Invalid Date. *)
Definition session_of_file (decodedPath file : jsstring) (e : DirEntry)
    (normalizedStartDate normalizedEndDate : option jsstring)
  : result (option Session) :=
  if negb (endsWith file jsonl_ext) then Ok None
  else
    let sessionId := remove_first file jsonl_ext in
    let entries := parseJsonlFile e None None in
    match entries with
    | [] => Ok None
    | _ =>
        if negb (spreadFits H (jslength entries)) then Rejected (js "RangeError")
        else
        let timestamps := List.map (fun x => date_of H (cc_timestamp x)) entries in
        let sessionStart := date_of_min (List.map getTime timestamps) in
        let sessionEnd := date_of_max (List.map getTime timestamps) in
        let push :=
          Ok (Some {| sess_id := sessionId;
                      sess_source := code_source;
                      projectId := Some (js "code_" ++ decodedPath);
                      projectName := Some decodedPath;
                      title := None;
                      createdAt := sessionStart;
                      updatedAt := sessionEnd;
                      messageCount := jslength entries |}) in
        let after_end_check :=
          match truthy normalizedEndDate with
          | None => push
          | Some ne =>
              match toISOString H sessionStart with
              | Rejected err => Rejected err
              | Ok iso => if jsltb ne iso then Ok None else push
              end
          end in
        match truthy normalizedStartDate with
        | None => after_end_check
        | Some ns =>
            match toISOString H sessionEnd with
            | Rejected err => Rejected err
            | Ok iso => if jsltb iso ns then Ok None else after_end_check
            end
        end
    end.

Definition sessions_of_project (projectPath : option jsstring)
    (normalizedStartDate normalizedEndDate : option jsstring)
    (p : jsstring * ProjectNode) : list (result (option Session)) :=
  let '(projectDir, node) := p in
  let decodedPath := decodeProjectPath projectDir in
  if match truthy projectPath with
     | Some pp => negb (jseqb decodedPath pp)
     | None => false
     end then []
  else match node with
       | NotADirectory => []
       | ProjectDir files =>
           List.map (fun '(file, e) =>
                       session_of_file decodedPath file e
                         normalizedStartDate normalizedEndDate) files
       end.

(** What the [try] block has pushed when it ends, normally or at the
    first exception. *)
Fixpoint pushed_until_throw {A} (steps : list (result (option A))) : list A :=
  match steps with
  | [] => []
  | Ok (Some a) :: r => a :: pushed_until_throw r
  | Ok None :: r => pushed_until_throw r
  | Rejected _ :: _ => []
  end.

(** The [sessions] array when the traversal is over *)
Definition collected_sessions (fs : FileSystem) (options : ListSessionsOptions)
  : list Session :=
  let normalizedStartDate := normalized (ls_startDate options) false (ls_timezone options) in
  let normalizedEndDate := normalized (ls_endDate options) true (ls_timezone options) in
  match fs with
  | None => []
  | Some projectDirs =>
      pushed_until_throw
        (flat_map (sessions_of_project (ls_projectPath options)
                     normalizedStartDate normalizedEndDate) projectDirs)
  end.

Definition listSessions (fs : FileSystem) (options : ListSessionsOptions)
  : list Session :=
  let limit := default_to (ls_limit options) 50 in
  let offset := default_to (ls_offset options) 0 in
  let sessions := collected_sessions fs options in
  slice (sort by_updatedAt_desc sessions) offset (offset + limit).

(** ** getConversation *)

Definition default_types : list jsstring := [js "user"; js "assistant"].

(** [messageTypes && messageTypes.length > 0 ? messageTypes : [...]] *)
Definition allowed_types (messageTypes : option (list jsstring)) : list jsstring :=
  match messageTypes with
  | Some (t :: r) => t :: r
  | _ => default_types
  end.

(** [e.type === 'result' ? 'system' : e.type] *)
Definition role_of (e : ClaudeCodeMessage) : jsstring :=
  if jseqb (cc_type e) (js "result") then js "system" else cc_type e.

Definition type_allowed (allowedTypes : list jsstring) (e : ClaudeCodeMessage)
  : bool :=
  includes_str allowedTypes (role_of e) || includes_str allowedTypes (cc_type e).

Definition to_message (e : ClaudeCodeMessage) : Message :=
  {| msg_id := cc_uuid e;
     role := role_of e;
     content := extractContent e;
     timestamp := date_of H (cc_timestamp e) |}.

(** The body of the loop once [fs.access] has succeeded.  On a file
    with more records than a call takes arguments [Math.min(...)]
    raises a RangeError. *)
Definition conversation_of_file (sessionId projectDir : jsstring) (e : DirEntry)
    (allowedTypes : list jsstring) (limit offset : Z) : result Conversation :=
  let entries := parseJsonlFile e None None in
  let decodedPath := decodeProjectPath projectDir in
  if negb (spreadFits H (jslength entries)) then Rejected (js "RangeError")
  else
  let messages :=
    sort by_timestamp_asc
      (List.map to_message (List.filter (type_allowed allowedTypes) entries)) in
  let paginatedMessages := slice messages offset (offset + limit) in
  let timestamps := List.map (fun x => date_of H (cc_timestamp x)) entries in
  let sessionStart := date_of_min (List.map getTime timestamps) in
  let sessionEnd := date_of_max (List.map getTime timestamps) in
  Ok {| conv_id := sessionId;
        conv_source := code_source;
        session := {| sess_id := sessionId;
                      sess_source := code_source;
                      projectId := Some (js "code_" ++ decodedPath);
                      projectName := Some decodedPath;
                      title := None;
                      createdAt := sessionStart;
                      updatedAt := sessionEnd;
                      messageCount := jslength messages |};
        messages := paginatedMessages |}.

(** [fs.access(path.join(projectsDir, projectDir, `${sessionId}.jsonl`))]
    followed by the use of that file.  The path resolves to a file of a
    project directory, the one named in the call or another one, or to
    a place the tree does not describe; access fails under an entry that
    is not a directory. *)
Definition access (projectDirs : list (jsstring * ProjectNode))
    (projectDir : jsstring) (node : ProjectNode) (sessionId : jsstring)
  : option DirEntry :=
  match join_below [projectDir] (sessionId ++ jsonl_ext) with
  | Some [file; dir] =>
      match (if jseqb dir projectDir then Some node
             else lookup_dir dir projectDirs) with
      | Some (ProjectDir files) => lookup_entry file files
      | _ => None
      end
  | _ => outside H projectDir sessionId
  end.

(** The loop over the project directories: the first file found ends
    it, with the conversation or, when reading it raises, with nothing. *)
Fixpoint first_conversation (all projectDirs : list (jsstring * ProjectNode))
    (sessionId : jsstring) (allowedTypes : list jsstring) (limit offset : Z)
  : option Conversation :=
  match projectDirs with
  | [] => None
  | (projectDir, node) :: r =>
      match access all projectDir node sessionId with
      | None => first_conversation all r sessionId allowedTypes limit offset
      | Some e =>
          match conversation_of_file sessionId projectDir e allowedTypes
                  limit offset with
          | Ok conversation => Some conversation
          | Rejected _ => None
          end
      end
  end.

Definition getConversation (fs : FileSystem) (options : GetConversationOptions)
  : option Conversation :=
  let sessionId := gc_sessionId options in
  let limit := default_to (gc_limit options) 100 in
  let offset := default_to (gc_offset options) 0 in
  let allowedTypes := allowed_types (gc_messageTypes options) in
  match fs with
  | None => None
  | Some projectDirs =>
      first_conversation projectDirs projectDirs sessionId allowedTypes
        limit offset
  end.

(** ** search *)

Definition search_file (query : jsstring)
    (normalizedStartDate normalizedEndDate : option jsstring) (file : DirEntry)
  : list SearchResult :=
  if shouldSkipFile file normalizedStartDate normalizedEndDate then []
  else
    let entries := parseJsonlFile file normalizedStartDate normalizedEndDate in
    filter_map (fun entry =>
      let content := extractContent entry in
      if matches H content query then
        Some {| sr_source := code_source;
                sr_sessionId := cc_sessionId entry;
                sr_messageId := cc_uuid entry;
                snippet := make_snippet H content query;
                sr_timestamp := date_of H (cc_timestamp entry) |}
      else None) entries.

(** Phase 1: the [.jsonl] entries of the selected project directories *)
Definition files_of_project (projectPath : option jsstring)
    (p : jsstring * ProjectNode) : list DirEntry :=
  let '(projectDir, node) := p in
  let decodedPath := decodeProjectPath projectDir in
  if match truthy projectPath with
     | Some pp => negb (jseqb decodedPath pp)
     | None => false
     end then []
  else match node with
       | NotADirectory => []
       | ProjectDir files =>
           List.map snd
             (List.filter (fun '(file, _) => endsWith file jsonl_ext) files)
       end.

Definition FILE_CONCURRENCY : nat := 10.

(** Phase 2: the loop over batches; [fuel] bounds the number of
    batches, and a list of [n] files has at most [n] of them. *)
Fixpoint search_batches (fuel : nat) (limit : Z) (query : jsstring)
    (normalizedStartDate normalizedEndDate : option jsstring)
    (filePaths : list DirEntry) (results : list SearchResult)
  : list SearchResult :=
  match fuel with
  | O => results
  | S fuel' =>
      match filePaths with
      | [] => results
      | _ =>
          if limit <=? jslength results then results
          else
            let batch := firstn FILE_CONCURRENCY filePaths in
            let batchResults :=
              List.map (search_file query normalizedStartDate normalizedEndDate)
                batch in
            search_batches fuel' limit query normalizedStartDate normalizedEndDate
              (skipn FILE_CONCURRENCY filePaths)
              (results ++ push_all batchResults)
      end
  end.

Definition search (fs : FileSystem) (options : SearchOptions)
  : list SearchResult :=
  let query := so_query options in
  let limit := default_to (so_limit options) 30 in
  let normalizedStartDate := normalized (so_startDate options) false (so_timezone options) in
  let normalizedEndDate := normalized (so_endDate options) true (so_timezone options) in
  let results :=
    match fs with
    | None => []
    | Some projectDirs =>
        let filePaths :=
          flat_map (files_of_project (so_projectPath options)) projectDirs in
        search_batches (List.length filePaths) limit query
          normalizedStartDate normalizedEndDate filePaths []
    end in
  slice (sort by_sr_timestamp_desc results) 0 limit.

(** ** listProjects *)

Record ProjectInfo := {
  sessionIds : list jsstring;
  info_messageCount : Z;
  info_lastActivity : Z
}.

(** [sessionIds.add(id)] on a [Set] kept in insertion order *)
Definition set_add (id : jsstring) (ids : list jsstring) : list jsstring :=
  if includes_str ids id then ids else ids ++ [id].

Definition add_file (info : ProjectInfo) (f : jsstring * DirEntry) : ProjectInfo :=
  let '(file, e) := f in
  if endsWith file jsonl_ext then
    {| sessionIds := set_add (remove_first file jsonl_ext) (sessionIds info);
       info_messageCount :=
         info_messageCount info + jslength (parseJsonlFile e None None);
       info_lastActivity :=
         if info_lastActivity info <? mtime e then mtime e
         else info_lastActivity info |}
  else info.

(** The [Map] from decoded path to project info, in insertion order *)
Fixpoint map_update (key : jsstring) (f : ProjectInfo -> ProjectInfo)
    (m : list (jsstring * ProjectInfo)) : list (jsstring * ProjectInfo) :=
  match m with
  | [] => [(key, f {| sessionIds := []; info_messageCount := 0;
                      info_lastActivity := 0 |})]
  | (k, v) :: r =>
      if jseqb k key then (k, f v) :: r else (k, v) :: map_update key f r
  end.

Definition add_project (m : list (jsstring * ProjectInfo))
    (p : jsstring * ProjectNode) : list (jsstring * ProjectInfo) :=
  let '(projectDir, node) := p in
  match node with
  | NotADirectory => m
  | ProjectDir files =>
      map_update (decodeProjectPath projectDir)
        (fun info => fold_left add_file files info) m
  end.

Definition listProjects (fs : FileSystem) : list Project :=
  let projects :=
    match fs with
    | None => []
    | Some projectDirs => fold_left add_project projectDirs []
    end in
  List.map (fun '(decodedPath, info) =>
    {| proj_id := js "code_" ++ decodedPath;
       proj_name := decodedPath;
       proj_path := Some decodedPath;
       proj_source := code_source;
       sessionCount := jslength (sessionIds info);
       proj_messageCount := info_messageCount info;
       lastActivity := Some (info_lastActivity info) |}) projects.

(** ** The source object *)

Definition ClaudeCodeSource (fs : FileSystem) : ConversationSource :=
  {| type := code;
     isAvailable := true;
     Sources.listProjects := Ok (listProjects fs);
     Sources.listSessions := fun options => Ok (listSessions fs options);
     Sources.getConversation := fun options => Ok (getConversation fs options);
     Sources.search := fun options => Ok (search fs options) |}.

End WithHost.

End ClaudeCode.

(* ===================================================================== *)
(** * Remote API client ([src/auth/session.ts]) *)
(* ===================================================================== *)

Module Auth.

Definition CLAUDE_API_BASE : jsstring := js "https://claude.ai".
Definition REQUEST_DELAY_MS : Z := 100.

Record CloudSession := {
  sessionKey : jsstring;
  orgId : option jsstring;
  available : bool;
  lastRequestTime : Z
}.

(** [new CloudSession(sessionKey, orgId)] *)
Definition new_CloudSession (sessionKey : jsstring) (org : option jsstring)
  : CloudSession :=
  {| sessionKey := sessionKey;
     orgId := truthy org;
     available := true;
     lastRequestTime := 0 |}.

(** ** The world a client instance runs in *)

(** What one [fetch] of [response.status] and [response.json()] comes
    to: a response with its status and its body parsed at the type the
    caller asserts ([None] when [json()] rejects), or a rejected
    [fetch] with the name of its error. *)
Inductive FetchOutcome (T : Type) : Type :=
| Response (status : Z) (body : option T)
| Failure (name : jsstring).
Arguments Response {T} status body.
Arguments Failure {T} name.

Record Exchange (T : Type) : Type := {
  outcome : FetchOutcome T;
  took : Z
}.
Arguments outcome {T} _.
Arguments took {T} _.

(** An endpoint family: the answer to the [n]-th request of the run
    when it asks for [url]. *)
Definition Server (T : Type) := nat -> jsstring -> Exchange T.

Inductive Event :=
| Slept (ms : Z)
| Fetched (url : jsstring).

Record World := {
  clock : Z;
  requests : nat;
  trace : list Event
}.

(** ** A state monad over the client instance and its world *)

Definition St := (CloudSession * World)%type.
Definition M (A : Type) := St -> A * St.

Definition ret {A} (a : A) : M A := fun st => (a, st).
Definition bind {A B} (c : M A) (k : A -> M B) : M B :=
  fun st => let '(a, st') := c st in k a st'.

Declare Scope session_scope.
Delimit Scope session_scope with session.
Notation "x <- c ;; k" := (bind c (fun x => k))
  (at level 100, c at next level, right associativity) : session_scope.
Notation "c ;;; k" := (bind c (fun _ => k))
  (at level 100, right associativity) : session_scope.
Local Open Scope session_scope.

Definition this : M CloudSession := fun st => (fst st, st).
Definition update (f : CloudSession -> CloudSession) : M unit :=
  fun '(s, w) => (tt, (f s, w)).

(** [Date.now()] *)
Definition now : M Z := fun st => (clock (snd st), st).

(** [await new Promise(resolve => setTimeout(resolve, ms))] *)
Definition sleep (ms : Z) : M unit :=
  fun '(s, w) =>
    (tt, (s, {| clock := clock w + ms;
                requests := requests w;
                trace := trace w ++ [Slept ms] |})).

(** [await fetch(url, ...)] together with the reading of the body *)
Definition fetch {T} (server : Server T) (url : jsstring) : M (FetchOutcome T) :=
  fun '(s, w) =>
    let x := server (requests w) url in
    (outcome x, (s, {| clock := clock w + took x;
                       requests := S (requests w);
                       trace := trace w ++ [Fetched url] |})).

(** ** Methods *)

Definition isAvailable : M bool := s <- this ;; ret (available s).

Definition markUnavailable : M unit :=
  update (fun s => {| sessionKey := sessionKey s;
                      orgId := orgId s;
                      available := false;
                      lastRequestTime := lastRequestTime s |}).

Definition set_lastRequestTime (t : Z) : M unit :=
  update (fun s => {| sessionKey := sessionKey s;
                      orgId := orgId s;
                      available := available s;
                      lastRequestTime := t |}).

Definition set_orgId (o : jsstring) : M unit :=
  update (fun s => {| sessionKey := sessionKey s;
                      orgId := Some o;
                      available := available s;
                      lastRequestTime := lastRequestTime s |}).

(** [response.ok] *)
Definition ok (status : Z) : bool := (200 <=? status) && (status <=? 299).

(** [Math.pow(2, attempt + 1) * 1000] *)
Definition backoff (attempt : Z) : Z := 2 ^ (attempt + 1) * 1000.

(** The loop [for (let attempt = 0; attempt < 3; attempt++)], entered
    with [left] iterations to go. *)
Fixpoint attempts {T} (server : Server T) (url : jsstring)
    (left : nat) (attempt : Z) : M (option T) :=
  match left with
  | O => ret None
  | S left' =>
      let caught (name : jsstring) : M (option T) :=
        if jseqb name (js "TimeoutError") || jseqb name (js "AbortError")
        then ret None
        else
          (if attempt <? 2 then sleep (backoff attempt) else ret tt) ;;;
          attempts server url left' (attempt + 1) in
      t <- now ;;
      set_lastRequestTime t ;;;
      response <- fetch server url ;;
      match response with
      | Response status body =>
          if (status =? 401) || (status =? 403) then
            markUnavailable ;;; ret None
          else if status =? 429 then
            sleep (backoff attempt) ;;;
            attempts server url left' (attempt + 1)
          else if negb (ok status) then ret None
          else match body with
               | Some payload => ret (Some payload)
               | None => caught (js "SyntaxError")
               end
      | Failure name => caught name
      end
  end.

Definition fetchApi {T} (server : Server T) (path : jsstring) : M (option T) :=
  s <- this ;;
  if negb (available s) then ret None
  else
    t <- now ;;
    let elapsed := t - lastRequestTime s in
    (if elapsed <? REQUEST_DELAY_MS then sleep (REQUEST_DELAY_MS - elapsed)
     else ret tt) ;;;
    attempts server (CLAUDE_API_BASE ++ path) 3 0.

Definition getOrgId (organizations : Server (list CloudOrganization))
  : M (option jsstring) :=
  s <- this ;;
  match truthy (orgId s) with
  | Some o => ret (Some o)
  | None =>
      orgs <- fetchApi organizations (js "/api/organizations") ;;
      match orgs with
      | Some (firstOrg :: _) =>
          set_orgId (org_uuid firstOrg) ;;; ret (Some (org_uuid firstOrg))
      | _ => markUnavailable ;;; ret None
      end
  end.

End Auth.

(* ===================================================================== *)
(** * Remote source ([src/sources/claude-api.ts]) *)
(* ===================================================================== *)

Module ClaudeApi.
Import Auth.
Local Open Scope session_scope.

(** The three endpoint families of the claude.ai API the source reads,
    each answering at the type the source asserts for it. *)
Record Api := {
  organizations : Server (list CloudOrganization);
  chat_conversations : Server (list CloudConversationSummary);
  chat_conversation : Server CloudConversationDetail
}.

Definition cloud_source : Source := {| src_type := cloud |}.

Definition extractCloudContent (msg : CloudMessage) : jsstring :=
  match cm_text msg with
  | _ :: _ => cm_text msg
  | [] =>
      match cm_content msg with
      | Some blocks =>
          join_space
            (List.map (fun block => default_to (cb_text block) [])
               (List.filter
                  (fun block =>
                     jseqb (cb_type block) (js "text") &&
                     match truthy (cb_text block) with
                     | Some _ => true
                     | None => false
                     end) blocks))
      | None => []
      end
  end.

(** [a >= b] and [a <= b] on numbers: false when one is [NaN] *)
Definition num_geb (a b : jsnum) : bool :=
  match a, b with
  | Some x, Some y => y <=? x
  | _, _ => false
  end.

Definition num_leb (a b : jsnum) : bool := num_geb b a.

Section WithHost.
Variable H : Host.
Variable api : Api.

Definition isAvailable : M bool := Auth.isAvailable.

Definition conversations_path (org : jsstring) : jsstring :=
  js "/api/organizations/" ++ org ++ js "/chat_conversations".

Definition listProjects : M (list Project) :=
  org <- getOrgId (organizations api) ;;
  match truthy org with
  | None => ret []
  | Some org =>
      conversations <- fetchApi (chat_conversations api) (conversations_path org) ;;
      match conversations with
      | None => ret []
      | Some conversations =>
          let lastActivity :=
            fold_left (fun acc conv =>
                         let updated := parseDate H (cs_updated_at conv) in
                         match getTime updated, getTime acc with
                         | Some u, Some a => if a <? u then updated else acc
                         | _, _ => acc
                         end)
              conversations (Some 0) in
          ret [ {| proj_id := js "cloud_conversations";
                   proj_name := js "Claude.ai Conversations";
                   proj_path := None;
                   proj_source := cloud_source;
                   sessionCount := jslength conversations;
                   proj_messageCount := 0;
                   lastActivity := lastActivity |} ]
      end
  end.

Definition normalized (d : option jsstring) (isEnd : bool)
    (timezone : option jsstring) : option jsstring :=
  match truthy d with
  | Some s => Some (DateUtil.normalizeDate H s isEnd timezone)
  | None => None
  end.

Definition session_of_summary (conv : CloudConversationSummary) : Session :=
  {| sess_id := cs_uuid conv;
     sess_source := cloud_source;
     projectId := Some (js "cloud_conversations");
     projectName := Some (js "Claude.ai Conversations");
     title := truthy (Some (cs_name conv));
     createdAt := parseDate H (cs_created_at conv);
     updatedAt := parseDate H (cs_updated_at conv);
     messageCount := 0 |}.

Definition listSessions (options : ListSessionsOptions) : M (list Session) :=
  let limit := default_to (ls_limit options) 50 in
  let offset := default_to (ls_offset options) 0 in
  org <- getOrgId (organizations api) ;;
  match truthy org with
  | None => ret []
  | Some org =>
      let normalizedStartDate :=
        normalized (ls_startDate options) false (ls_timezone options) in
      let normalizedEndDate :=
        normalized (ls_endDate options) true (ls_timezone options) in
      conversations <- fetchApi (chat_conversations api) (conversations_path org) ;;
      match conversations with
      | None => ret []
      | Some conversations =>
          let sessions := List.map session_of_summary conversations in
          let sessions :=
            match truthy normalizedStartDate with
            | Some ns =>
                let startMs := getTime (parseDate H ns) in
                List.filter (fun s => num_geb (getTime (updatedAt s)) startMs) sessions
            | None => sessions
            end in
          let sessions :=
            match truthy normalizedEndDate with
            | Some ne =>
                let endMs := getTime (parseDate H ne) in
                List.filter (fun s => num_leb (getTime (createdAt s)) endMs) sessions
            | None => sessions
            end in
          ret (slice (sort by_updatedAt_desc sessions) offset (offset + limit))
      end
  end.

(** [msg.sender === 'human' ? 'user' : 'assistant'] *)
Definition role_of (msg : CloudMessage) : jsstring :=
  if jseqb (cm_sender msg) (js "human") then js "user" else js "assistant".

Definition to_message (msg : CloudMessage) : Message :=
  {| msg_id := cm_uuid msg;
     role := role_of msg;
     content := extractCloudContent msg;
     timestamp := parseDate H (cm_created_at msg) |}.

Definition conversation_of_detail (sessionId : jsstring)
    (detail : CloudConversationDetail) (allowedTypes : list jsstring)
    (limit offset : Z) : Conversation :=
  let allMessages :=
    sort by_timestamp_asc
      (List.map to_message
         (List.filter (fun msg => includes_str allowedTypes (role_of msg))
            (default_to (chat_messages detail) []))) in
  let paginatedMessages := slice allMessages offset (offset + limit) in
  {| conv_id := sessionId;
     conv_source := cloud_source;
     session := {| sess_id := sessionId;
                   sess_source := cloud_source;
                   projectId := Some (js "cloud_conversations");
                   projectName := Some (js "Claude.ai Conversations");
                   title := truthy (Some (cd_name detail));
                   createdAt := parseDate H (cd_created_at detail);
                   updatedAt := parseDate H (cd_updated_at detail);
                   messageCount := jslength allMessages |};
     messages := paginatedMessages |}.

Definition getConversation (options : GetConversationOptions)
  : M (option Conversation) :=
  let sessionId := gc_sessionId options in
  let limit := default_to (gc_limit options) 100 in
  let offset := default_to (gc_offset options) 0 in
  let allowedTypes := ClaudeCode.allowed_types (gc_messageTypes options) in
  org <- getOrgId (organizations api) ;;
  match truthy org with
  | None => ret None
  | Some org =>
      detail <- fetchApi (chat_conversation api)
                  (conversations_path org ++ js "/" ++ sessionId) ;;
      match detail with
      | None => ret None
      | Some detail =>
          ret (Some (conversation_of_detail sessionId detail allowedTypes limit offset))
      end
  end.

End WithHost.

End ClaudeApi.

(* ===================================================================== *)
(** * Query orchestration ([src/tools/*.ts]) *)
(* ===================================================================== *)

Module Tools.

(** The [source] argument of the listing and search tools *)
Inductive SourceFilter :=
| Only (t : SourceType)
| All.

(** [sources.filter(s => s.isAvailable() &&
                     (sourceFilter === 'all' || s.type === sourceFilter))] *)
Definition active (sourceFilter : SourceFilter) (s : ConversationSource) : bool :=
  isAvailable s &&
  match sourceFilter with
  | All => true
  | Only t => SourceType_eqb (type s) t
  end.

Definition activeSources (sources : list ConversationSource)
    (sourceFilter : SourceFilter) : list ConversationSource :=
  List.filter (active sourceFilter) sources.

(** ** list-projects.ts *)

Record ListProjectsArgs := { lp_source : option SourceFilter }.

Definition listProjects (sources : list ConversationSource)
    (args : ListProjectsArgs) : result (list Project) :=
  let sourceFilter := default_to (lp_source args) All in
  match promise_all
          (List.map (fun s => catch (Sources.listProjects s) [])
             (activeSources sources sourceFilter)) with
  | Rejected e => Rejected e
  | Ok projectArrays =>
      Ok (sort by_lastActivity_desc (push_all projectArrays))
  end.

(** ** list-sessions.ts *)

Record ListSessionsArgs := {
  source : option SourceFilter;
  projectPath : option jsstring;
  projectId : option jsstring;
  startDate : option jsstring;
  endDate : option jsstring;
  timezone : option jsstring;
  limit : option Z;
  offset : option Z
}.

Record ListSessionsResponse := {
  sessions : list Session;
  pagination : PaginationInfo
}.

(** The options handed to every selected source *)
Definition source_options (args : ListSessionsArgs) : ListSessionsOptions :=
  let limit := default_to (limit args) 50 in
  let offset := default_to (offset args) 0 in
  {| ls_projectPath := projectPath args;
     ls_projectId := Tools.projectId args;
     ls_startDate := startDate args;
     ls_endDate := endDate args;
     ls_timezone := timezone args;
     ls_limit := Some (limit + offset);
     ls_offset := Some 0 |}.

Definition listSessions (sources : list ConversationSource)
    (args : ListSessionsArgs) : result ListSessionsResponse :=
  let sourceFilter := default_to (source args) All in
  let limit := default_to (limit args) 50 in
  let offset := default_to (offset args) 0 in
  let opts := source_options args in
  match promise_all
          (List.map (fun s => catch (Sources.listSessions s opts) [])
             (activeSources sources sourceFilter)) with
  | Rejected e => Rejected e
  | Ok sessionArrays =>
      let allSessions := sort by_updatedAt_desc (push_all sessionArrays) in
      let totalCount := jslength allSessions in
      let paginated := slice allSessions offset (offset + limit) in
      let hasMore := offset + limit <? totalCount in
      Ok {| sessions := paginated;
            pagination := {| total_count := totalCount;
                             pg_limit := limit;
                             pg_offset := offset;
                             has_more := hasMore |} |}
  end.

(** ** search.ts *)

Record SearchConversationsArgs := {
  sc_query : jsstring;
  sc_source : option SourceFilter;
  sc_projectPath : option jsstring;
  sc_projectId : option jsstring;
  sc_startDate : option jsstring;
  sc_endDate : option jsstring;
  sc_timezone : option jsstring;
  sc_limit : option Z
}.

Record SearchConversationsResponse := {
  results : list SearchResult;
  sources_searched : list Source
}.

Definition search_options (args : SearchConversationsArgs) : SearchOptions :=
  {| so_query := sc_query args;
     so_projectPath := sc_projectPath args;
     so_projectId := sc_projectId args;
     so_startDate := sc_startDate args;
     so_endDate := sc_endDate args;
     so_timezone := sc_timezone args;
     so_limit := Some (default_to (sc_limit args) 30) |}.

Definition searchConversations (sources : list ConversationSource)
    (args : SearchConversationsArgs) : result SearchConversationsResponse :=
  let sourceFilter := default_to (sc_source args) All in
  let limit := default_to (sc_limit args) 30 in
  let active := activeSources sources sourceFilter in
  let sourcesSearched := List.map (fun s => {| src_type := type s |}) active in
  match promise_all
          (List.map (fun s => catch (Sources.search s (search_options args)) [])
             active) with
  | Rejected e => Rejected e
  | Ok resultArrays =>
      let allResults := sort by_sr_timestamp_desc (push_all resultArrays) in
      Ok {| results := slice allResults 0 limit;
            sources_searched := sourcesSearched |}
  end.

(** ** get-conversation.ts *)

Record GetConversationArgs := {
  sessionId : jsstring;
  source_hint : option SourceType;
  messageTypes : option (list jsstring);
  gc_args_limit : option Z;
  gc_args_offset : option Z
}.

Definition conversation_options (args : GetConversationArgs)
  : GetConversationOptions :=
  {| gc_sessionId := sessionId args;
     gc_messageTypes := messageTypes args;
     gc_limit := Some (default_to (gc_args_limit args) 100);
     gc_offset := Some (default_to (gc_args_offset args) 0) |}.

(** The comparator that puts the local source first *)
Definition code_first (a b : ConversationSource) : Z :=
  match type a, type b with
  | code, _ => -1
  | _, code => 1
  | _, _ => 0
  end.

(** The loop over the ordered sources: the first hit is returned, a
    source that is unavailable, filtered out, empty-handed or failing is
    passed over. *)
Fixpoint first_hit (ordered : list ConversationSource)
    (hint : option SourceType) (opts : GetConversationOptions)
  : option Conversation :=
  match ordered with
  | [] => None
  | src :: rest =>
      if negb (isAvailable src) then first_hit rest hint opts
      else if match hint with
              | Some t => negb (SourceType_eqb (type src) t)
              | None => false
              end then first_hit rest hint opts
      else match Sources.getConversation src opts with
           | Ok (Some result) => Some result
           | Ok None | Rejected _ => first_hit rest hint opts
           end
  end.

Definition getConversation (sources : list ConversationSource)
    (args : GetConversationArgs) : result (option Conversation) :=
  let opts := conversation_options args in
  let auto_detect :=
    Ok (first_hit (sort code_first sources) (source_hint args) opts) in
  match source_hint args with
  | Some t =>
      match List.find (fun s => SourceType_eqb (type s) t && isAvailable s)
              sources with
      | Some targeted =>
          match catch (Sources.getConversation targeted opts) None with
          | Ok (Some result) => Ok (Some result)
          | _ => auto_detect
          end
      | None => auto_detect
      end
  | None => auto_detect
  end.

End Tools.

(* ===================================================================== *)
(** * A reference runtime for the examples *)
(* ===================================================================== *)

(** A runtime fixed enough to evaluate the sources on concrete inputs:
    the system zone is UTC, [Date] parses the format [toISOString]
    prints, and the zone database knows UTC only. *)
Module Reference.

(** Days since the epoch of a proleptic Gregorian date, and back. *)
Definition days_from_civil (y m d : Z) : Z :=
  let y' := if m <=? 2 then y - 1 else y in
  let era := y' / 400 in
  let yoe := y' - era * 400 in
  let doy := (153 * (m + (if 2 <? m then -3 else 9)) + 2) / 5 + d - 1 in
  let doe := yoe * 365 + yoe / 4 - yoe / 100 + doy in
  era * 146097 + doe - 719468.

Definition civil_from_days (z : Z) : Z * Z * Z :=
  let z := z + 719468 in
  let era := z / 146097 in
  let doe := z - era * 146097 in
  let yoe := (doe - doe / 1460 + doe / 36524 - doe / 146096) / 365 in
  let doy := doe - (365 * yoe + yoe / 4 - yoe / 100) in
  let mp := (5 * doy + 2) / 153 in
  let d := doy - (153 * mp + 2) / 5 + 1 in
  let m := if mp <? 10 then mp + 3 else mp - 9 in
  let y := yoe + era * 400 + (if m <=? 2 then 1 else 0) in
  (y, m, d).

Definition ms_per_day : Z := 86400000.

(** Decimal digits, most significant first, padded to [width]. *)
Fixpoint digits (width : nat) (n : Z) : jsstring :=
  match width with
  | O => []
  | S w => digits w (n / 10) ++ [Z.to_N (48 + n mod 10)]
  end.

Definition digit_value (c : codeunit) : option Z :=
  if (N.leb 48 c && N.leb c 57)%bool then Some (Z.of_N c - 48) else None.

Fixpoint decimal_from (acc : Z) (s : jsstring) : jsnum :=
  match s with
  | [] => Some acc
  | c :: r => match digit_value c with
              | Some v => decimal_from (acc * 10 + v) r
              | None => NaN
              end
  end.

(** [Number(s)] on strings of decimal digits; [Number('')] is [0]. *)
Definition toNumber (s : jsstring) : jsnum := decimal_from 0 s.

Definition isoString (t : Z) : jsstring :=
  let day := t / ms_per_day in
  let rest := t mod ms_per_day in
  let '(y, m, d) := civil_from_days day in
  (if (0 <=? y) && (y <=? 9999) then digits 4 y
   else (if y <? 0 then js "-" else js "+") ++ digits 6 (Z.abs y)) ++
  js "-" ++ digits 2 m ++ js "-" ++ digits 2 d ++ js "T" ++
  digits 2 (rest / 3600000) ++ js ":" ++
  digits 2 (rest / 60000 mod 60) ++ js ":" ++
  digits 2 (rest / 1000 mod 60) ++ js "." ++
  digits 3 (rest mod 1000) ++ js "Z".

Definition field (s : jsstring) (from len : nat) : jsnum :=
  toNumber (firstn len (skipn from s)).

Definition sep_at (s : jsstring) (i : nat) (c : string) : bool :=
  jseqb (firstn 1 (skipn i s)) (js c).

(** [new Date(s).getTime()] for [YYYY-MM-DDTHH:mm:ss.sssZ]; any other
    text is an Invalid Date. *)
Definition parseDate (s : jsstring) : Date :=
  if negb (Nat.eqb (List.length s) 24 &&
           sep_at s 4 "-" && sep_at s 7 "-" && sep_at s 10 "T" &&
           sep_at s 13 ":" && sep_at s 16 ":" && sep_at s 19 "." &&
           sep_at s 23 "Z") then NaN
  else
    match field s 0 4, field s 5 2, field s 8 2,
          field s 11 2, field s 14 2, field s 17 2, field s 20 3 with
    | Some y, Some m, Some d, Some h, Some mi, Some sec, Some ms =>
        let day := days_from_civil y m d in
        let '(y', m', d') := civil_from_days day in
        if (y' =? y) && (m' =? m) && (d' =? d) &&
           (h <=? 23) && (mi <=? 59) && (sec <=? 59)
        then Some (day * ms_per_day + h * 3600000 + mi * 60000 + sec * 1000 + ms)
        else NaN
    | _, _, _, _, _, _, _ => NaN
    end.

(** [s.toLowerCase()] on Basic Latin and Latin-1 letters and on U+0130
    (capital I with dot above, which lowercases to the two code units
    U+0069 U+0307); other code units are kept. *)
Definition lower_unit (c : codeunit) : jsstring :=
  if (N.leb 65 c && N.leb c 90)%bool then [(c + 32)%N]
  else if (N.leb 192 c && N.leb c 222 && negb (N.eqb c 215))%bool then [(c + 32)%N]
  else if N.eqb c 304 then [105%N; 775%N]
  else [c].

Definition toLowerCase (s : jsstring) : jsstring := flat_map lower_unit s.

(** [new Date(y, m, d, h, mi, s, ms)] in the system zone, UTC *)
Definition localDate (y m d : jsnum) (h mi s ms : Z) : Date :=
  match y, m, d with
  | Some y, Some m, Some d =>
      let y := if (0 <=? y) && (y <=? 99) then 1900 + y else y in
      let day := days_from_civil (y + m / 12) (m mod 12 + 1) 1 + d - 1 in
      new_Date (Some (day * ms_per_day + h * 3600000 + mi * 60000 + s * 1000 + ms))
  | _, _, _ => NaN
  end.

(** [d.toLocaleString('en-CA', { timeZone })] *)
Definition toLocaleString (d : Date) (tz : jsstring) : result jsstring :=
  if negb (jseqb tz (js "UTC")) then Rejected (js "RangeError")
  else match d with
       | None => Ok (js "Invalid Date")
       | Some t =>
           let '(y, m, dd) := civil_from_days (t / ms_per_day) in
           let rest := t mod ms_per_day in
           let h := rest / 3600000 in
           let h12 := if h mod 12 =? 0 then 12 else h mod 12 in
           Ok (digits 4 y ++ js "-" ++ digits 2 m ++ js "-" ++ digits 2 dd ++
               js ", " ++
               (if h12 <? 10 then digits 1 h12 else digits 2 h12) ++ js ":" ++
               digits 2 (rest / 60000 mod 60) ++ js ":" ++
               digits 2 (rest / 1000 mod 60) ++
               (if h <? 12 then js " a.m." else js " p.m."))
       end.

(** A call takes at most 65535 arguments. *)
Definition spreadFits (n : Z) : bool := n <=? 65535.

Definition host : Host :=
  Build_Host toLowerCase parseDate isoString toNumber (js "UTC") localDate
    (fun d => match d with Some _ => Some 0 | None => NaN end)
    toLocaleString spreadFits (fun _ _ => None).

End Reference.


(* ===================================================================== *)
(** * Uses of a client instance *)
(* ===================================================================== *)

Module ClientRuns.
Import Auth.
Local Open Scope session_scope.

(** A server that answers the requests of a run from a script, in
    order, and fails the connection once the script is over. *)
Definition scripted {T} (script : list (FetchOutcome T)) : Server T :=
  fun n _ => {| outcome := nth n script (Failure (js "TypeError")); took := 0 |}.

(** The durations slept along a trace *)
Definition sleeps (tr : list Event) : list Z :=
  flat_map (fun ev => match ev with Slept ms => [ms] | Fetched _ => [] end) tr.

(** The trace of [k] rate-limited attempts, counted from [attempt],
    followed by one more request. *)
Fixpoint retry_trace (url : jsstring) (k : nat) (attempt : Z) : list Event :=
  match k with
  | O => [Fetched url]
  | S k' => Fetched url :: Slept (backoff attempt) :: retry_trace url k' (attempt + 1)
  end.

(** The sleep of the rate limiter on entry to [fetchApi] *)
Definition rate_limit_trace (s : CloudSession) (w : World) : list Event :=
  if clock w - lastRequestTime s <? REQUEST_DELAY_MS
  then [Slept (REQUEST_DELAY_MS - (clock w - lastRequestTime s))]
  else [].

(** A response that reports an authentication or authorization failure *)
Definition auth_failure {T} (o : FetchOutcome T) : Prop :=
  exists status body, o = Response status body /\ (status = 401 \/ status = 403).

(** A response that reports rate limiting *)
Definition rate_limited {T} (o : FetchOutcome T) : Prop :=
  exists body, o = Response 429 body.

(** State changes of the client and of its world *)
Definition with_lastRequestTime (s : CloudSession) (t : Z) : CloudSession :=
  {| sessionKey := sessionKey s; orgId := orgId s;
     available := available s; lastRequestTime := t |}.

Definition demoted (s : CloudSession) : CloudSession :=
  {| sessionKey := sessionKey s; orgId := orgId s;
     available := false; lastRequestTime := lastRequestTime s |}.

Definition after_fetch {T} (x : Exchange T) (url : jsstring) (w : World) : World :=
  {| clock := clock w + took x; requests := S (requests w);
     trace := trace w ++ [Fetched url] |}.

Definition after_sleep (ms : Z) (w : World) : World :=
  {| clock := clock w + ms; requests := requests w;
     trace := trace w ++ [Slept ms] |}.

Section Calls.
Context {T : Type}.
Variable server : Server T.
Variable organizations : Server (list CloudOrganization).

(** The public methods of a client instance *)
Inductive Call :=
| CallFetchApi (path : jsstring)
| CallGetOrgId
| CallMarkUnavailable
| CallIsAvailable.

Inductive Answer :=
| Payload (r : option T)
| Organization (r : option jsstring)
| Flag (b : bool)
| Done.

Definition call (c : Call) : M Answer :=
  match c with
  | CallFetchApi path => r <- fetchApi server path ;; ret (Payload r)
  | CallGetOrgId => r <- getOrgId organizations ;; ret (Organization r)
  | CallMarkUnavailable => markUnavailable ;;; ret Done
  | CallIsAvailable => b <- isAvailable ;; ret (Flag b)
  end.

Fixpoint run (calls : list Call) : M (list Answer) :=
  match calls with
  | [] => ret []
  | c :: rest => a <- call c ;; r <- run rest ;; ret (a :: r)
  end.

(** An answer that carries no payload *)
Definition no_result (a : Answer) : Prop :=
  match a with
  | Payload r => r = None
  | Organization _ | Flag _ | Done => True
  end.

End Calls.

(** The stated behaviour under rate limiting: three [429] responses in
    a row and then a success give the payload of the success. *)
Definition three_429_then_success : Prop :=
  forall (T : Type) (server : Server T) (path : jsstring)
         (s : CloudSession) (w : World) (status : Z) (payload : T),
    available s = true ->
    ok status = true ->
    (forall i, (i < 3)%nat ->
       rate_limited
         (outcome (server (requests w + i)%nat (CLAUDE_API_BASE ++ path)))) ->
    outcome (server (requests w + 3)%nat (CLAUDE_API_BASE ++ path))
    = Response status (Some payload) ->
    fst (fetchApi server path (s, w)) = Some payload.

End ClientRuns.

(* ===================================================================== *)
(** * Vocabulary of the stated properties *)
(* ===================================================================== *)

Module Vocabulary.
Import ClaudeCode.

(** The records of a session file: its successfully parsed lines. *)
Definition is_record (l : Line) : bool :=
  match l with
  | Parsed _ => true
  | Blank | Malformed => false
  end.

Definition record_count (e : DirEntry) : Z :=
  jslength (List.filter is_record (default_to (lines e) [])).




(** Order on instants; an Invalid Date is not comparable. *)
Definition date_le (a b : Date) : Prop :=
  match a, b with
  | Some x, Some y => x <= y
  | _, _ => False
  end.

Definition valid (d : Date) : Prop := d <> NaN.

(** [sub] occurs in [s] *)
Definition occurs_in (sub s : jsstring) : Prop :=
  exists before after, s = before ++ sub ++ after.

(** The session id has no path separator: [<sessionId>.jsonl] names an
    entry of the project directory itself. *)
Definition plain (sessionId : jsstring) : Prop := ~ In 47%N sessionId.

(** No record file exists for [sessionId] in any project directory:
    in each of them [fs.access] on [<sessionId>.jsonl] fails. *)
Definition no_record_file (H : Host) (fs : FileSystem) (sessionId : jsstring)
  : Prop :=
  forall projectDirs projectDir node,
    fs = Some projectDirs ->
    In (projectDir, node) projectDirs ->
    access H projectDirs projectDir node sessionId = None.

(** No project directory lists an entry [<sessionId>.jsonl]. *)
Definition not_listed (fs : FileSystem) (sessionId : jsstring) : Prop :=
  forall projectDirs projectDir files,
    fs = Some projectDirs ->
    In (projectDir, ProjectDir files) projectDirs ->
    lookup_entry (sessionId ++ jsonl_ext) files = None.



(** A source that has nothing for the request, or fails on it. *)
Definition misses (s : ConversationSource) (opts : GetConversationOptions) : Prop :=
  Sources.getConversation s opts = Ok None \/
  exists err, Sources.getConversation s opts = Rejected err.

(** Every record of every session file carries a timestamp the runtime
    can parse. *)
Definition timestamps_parse (H : Host) (fs : FileSystem) : Prop :=
  forall projectDirs projectDir files file e ls m,
    fs = Some projectDirs ->
    In (projectDir, ProjectDir files) projectDirs ->
    In (file, e) files ->
    lines e = Some ls ->
    In (Parsed m) ls ->
    valid (date_of H (cc_timestamp m)).


(** Sessions in non-increasing order of [updatedAt] *)
Definition newest_first (ss : list Session) : Prop :=
  StronglySorted (fun a b => date_le (updatedAt b) (updatedAt a)) ss.


(** What a source contributes to a fan-out: its answer, or nothing when
    its promise is rejected. *)
Definition contribution {A} (p : result (list A)) : list A :=
  match p with
  | Ok l => l
  | Rejected _ => []
  end.

(** The merged listing before pagination *)
Definition merged_sessions (sources : list ConversationSource)
    (args : Tools.ListSessionsArgs) : list Session :=
  sort by_updatedAt_desc
    (push_all
       (List.map (fun s => contribution (Sources.listSessions s (Tools.source_options args)))
          (Tools.activeSources sources (default_to (Tools.source args) Tools.All)))).

(** The position the search looks the match up at, and the bounds of
    the window it cuts out of the content. *)
Definition match_index (H : Host) (content query : jsstring) : Z :=
  indexOf (toLowerCase H content) (toLowerCase H query).

Definition window_start (H : Host) (content query : jsstring) : Z :=
  Z.max 0 (match_index H content query - 50).

Definition window_end (H : Host) (content query : jsstring) : Z :=
  Z.min (jslength content) (match_index H content query + jslength query + 50).

End Vocabulary.

(* ===================================================================== *)
(** * Sample data *)
(* ===================================================================== *)

Module Examples.
Import ClaudeCode.

Definition record (type uuid text time : string) : ClaudeCodeMessage :=
  {| cc_sessionId := js "test-session-123";
     cc_type := js type;
     cc_message := Some {| body_role := js type;
                           body_content := Some (ContentString (js text)) |};
     cc_uuid := js uuid;
     cc_timestamp := TimeString (js time) |}.

Definition user_record : ClaudeCodeMessage :=
  record "user" "msg-uuid-123" "Fix the bug in the authentication module"
    "2025-06-30T10:00:00.000Z".

Definition assistant_record : ClaudeCodeMessage :=
  record "assistant" "msg-uuid-456" "I'll help you fix the authentication bug."
    "2025-06-30T10:00:05.000Z".

Definition system_record : ClaudeCodeMessage :=
  record "system" "msg-uuid-789" "Session resumed" "2025-06-30T09:59:00.000Z".

(** A session file whose records are not in time order. *)
Definition session_file : DirEntry :=
  {| lines := Some [Parsed assistant_record; Blank; Parsed user_record;
                    Malformed; Parsed system_record];
     mtime := 1751277605000;
     birthtime := 1751277540000 |}.

Definition projects : FileSystem :=
  Some [(js "-Users-test-my-app",
         ProjectDir [(js "test-session-123.jsonl", session_file)])].

Definition no_options : ListSessionsOptions :=
  {| ls_projectPath := None; ls_projectId := None; ls_startDate := None;
     ls_endDate := None; ls_timezone := None; ls_limit := None;
     ls_offset := None |}.

Definition by_path (p : string) : ListSessionsOptions :=
  {| ls_projectPath := Some (js p); ls_projectId := None; ls_startDate := None;
     ls_endDate := None; ls_timezone := None; ls_limit := None;
     ls_offset := None |}.

Definition conversation (id : string) : GetConversationOptions :=
  {| gc_sessionId := js id; gc_messageTypes := None; gc_limit := None;
     gc_offset := None |}.

(** A client instance, its starting world and some server scripts *)
Definition fresh_session : Auth.CloudSession :=
  Auth.new_CloudSession (js "sk-ant-test-key") None.

Definition start : Auth.World :=
  {| Auth.clock := 1000; Auth.requests := 0; Auth.trace := [] |}.

Definition too_many : Auth.FetchOutcome jsstring := Auth.Response 429 None.
Definition success : Auth.FetchOutcome jsstring :=
  Auth.Response 200 (Some (js "payload")).
Definition unauthorized : Auth.FetchOutcome jsstring := Auth.Response 401 None.

Definition limited_twice : Auth.Server jsstring :=
  ClientRuns.scripted [too_many; too_many; success].

Definition limited_thrice : Auth.Server jsstring :=
  ClientRuns.scripted [too_many; too_many; too_many; success].

Definition expired_key : Auth.Server jsstring :=
  ClientRuns.scripted [unauthorized; success; success].

Definition no_organizations : Auth.Server (list CloudOrganization) :=
  ClientRuns.scripted [Auth.Response 200 (Some [])].

Definition not_found_args : Tools.GetConversationArgs :=
  {| Tools.sessionId := js "non-existent";
     Tools.source_hint := None;
     Tools.messageTypes := None;
     Tools.gc_args_limit := None;
     Tools.gc_args_offset := None |}.

(** A cloud source whose every request is rejected, and the two
    sources of a server configured with it. *)
Definition failing_cloud : ConversationSource :=
  {| type := cloud;
     isAvailable := true;
     Sources.listProjects := Rejected (js "Error");
     Sources.listSessions := fun _ => Rejected (js "Error");
     Sources.getConversation := fun _ => Rejected (js "Error");
     Sources.search := fun _ => Rejected (js "Error") |}.

Definition local_only : list ConversationSource :=
  [ClaudeCode.ClaudeCodeSource Reference.host projects].

Definition local_and_failing_cloud : list ConversationSource :=
  [ClaudeCode.ClaudeCodeSource Reference.host projects; failing_cloud].

Definition first_page : Tools.ListSessionsArgs :=
  {| Tools.source := None; Tools.projectPath := None; Tools.projectId := None;
     Tools.startDate := None; Tools.endDate := None; Tools.timezone := None;
     Tools.limit := Some 10; Tools.offset := Some 0 |}.

(** A record whose text has sixty capital dotted I (U+0130) in front of
    the word looked for, and the project tree that holds it. *)
Definition dotted_content : jsstring := repeat 304%N 60 ++ js "abc".

Definition dotted_record : ClaudeCodeMessage :=
  {| cc_sessionId := js "session-tr";
     cc_type := js "user";
     cc_message := Some {| body_role := js "user";
                           body_content := Some (ContentString dotted_content) |};
     cc_uuid := js "msg-tr";
     cc_timestamp := TimeString (js "2025-06-30T10:00:00.000Z") |}.

Definition dotted_projects : FileSystem :=
  Some [(js "-test-project",
         ProjectDir [(js "session-tr.jsonl",
                      {| lines := Some [Parsed dotted_record];
                         mtime := 1751277600000;
                         birthtime := 1751277600000 |})])].

Definition search_for (q : string) : SearchOptions :=
  {| so_query := js q; so_projectPath := None; so_projectId := None;
     so_startDate := None; so_endDate := None; so_timezone := None;
     so_limit := Some 10 |}.

(** A claude.ai account with one organization and one conversation
    whose messages arrive newest first. *)
Definition cloud_message (uuid sender text time : string) : CloudMessage :=
  {| cm_uuid := js uuid; cm_sender := js sender; cm_text := js text;
     cm_created_at := js time; cm_content := None |}.

Definition cloud_detail : CloudConversationDetail :=
  {| cd_uuid := js "conv-1";
     cd_name := js "Planning";
     cd_created_at := js "2025-06-29T08:00:00.000Z";
     cd_updated_at := js "2025-06-29T08:05:00.000Z";
     chat_messages :=
       Some [cloud_message "c-2" "assistant" "Here is a plan."
               "2025-06-29T08:05:00.000Z";
             cloud_message "c-1" "human" "Plan my week."
               "2025-06-29T08:00:00.000Z"] |}.

Definition always {T} (payload : T) : Auth.Server T :=
  fun _ _ => {| Auth.outcome := Auth.Response 200 (Some payload); Auth.took := 5 |}.

Definition account : ClaudeApi.Api :=
  {| ClaudeApi.organizations :=
       always [{| org_uuid := js "org-1"; org_name := js "Personal" |}];
     ClaudeApi.chat_conversations :=
       always [{| cs_uuid := js "conv-1"; cs_name := js "Planning";
                  cs_created_at := js "2025-06-29T08:00:00.000Z";
                  cs_updated_at := js "2025-06-29T08:05:00.000Z" |}];
     ClaudeApi.chat_conversation := always cloud_detail |}.

Definition no_project_filter : Tools.ListProjectsArgs :=
  {| Tools.lp_source := None |}.

Definition search_args (q : string) : Tools.SearchConversationsArgs :=
  {| Tools.sc_query := js q; Tools.sc_source := None;
     Tools.sc_projectPath := None; Tools.sc_projectId := None;
     Tools.sc_startDate := None; Tools.sc_endDate := None;
     Tools.sc_timezone := None; Tools.sc_limit := None |}.

End Examples.

(* ===================================================================== *)
(** * Relative times ([src/utils/date.ts], [getTimeAgo]) *)
(* ===================================================================== *)

Module TimeAgo.

(** [`${n}`] for a number: decimal digits, or [NaN]. *)
Definition number_string (n : jsnum) : jsstring :=
  match n with
  | Some z => js (DecimalString.NilZero.string_of_int (Z.to_int z))
  | None => js "NaN"
  end.

(** [Math.floor(a / b)] for a positive integer [b] *)
Definition floor_div (a : jsnum) (b : Z) : jsnum :=
  match a with
  | Some x => Some (x / b)
  | None => NaN
  end.

(** [a < b] on numbers: false when [a] is [NaN] *)
Definition num_ltb (a : jsnum) (b : Z) : bool :=
  match a with
  | Some x => x <? b
  | None => false
  end.

(** [getTimeAgo(date)]; [now] is the time value of [new Date()]. *)
Definition getTimeAgo (now : Z) (date : Date) : jsstring :=
  let diffMs := num_lift2 Z.sub (Some now) (getTime date) in
  let diffMins := floor_div diffMs (1000 * 60) in
  let diffHours := floor_div diffMs (1000 * 60 * 60) in
  let diffDays := floor_div diffMs (1000 * 60 * 60 * 24) in
  if num_ltb diffMins 1 then js "just now"
  else if num_ltb diffMins 60 then number_string diffMins ++ js "m ago"
  else if num_ltb diffHours 24 then number_string diffHours ++ js "h ago"
  else if num_ltb diffDays 7 then number_string diffDays ++ js "d ago"
  else if num_ltb diffDays 30 then number_string (floor_div diffDays 7) ++ js "w ago"
  else if num_ltb diffDays 365 then number_string (floor_div diffDays 30) ++ js "mo ago"
  else number_string (floor_div diffDays 365) ++ js "y ago".

End TimeAgo.

(* ===================================================================== *)
(** * Client configuration ([src/auth/session.ts], [createCloudSession]) *)
(* ===================================================================== *)

Module AuthEnv.

(** The variables of [process.env] the client reads *)
Record Env := {
  CLAUDE_SESSION_KEY : option jsstring;
  CLAUDE_ORG_ID : option jsstring;
  CLAUDE_WEB_ENABLED : option jsstring
}.

(** [x === s] for an optional string *)
Definition is_string (x : option jsstring) (s : string) : bool :=
  match x with
  | Some v => jseqb v (js s)
  | None => false
  end.

Definition createCloudSession (env : Env) : option Auth.CloudSession :=
  let sessionKey := CLAUDE_SESSION_KEY env in
  let orgId := CLAUDE_ORG_ID env in
  let webEnabled := CLAUDE_WEB_ENABLED env in
  match truthy sessionKey with
  | None => None
  | Some key =>
      if is_string webEnabled "false" || is_string webEnabled "0" then None
      else Some (Auth.new_CloudSession key orgId)
  end.

End AuthEnv.

(* ===================================================================== *)
(** * Remote search ([src/sources/claude-api.ts], [search]) *)
(* ===================================================================== *)

Module ClaudeApiSearch.
Import Auth ClaudeApi.
Local Open Scope session_scope.

Section WithHost.
Variable H : Host.
Variable api : Api.
(** [encodeURIComponent(s)]: a URIError on a lone surrogate *)
Variable encodeURIComponent : jsstring -> result jsstring.

(** The body of the loop over the messages of one conversation *)
Definition result_of_message (query : jsstring) (conv : CloudConversationSummary)
    (msg : CloudMessage) : option SearchResult :=
  let content := extractCloudContent msg in
  if matches H content query then
    Some {| sr_source := cloud_source;
            sr_sessionId := cs_uuid conv;
            sr_messageId := cm_uuid msg;
            snippet := make_snippet H content query;
            sr_timestamp := parseDate H (cm_created_at msg) |}
  else None.

Fixpoint scan_messages (limit : Z) (query : jsstring)
    (conv : CloudConversationSummary) (msgs : list CloudMessage)
    (results : list SearchResult) : list SearchResult :=
  match msgs with
  | [] => results
  | msg :: rest =>
      if limit <=? jslength results then results
      else scan_messages limit query conv rest
             (match result_of_message query conv msg with
              | Some r => results ++ [r]
              | None => results
              end)
  end.

(** The loop over the conversations the listing returned *)
Fixpoint scan_conversations (limit : Z) (query org : jsstring)
    (normalizedStartDate normalizedEndDate : option jsstring)
    (conversations : list CloudConversationSummary)
    (results : list SearchResult) : M (list SearchResult) :=
  match conversations with
  | [] => ret results
  | conv :: rest =>
      let continue_with (r : list SearchResult) :=
        scan_conversations limit query org normalizedStartDate normalizedEndDate
          rest r in
      if limit <=? jslength results then ret results
      else if match truthy normalizedStartDate with
              | Some ns => jsltb (cs_updated_at conv) ns
              | None => false
              end then continue_with results
      else if match truthy normalizedEndDate with
              | Some ne => jsltb ne (cs_created_at conv)
              | None => false
              end then continue_with results
      else
        detail <- fetchApi (chat_conversation api)
                    (conversations_path org ++ js "/" ++ cs_uuid conv) ;;
        match detail with
        | Some d =>
            match chat_messages d with
            | Some msgs => continue_with (scan_messages limit query conv msgs results)
            | None => continue_with results
            end
        | None => continue_with results
        end
  end.

Definition search (options : SearchOptions) : M (result (list SearchResult)) :=
  let query := so_query options in
  let limit := default_to (so_limit options) 30 in
  org <- getOrgId (organizations api) ;;
  match truthy org with
  | None => ret (Ok [])
  | Some org =>
      match encodeURIComponent query with
      | Rejected err => ret (Rejected err)
      | Ok encoded =>
          conversations <- fetchApi (chat_conversations api)
                             (conversations_path org ++ js "?search=" ++ encoded) ;;
          match conversations with
          | None => ret (Ok [])
          | Some conversations =>
              let normalizedStartDate :=
                normalized H (so_startDate options) false (so_timezone options) in
              let normalizedEndDate :=
                normalized H (so_endDate options) true (so_timezone options) in
              results <- scan_conversations limit query org
                           normalizedStartDate normalizedEndDate conversations [] ;;
              ret (Ok (slice (sort by_sr_timestamp_desc results) 0 limit))
          end
      end
  end.

End WithHost.

End ClaudeApiSearch.

(* ===================================================================== *)
(** * Vocabulary of further properties *)
(* ===================================================================== *)

Module Outcomes.
Import Auth.

(** [lastError.name === 'TimeoutError' || lastError.name === 'AbortError'] *)
Definition timed_out (name : jsstring) : bool :=
  jseqb name (js "TimeoutError") || jseqb name (js "AbortError").

(** An outcome [fetchApi] answers with no result at once: a status
    that is neither a success nor 401, 403 or 429, or a timeout. *)
Definition gives_up {T} (o : FetchOutcome T) : Prop :=
  (exists status body,
      o = Response status body /\ ok status = false /\
      status <> 401 /\ status <> 403 /\ status <> 429) \/
  (exists name, o = Failure name /\ timed_out name = true).

(** An outcome [fetchApi] retries as a network error: a rejected
    [fetch] other than a timeout, or a success whose body does not
    parse. *)
Definition transient {T} (o : FetchOutcome T) : Prop :=
  (exists name, o = Failure name /\ timed_out name = false) \/
  (exists status, o = Response status None /\ ok status = true).

End Outcomes.

Module Served.
Import Auth.

(** A payload the server hands out in a successful response *)
Definition served {T} (server : Server T) (payload : T) : Prop :=
  exists n url status,
    outcome (server n url) = Response status (Some payload) /\ ok status = true.

(** What the remote search adds to its results: a matching message of
    the detail of a listed conversation that passed the date filter *)
Definition found_in (H : Host) (api : ClaudeApi.Api) (query : jsstring)
    (ns ne : option jsstring)
    (convs : list CloudConversationSummary) (r : SearchResult) : Prop :=
  exists conv d msgs msg,
    In conv convs /\
    served (ClaudeApi.chat_conversation api) d /\
    chat_messages d = Some msgs /\ In msg msgs /\
    ClaudeApiSearch.result_of_message H query conv msg = Some r /\
    (forall s, truthy ns = Some s -> jsltb (cs_updated_at conv) s = false) /\
    (forall e, truthy ne = Some e -> jsltb e (cs_created_at conv) = false).

End Served.

(* ===================================================================== *)
(** * Further sample data *)
(* ===================================================================== *)

Module Samples.

Definition server_error : Auth.Server jsstring :=
  ClientRuns.scripted [Auth.Response 500 None; Examples.success].

Definition flaky_then_fine : Auth.Server jsstring :=
  ClientRuns.scripted
    [Auth.Failure (js "TypeError"); Auth.Response 200 None; Examples.success].

Definition unreachable : Auth.Server jsstring := ClientRuns.scripted [].

Definition one_organization : Auth.Server (list CloudOrganization) :=
  Examples.always [{| org_uuid := js "org-1"; org_name := js "Personal" |}].


(** A server whose first organization has an empty uuid *)
Definition nameless_organization : Auth.Server (list CloudOrganization) :=
  Examples.always [{| org_uuid := []; org_name := js "Personal" |}].

Definition configured : AuthEnv.Env :=
  {| AuthEnv.CLAUDE_SESSION_KEY := Some (js "sk-ant-test-key");
     AuthEnv.CLAUDE_ORG_ID := Some (js "org-7");
     AuthEnv.CLAUDE_WEB_ENABLED := None |}.

End Samples.

(* ===================================================================== *)
(** * Vocabulary for the local log files *)
(* ===================================================================== *)

Module LocalVocabulary.
Import ClaudeCode.

(** [m] is a record of [file]: one of its lines parses to [m]. *)
Definition has_record (file : DirEntry) (m : ClaudeCodeMessage) : Prop :=
  exists ls, lines file = Some ls /\ In (Parsed m) ls.

(** The timestamp [t] passes the date bounds: [t < startDate] and
    [t > endDate] are both false.  For a string this is the order of
    [<] on strings, both ends included; a timestamp that is not a
    string passes by what the comparisons yield, a missing one always.
    An absent or empty bound bounds nothing. *)
Definition in_range (startDate endDate : option jsstring) (t : Timestamp) : Prop :=
  (forall s, truthy startDate = Some s -> ts_ltb t s = false) /\
  (forall e, truthy endDate = Some e -> ts_gtb t e = false).

(** The records of [file] were written while the file existed: each
    carries a timestamp string, and it sorts between the ISO strings of
    the file's creation and of its last modification. *)
Definition within_lifetime (H : Host) (file : DirEntry) : Prop :=
  forall m, has_record file m ->
    exists s,
      cc_timestamp m = TimeString s /\
      jsltb s (isoString H (birthtime file)) = false /\
      jsltb (isoString H (mtime file)) s = false.

(** The number of records in the [.jsonl] files of a directory tree *)
Definition sum (l : list Z) : Z := fold_right Z.add 0 l.

Definition file_records (f : jsstring * DirEntry) : Z :=
  let '(file, e) := f in
  if endsWith file jsonl_ext then Vocabulary.record_count e else 0.

Definition node_records (node : ProjectNode) : Z :=
  match node with
  | ProjectDir files => sum (List.map file_records files)
  | NotADirectory => 0
  end.

Definition tree_records (fs : FileSystem) : Z :=
  match fs with
  | Some projectDirs => sum (List.map (fun p => node_records (snd p)) projectDirs)
  | None => 0
  end.

(** [projectDir] is a directory of the tree. *)
Definition is_project_dir (fs : FileSystem) (projectDir : jsstring) : Prop :=
  exists projectDirs files,
    fs = Some projectDirs /\ In (projectDir, ProjectDir files) projectDirs.

(** Invariants and totals of the map [listProjects] builds *)
Definition counted (info : ProjectInfo) : Prop :=
  0 <= info_messageCount info /\ 0 <= info_lastActivity info.

Definition total (m : list (jsstring * ProjectInfo)) : Z :=
  sum (List.map (fun kv => info_messageCount (snd kv)) m).



(** Search results in non-increasing order of their timestamps *)
Definition results_newest_first (rs : list SearchResult) : Prop :=
  StronglySorted
    (fun a b => Vocabulary.date_le (sr_timestamp b) (sr_timestamp a)) rs.

End LocalVocabulary.

(* ===================================================================== *)
(** * Vocabulary for the tools *)
(* ===================================================================== *)

Module ToolVocabulary.

(** A source the tools consult: available, and of the requested type
    when one is requested. *)
Definition selected (sourceFilter : Tools.SourceFilter)
    (sources : list ConversationSource) (s : ConversationSource) : Prop :=
  In s sources /\ isAvailable s = true /\
  match sourceFilter with
  | Tools.All => True
  | Tools.Only t => type s = t
  end.

(** Projects in non-increasing order of their last activity *)
Definition projects_newest_first (ps : list Project) : Prop :=
  StronglySorted
    (fun a b => Vocabulary.date_le (lastActivity b) (lastActivity a)) ps.

End ToolVocabulary.

(* ===================================================================== *)
(** * Sample source lists *)
(* ===================================================================== *)

Module ToolSamples.

(** A cloud source that has a conversation under every id *)
Definition answering_cloud : ConversationSource :=
  {| type := cloud;
     isAvailable := true;
     Sources.listProjects := Ok [];
     Sources.listSessions := fun _ => Ok [];
     Sources.getConversation := fun opts =>
       Ok (Some (ClaudeApi.conversation_of_detail Reference.host
                   (gc_sessionId opts) Examples.cloud_detail
                   ClaudeCode.default_types 100 0));
     Sources.search := fun _ => Ok [] |}.

Definition local : ConversationSource :=
  ClaudeCode.ClaudeCodeSource Reference.host Examples.projects.

Definition by_id (id : string) : Tools.GetConversationArgs :=
  {| Tools.sessionId := js id;
     Tools.source_hint := None;
     Tools.messageTypes := None;
     Tools.gc_args_limit := None;
     Tools.gc_args_offset := None |}.

Definition second_page : Tools.ListSessionsArgs :=
  {| Tools.source := None; Tools.projectPath := None; Tools.projectId := None;
     Tools.startDate := None; Tools.endDate := None; Tools.timezone := None;
     Tools.limit := Some 1; Tools.offset := Some 1 |}.

End ToolSamples.

(* ===================================================================== *)
(** * Three statements of the design document, as they are worded *)
(* ===================================================================== *)

Module AsStated.
Import ClaudeCode Vocabulary.


Definition by_id (sessionId : jsstring) : GetConversationOptions :=
  {| gc_sessionId := sessionId; gc_messageTypes := None; gc_limit := None;
     gc_offset := None |}.



(** The sessions the listing tool returns are in non-increasing order
    of [updatedAt]. *)
Definition listing_always_newest_first : Prop :=
  forall (sources : list ConversationSource) (args : Tools.ListSessionsArgs)
         (r : Tools.ListSessionsResponse),
    Tools.listSessions sources args = Ok r ->
    newest_first (Tools.sessions r).

End AsStated.

(* ===================================================================== *)
(** * Session files with a record that has no timestamp *)
(* ===================================================================== *)

Module Undated.
Import ClaudeCode.

Definition late : ClaudeCodeMessage :=
  Examples.record "user" "late" "Second question" "2025-06-30T11:00:00.000Z".

Definition early : ClaudeCodeMessage :=
  Examples.record "user" "early" "First question" "2025-06-30T09:00:00.000Z".

(** A record as the summary lines of a session file are: no timestamp *)
Definition undated : ClaudeCodeMessage :=
  {| cc_sessionId := js "test-session-123";
     cc_type := js "user";
     cc_message := Some {| body_role := js "user";
                           body_content := Some (ContentString (js "Summary")) |};
     cc_uuid := js "undated";
     cc_timestamp := no_timestamp |}.

Definition file_of (records : list ClaudeCodeMessage) : DirEntry :=
  {| lines := Some (List.map Parsed records);
     mtime := 1751281200000;
     birthtime := 1751274000000 |}.

(** One session whose second record has no timestamp *)
Definition one_session : FileSystem :=
  Some [(js "-Users-test-my-app",
         ProjectDir [(js "mixed.jsonl", file_of [late; undated; early])])].

(** Three sessions, the second of them made of an undated record *)
Definition three_sessions : FileSystem :=
  Some [(js "-Users-test-my-app",
         ProjectDir [(js "a-old.jsonl", file_of [early]);
                     (js "b-undated.jsonl", file_of [undated]);
                     (js "c-new.jsonl", file_of [late])])].

End Undated.

(* ===================================================================== *)
(** * Two sources with interleaved sessions *)
(* ===================================================================== *)

Module Interleaved.
Import ClaudeCode.

Definition local_tree : FileSystem :=
  Some [(js "-Users-test-my-app",
         ProjectDir [(js "morning.jsonl", Undated.file_of [Undated.early]);
                     (js "noon.jsonl", Undated.file_of [Undated.late])])].

Definition cloud_session (id time : string) : Session :=
  {| sess_id := js id;
     sess_source := {| src_type := cloud |};
     projectId := Some (js "cloud_conversations");
     projectName := Some (js "Claude.ai Conversations");
     title := None;
     createdAt := Reference.parseDate (js time);
     updatedAt := Reference.parseDate (js time);
     messageCount := 0 |}.

(** A cloud source with a session between the two local ones and one
    after them *)
Definition cloud : ConversationSource :=
  {| type := cloud;
     isAvailable := true;
     Sources.listProjects := Ok [];
     Sources.listSessions := fun _ =>
       Ok [cloud_session "evening" "2025-06-30T18:00:00.000Z";
           cloud_session "mid-morning" "2025-06-30T10:00:00.000Z"];
     Sources.getConversation := fun _ => Ok None;
     Sources.search := fun _ => Ok [] |}.

Definition sources : list ConversationSource :=
  [ClaudeCodeSource Reference.host local_tree; cloud].

(** Two project directories, the record file in the second of them *)
Definition two_projects : FileSystem :=
  Some [(js "-Users-test-my-app", ProjectDir []);
        (js "-Users-test-other",
         ProjectDir [(js "evening.jsonl", Undated.file_of [Undated.late])])].

Definition second_and_third : Tools.ListSessionsArgs :=
  {| Tools.source := None; Tools.projectPath := None; Tools.projectId := None;
     Tools.startDate := None; Tools.endDate := None; Tools.timezone := None;
     Tools.limit := Some 2; Tools.offset := Some 1 |}.

End Interleaved.

(* ===================================================================== *)
(** * Facts about the JavaScript list operations *)
(* ===================================================================== *)

Section ListFacts.
Context {A : Type}.

Lemma jslength_nonneg (l : list A) : 0 <= jslength l.
Proof. unfold jslength; lia. Qed.

Lemma jslength_app (l1 l2 : list A) :
  jslength (l1 ++ l2) = jslength l1 + jslength l2.
Proof. unfold jslength; rewrite length_app; lia. Qed.

Lemma In_firstn (n : nat) (l : list A) (x : A) :
  In x (firstn n l) -> In x l.
Proof.
  intros Hin. rewrite <- (firstn_skipn n l). apply in_or_app. left. exact Hin.
Qed.

Lemma In_skipn (n : nat) (l : list A) (x : A) :
  In x (skipn n l) -> In x l.
Proof.
  intros Hin. rewrite <- (firstn_skipn n l). apply in_or_app. right. exact Hin.
Qed.

(** On non-negative indexes [slice] keeps the positions [start, stop). *)
Lemma slice_nonneg (l : list A) (start stop : Z) :
  0 <= start -> 0 <= stop ->
  slice l start stop =
  firstn (Z.to_nat (stop - start)) (skipn (Z.to_nat start) l).
Proof.
  intros Hs He. unfold slice, clamp_index, jslength.
  destruct (start <? 0) eqn:E1; [apply Z.ltb_lt in E1; lia|].
  destruct (stop <? 0) eqn:E2; [apply Z.ltb_lt in E2; lia|].
  destruct (Z.le_gt_cases start (Z.of_nat (List.length l))) as [Hle|Hgt].
  - rewrite (Z.min_l start) by lia.
    destruct (Z.le_gt_cases stop (Z.of_nat (List.length l))) as [Hle'|Hgt'].
    + rewrite (Z.min_l stop) by lia. reflexivity.
    + rewrite (Z.min_r stop) by lia.
      rewrite !firstn_all2; try reflexivity; rewrite length_skipn; lia.
  - rewrite (Z.min_r start) by lia.
    rewrite !skipn_all2 by lia. rewrite !firstn_nil. reflexivity.
Qed.

Lemma slice_nil (start stop : Z) : slice (@nil A) start stop = [].
Proof. unfold slice. rewrite skipn_nil, firstn_nil. reflexivity. Qed.

Lemma slice_incl (l : list A) (start stop : Z) (x : A) :
  In x (slice l start stop) -> In x l.
Proof.
  unfold slice. intros Hin.
  apply In_firstn in Hin. apply In_skipn in Hin. exact Hin.
Qed.

Lemma clamp_index_range (len i : Z) :
  0 <= len -> 0 <= clamp_index len i <= len.
Proof.
  unfold clamp_index. intros.
  destruct (i <? 0) eqn:E; [apply Z.ltb_lt in E | apply Z.ltb_ge in E]; lia.
Qed.

Lemma slice_length (l : list A) (start stop : Z) :
  0 <= start -> 0 <= stop ->
  jslength (slice l start stop) <= Z.max 0 (stop - start).
Proof.
  intros Hs He. rewrite slice_nonneg by assumption.
  unfold jslength. rewrite length_firstn. lia.
Qed.

Lemma StronglySorted_firstn (R : A -> A -> Prop) (n : nat) (l : list A) :
  StronglySorted R l -> StronglySorted R (firstn n l).
Proof.
  revert l. induction n as [|n IH]; intros l Hl; simpl.
  - constructor.
  - destruct l as [|x l]; [constructor|].
    inversion Hl as [|? ? Hs Hall]; subst. constructor.
    + apply IH; assumption.
    + rewrite Forall_forall in *. intros y Hy. apply Hall.
      eapply In_firstn; eassumption.
Qed.

Lemma StronglySorted_skipn (R : A -> A -> Prop) (n : nat) (l : list A) :
  StronglySorted R l -> StronglySorted R (skipn n l).
Proof.
  revert l. induction n as [|n IH]; intros l Hl; simpl.
  - assumption.
  - destruct l as [|x l]; [constructor|].
    inversion Hl; subst. apply IH; assumption.
Qed.

Lemma StronglySorted_slice (R : A -> A -> Prop) (l : list A) (start stop : Z) :
  StronglySorted R l -> StronglySorted R (slice l start stop).
Proof.
  intros Hl. unfold slice.
  apply StronglySorted_firstn, StronglySorted_skipn, Hl.
Qed.

(** [sort] rearranges its argument. *)
Lemma sort_insert_perm (cmp : A -> A -> Z) (x : A) (l : list A) :
  Permutation (sort_insert cmp x l) (x :: l).
Proof.
  induction l as [|y l IH]; simpl.
  - apply Permutation_refl.
  - destruct (cmp x y <=? 0).
    + apply Permutation_refl.
    + eapply Permutation_trans; [apply perm_skip, IH | apply perm_swap].
Qed.

Lemma sort_perm (cmp : A -> A -> Z) (l : list A) :
  Permutation (sort cmp l) l.
Proof.
  induction l as [|x l IH]; simpl.
  - constructor.
  - eapply Permutation_trans; [apply sort_insert_perm | apply perm_skip, IH].
Qed.

Lemma sort_length (cmp : A -> A -> Z) (l : list A) :
  jslength (sort cmp l) = jslength l.
Proof.
  unfold jslength. f_equal. apply Permutation_length, sort_perm.
Qed.

Lemma sort_In (cmp : A -> A -> Z) (l : list A) (x : A) :
  In x (sort cmp l) <-> In x l.
Proof.
  split; apply Permutation_in; [|apply Permutation_sym]; apply sort_perm.
Qed.

(** When the comparator decides a transitive relation [R] on the
    elements at hand, [sort] puts them in [R]-order. *)
Section Ordered.
Variable cmp : A -> A -> Z.
Variable R : A -> A -> Prop.
Variable P : A -> Prop.
Hypothesis cmp_decides :
  forall x y, P x -> P y -> if cmp x y <=? 0 then R x y else R y x.
Hypothesis R_trans : forall x y z, R x y -> R y z -> R x z.

Lemma sort_insert_Sorted (x : A) (l : list A) :
  P x -> Forall P l -> Sorted R l -> Sorted R (sort_insert cmp x l).
Proof.
  intros Px. induction l as [|y l IH]; intros HP Hs; simpl.
  - repeat constructor.
  - inversion HP as [|? ? Py HPl]; subst.
    pose proof (cmp_decides x y Px Py) as Hd.
    destruct (cmp x y <=? 0).
    + constructor; [assumption | constructor; assumption].
    + inversion Hs as [|? ? Hs' Hhd]; subst.
      constructor; [apply IH; assumption|].
      destruct l as [|z l]; simpl.
      * constructor; assumption.
      * destruct (cmp x z <=? 0); constructor; try assumption.
        inversion Hhd; assumption.
Qed.

Lemma sort_Sorted (l : list A) :
  Forall P l -> Sorted R (sort cmp l).
Proof.
  induction l as [|x l IH]; intros HP; simpl.
  - constructor.
  - inversion HP; subst. apply sort_insert_Sorted; auto.
    rewrite Forall_forall in *. intros y Hy. apply sort_In in Hy. auto.
Qed.

Lemma sort_StronglySorted (l : list A) :
  Forall P l -> StronglySorted R (sort cmp l).
Proof.
  intros HP. apply Sorted_StronglySorted.
  - intros x y z. apply R_trans.
  - apply sort_Sorted, HP.
Qed.

End Ordered.

End ListFacts.

(* ===================================================================== *)
(** * Strings *)
(* ===================================================================== *)

Lemma jseqb_eq (a b : jsstring) : jseqb a b = true <-> a = b.
Proof.
  unfold jseqb. destruct (list_eq_dec N.eq_dec a b); split; congruence.
Qed.

Lemma jseqb_neq (a b : jsstring) : jseqb a b = false <-> a <> b.
Proof.
  unfold jseqb. destruct (list_eq_dec N.eq_dec a b); split; congruence.
Qed.

Lemma jseqb_refl (a : jsstring) : jseqb a a = true.
Proof. apply jseqb_eq. reflexivity. Qed.

(* ===================================================================== *)
(** * Local source: project path decoding *)
(* ===================================================================== *)

Module CodePaths.
Import ClaudeCode.

Lemma decodeProjectPath_no_hyphen (projectDir : jsstring) :
  ~ In 45%N (decodeProjectPath projectDir).
Proof.
  unfold decodeProjectPath.
  set (slashed := List.map (fun c => if N.eqb c 45%N then 47%N else c) projectDir).
  assert (Hs : ~ In 45%N slashed).
  { unfold slashed. intros Hin. apply in_map_iff in Hin.
    destruct Hin as [c [Hc _]].
    destruct (N.eqb c 45) eqn:E.
    - discriminate.
    - apply N.eqb_neq in E. congruence. }
  destruct slashed as [|c r]; [intros []|].
  destruct (N.eqb c 47); [|exact Hs].
  intros Hin. apply Hs. right. exact Hin.
Qed.

Lemma hyphenated_filter_skips (original : jsstring)
    (normalizedStartDate normalizedEndDate : option jsstring) (H : Host)
    (p : jsstring * ProjectNode) :
  In 45%N original ->
  sessions_of_project H (Some original) normalizedStartDate normalizedEndDate p = [].
Proof.
  intros Hin. destruct p as [projectDir node].
  unfold sessions_of_project.
  destruct original as [|c r]; [destruct Hin|]. cbn [truthy].
  assert (Hne : jseqb (decodeProjectPath projectDir) (c :: r) = false).
  { apply jseqb_neq. intros Heq.
    apply (decodeProjectPath_no_hyphen projectDir). rewrite Heq. exact Hin. }
  rewrite Hne. reflexivity.
Qed.

(** C10. A decoded project path never contains a hyphen, so a
    [projectPath] filter that does contain one (the original path of a
    project with a hyphen in a segment) makes [listSessions] skip every
    project directory. *)
Theorem hyphenated_project_path_matches_nothing :
  (forall projectDir : jsstring, ~ In 45%N (decodeProjectPath projectDir)) /\
  (forall (H : Host) (fs : FileSystem) (options : ListSessionsOptions)
          (original : jsstring),
      ls_projectPath options = Some original ->
      In 45%N original ->
      listSessions H fs options = []).
Proof.
  split; [exact decodeProjectPath_no_hyphen|].
  intros H fs options original Hpath Hin.
  unfold listSessions, collected_sessions. rewrite Hpath.
  destruct fs as [projectDirs|]; [|apply slice_nil].
  assert (Hnone : forall ns ne,
             flat_map (sessions_of_project H (Some original) ns ne) projectDirs = []).
  { intros ns ne. induction projectDirs as [|p ps IH]; [reflexivity|].
    simpl. rewrite hyphenated_filter_skips by exact Hin. exact IH. }
  rewrite Hnone. apply slice_nil.
Qed.

Example decode_sample :
  decodeProjectPath (js "-Users-test-my-app") = js "Users/test/my/app".
Proof. reflexivity. Qed.

Example unfiltered_listing_finds_the_session :
  List.map sess_id (listSessions Reference.host Examples.projects Examples.no_options)
  = [js "test-session-123"].
Proof. vm_compute. reflexivity. Qed.

Lemma hyphenated_project_path_matches_nothing_witness :
  listSessions Reference.host Examples.projects
    (Examples.by_path "Users/test/my-app") = [].
Proof.
  apply (proj2 hyphenated_project_path_matches_nothing
           Reference.host Examples.projects
           (Examples.by_path "Users/test/my-app") (js "Users/test/my-app")).
  - reflexivity.
  - vm_compute. repeat (first [left; reflexivity | right]).
Defined.

End CodePaths.

(* ===================================================================== *)
(** * Local source: message counts *)
(* ===================================================================== *)

Module CodeCounts.
Import ClaudeCode Vocabulary.

Lemma filter_map_length_filter {A B} (f : A -> option B) (p : A -> bool)
    (l : list A) :
  (forall x, p x = match f x with Some _ => true | None => false end) ->
  List.length (filter_map f l) = List.length (List.filter p l).
Proof.
  intros Hp. induction l as [|x l IH]; simpl; [reflexivity|].
  rewrite Hp. destruct (f x); simpl; rewrite IH; reflexivity.
Qed.

Lemma parseJsonlFile_count (e : DirEntry) :
  jslength (parseJsonlFile e None None) = record_count e.
Proof.
  unfold parseJsonlFile, record_count, jslength.
  destruct (lines e) as [ls|]; simpl; [|reflexivity].
  f_equal. apply filter_map_length_filter.
  intros [| |m]; reflexivity.
Qed.

Lemma pushed_until_throw_In {A} (steps : list (result (option A))) (a : A) :
  In a (pushed_until_throw steps) -> In (Ok (Some a)) steps.
Proof.
  induction steps as [|[[b|]|err] r IH]; simpl; intros Hin.
  - destruct Hin.
  - destruct Hin as [->|Hin]; [left; reflexivity | right; auto].
  - right; auto.
  - destruct Hin.
Qed.

Lemma session_of_file_pushed (H : Host) (decodedPath file : jsstring)
    (e : DirEntry) (ns ne : option jsstring) (s : Session) :
  session_of_file H decodedPath file e ns ne = Ok (Some s) ->
  sess_id s = remove_first file jsonl_ext /\
  projectName s = Some decodedPath /\
  messageCount s = jslength (parseJsonlFile e None None).
Proof.
  unfold session_of_file.
  destruct (negb (endsWith file jsonl_ext)); [discriminate|].
  destruct (parseJsonlFile e None None) as [|m ms] eqn:Hentries; [discriminate|].
  destruct (negb (spreadFits H (jslength (m :: ms)))); [discriminate|].
  assert (Hpush : forall r : Session,
             sess_id r = remove_first file jsonl_ext /\
             projectName r = Some decodedPath /\
             messageCount r = jslength (m :: ms) ->
             Ok (Some r) = Ok (Some s) ->
             sess_id s = remove_first file jsonl_ext /\
             projectName s = Some decodedPath /\
             messageCount s = jslength (m :: ms)).
  { intros r Hr Heq. injection Heq as <-. exact Hr. }
  destruct (truthy ns).
  - destruct (toISOString H _); [|discriminate].
    destruct (jsltb _ _); [discriminate|].
    destruct (truthy ne).
    + destruct (toISOString H _); [|discriminate].
      destruct (jsltb _ _); [discriminate|].
      apply Hpush. simpl. auto.
    + apply Hpush. simpl. auto.
  - destruct (truthy ne).
    + destruct (toISOString H _); [|discriminate].
      destruct (jsltb _ _); [discriminate|].
      apply Hpush. simpl. auto.
    + apply Hpush. simpl. auto.
Qed.


Lemma lookup_entry_In (name : jsstring) (files : list (jsstring * DirEntry))
    (e : DirEntry) :
  lookup_entry name files = Some e -> In (name, e) files.
Proof.
  induction files as [|[n e'] r IH]; simpl; [discriminate|].
  destruct (jseqb n name) eqn:E.
  - apply jseqb_eq in E. intros Heq. injection Heq as <-. left. congruence.
  - intros Hr. right. auto.
Qed.

(** ** Where a session id leads *)

Lemma split_on_plain (sep : codeunit) (s : jsstring) :
  ~ In sep s -> split_on sep s = [s].
Proof.
  induction s as [|c r IH]; intros Hnot; [reflexivity|].
  cbn [split_on].
  destruct (N.eqb c sep) eqn:E.
  - apply N.eqb_eq in E. exfalso. apply Hnot. left. exact E.
  - rewrite IH; [reflexivity|]. intros Hin. apply Hnot. right. exact Hin.
Qed.

Lemma record_name_is_a_name (sessionId : jsstring) :
  jseqb (sessionId ++ jsonl_ext) [] = false /\
  jseqb (sessionId ++ jsonl_ext) (js ".") = false /\
  jseqb (sessionId ++ jsonl_ext) (js "..") = false.
Proof.
  repeat split; apply jseqb_neq; intros Heq;
    apply (f_equal (@List.length codeunit)) in Heq;
    rewrite length_app in Heq; simpl in Heq; lia.
Qed.

(** A session id without separator is looked up among the entries of
    the project directory at hand. *)
Lemma access_plain (H : Host) (projectDirs : list (jsstring * ProjectNode))
    (projectDir : jsstring) (node : ProjectNode) (sessionId : jsstring) :
  plain sessionId ->
  access H projectDirs projectDir node sessionId =
  match node with
  | ProjectDir files => lookup_entry (sessionId ++ jsonl_ext) files
  | NotADirectory => None
  end.
Proof.
  intros Hplain. unfold access, join_below.
  rewrite split_on_plain.
  - cbn [walk].
    destruct (record_name_is_a_name sessionId) as (-> & -> & ->).
    cbn [orb]. rewrite jseqb_refl. reflexivity.
  - intros Hin. apply in_app_or in Hin. destruct Hin as [Hin|Hin].
    + exact (Hplain Hin).
    + vm_compute in Hin. intuition discriminate.
Qed.



(** What [getConversation] builds from a file it can read *)
Lemma conversation_of_file_Ok (H : Host) (sessionId projectDir : jsstring)
    (e : DirEntry) (allowedTypes : list jsstring) (limit offset : Z)
    (conv : Conversation) :
  conversation_of_file H sessionId projectDir e allowedTypes limit offset = Ok conv ->
  let all :=
    sort by_timestamp_asc
      (List.map (to_message H)
         (List.filter (type_allowed allowedTypes) (parseJsonlFile e None None))) in
  spreadFits H (record_count e) = true /\
  conv_id conv = sessionId /\
  conv_source conv = code_source /\
  sess_id (session conv) = sessionId /\
  projectName (session conv) = Some (decodeProjectPath projectDir) /\
  messageCount (session conv) = jslength all /\
  messages conv = slice all offset (offset + limit).
Proof.
  unfold conversation_of_file. rewrite parseJsonlFile_count.
  destruct (spreadFits H (record_count e)); cbn [negb]; [|discriminate].
  intros Heq. injection Heq as <-. cbv zeta. simpl. auto 10.
Qed.



Lemma first_conversation_found (H : Host)
    (all projectDirs : list (jsstring * ProjectNode))
    (sessionId : jsstring) (allowedTypes : list jsstring) (limit offset : Z)
    (conv : Conversation) :
  first_conversation H all projectDirs sessionId allowedTypes limit offset
  = Some conv ->
  exists projectDir node e,
    In (projectDir, node) projectDirs /\
    access H all projectDir node sessionId = Some e /\
    conversation_of_file H sessionId projectDir e allowedTypes limit offset
    = Ok conv.
Proof.
  induction projectDirs as [|[projectDir node] r IH]; simpl; [discriminate|].
  destruct (access H all projectDir node sessionId) as [e|] eqn:Hacc.
  - destruct (conversation_of_file H sessionId projectDir e allowedTypes
                limit offset) as [c|err] eqn:Hconv; [|discriminate].
    intros Heq. injection Heq as <-.
    exists projectDir, node, e. auto.
  - intros Hr. destruct (IH Hr) as (pd & nd & e & Hin & Hl & Hc).
    exists pd, nd, e. auto.
Qed.




(** ** Both operations on one session file *)

Lemma isPrefix_app (p q : jsstring) : isPrefix p (p ++ q) = true.
Proof.
  induction p as [|a p IH]; simpl; [reflexivity|].
  rewrite N.eqb_refl, IH. reflexivity.
Qed.









(** ** A file too large for one call *)

Lemma oversized_file_is_not_listed (H : Host) (projectDir file : jsstring)
    (e : DirEntry) (options : ListSessionsOptions) :
  spreadFits H (record_count e) = false ->
  listSessions H (Some [(projectDir, ProjectDir [(file, e)])]) options = [].
Proof.
  intros Hfit.
  assert (Hcollected :
            collected_sessions H (Some [(projectDir, ProjectDir [(file, e)])])
              options = []).
  { unfold collected_sessions. cbn [flat_map]. rewrite app_nil_r.
    unfold sessions_of_project.
    destruct (match truthy (ls_projectPath options) with
              | Some pp => negb (jseqb (decodeProjectPath projectDir) pp)
              | None => false
              end); [reflexivity|].
    cbn [List.map]. unfold session_of_file.
    destruct (negb (endsWith file jsonl_ext)); [reflexivity|].
    pose proof (parseJsonlFile_count e) as Hcount.
    destruct (parseJsonlFile e None None); [reflexivity|].
    rewrite Hcount, Hfit. reflexivity. }
  unfold listSessions. rewrite Hcollected. apply slice_nil.
Qed.




Example sample_counts :
  List.map messageCount
    (listSessions Reference.host Examples.projects Examples.no_options) = [3] /\
  option_map (fun c => messageCount (session c))
    (getConversation Reference.host Examples.projects
       (Examples.conversation "test-session-123")) = Some 2.
Proof. vm_compute. split; reflexivity. Qed.




End CodeCounts.

(* ===================================================================== *)
(** * Remote client: retries, backoff and availability *)
(* ===================================================================== *)

Module ClientFacts.
Import Auth ClientRuns.

(** One iteration of the retry loop, spelled out on the state. *)
Lemma attempts_step {T} (server : Server T) (url : jsstring) (left' : nat)
    (attempt : Z) (s : CloudSession) (w : World) :
  attempts server url (S left') attempt (s, w) =
  let x := server (requests w) url in
  let s1 := with_lastRequestTime s (clock w) in
  let w1 := after_fetch x url w in
  let retry (w2 : World) := attempts server url left' (attempt + 1) (s1, w2) in
  let caught (name : jsstring) :=
    if jseqb name (js "TimeoutError") || jseqb name (js "AbortError")
    then (None, (s1, w1))
    else if attempt <? 2 then retry (after_sleep (backoff attempt) w1)
         else retry w1 in
  match outcome x with
  | Response status body =>
      if (status =? 401) || (status =? 403) then (None, (demoted s1, w1))
      else if status =? 429 then retry (after_sleep (backoff attempt) w1)
      else if negb (ok status) then (None, (s1, w1))
      else match body with
           | Some payload => (Some payload, (s1, w1))
           | None => caught (js "SyntaxError")
           end
  | Failure name => caught name
  end.
Proof.
  cbn [attempts]. unfold bind, now, set_lastRequestTime, update, fetch. cbn [snd].
  destruct (outcome (server (requests w) url)) as [status body|name].
  - destruct ((status =? 401) || (status =? 403)); [reflexivity|].
    destruct (status =? 429); [reflexivity|].
    destruct (negb (ok status)); [reflexivity|].
    destruct body; [reflexivity|].
    cbn. destruct (attempt <? 2); reflexivity.
  - destruct (jseqb name (js "TimeoutError") || jseqb name (js "AbortError"));
      [reflexivity|].
    destruct (attempt <? 2); reflexivity.
Qed.

Lemma fetchApi_unfold {T} (server : Server T) (path : jsstring)
    (s : CloudSession) (w : World) :
  fetchApi server path (s, w) =
  if negb (available s) then (None, (s, w))
  else attempts server (CLAUDE_API_BASE ++ path) 3 0
         (s, if clock w - lastRequestTime s <? REQUEST_DELAY_MS
             then after_sleep (REQUEST_DELAY_MS - (clock w - lastRequestTime s)) w
             else w).
Proof.
  unfold fetchApi, bind, this, now. cbv beta iota. cbn [fst snd].
  destruct (negb (available s)); [reflexivity|].
  cbv beta iota. cbn [fst snd].
  destruct (clock w - lastRequestTime s <? REQUEST_DELAY_MS);
    unfold sleep, ret; reflexivity.
Qed.

(** The flag is never set back: a call that ends available started
    available. *)
Lemma attempts_available {T} (server : Server T) (url : jsstring) (left : nat) :
  forall attempt s w,
    available (fst (snd (attempts server url left attempt (s, w)))) = true ->
    available s = true.
Proof.
  induction left as [|left' IH]; intros attempt s w.
  - simpl. auto.
  - rewrite attempts_step. cbv zeta.
    destruct (outcome (server (requests w) url)) as [status body|name].
    + destruct ((status =? 401) || (status =? 403)); [simpl; discriminate|].
      destruct (status =? 429); [intros Hav; apply IH in Hav; exact Hav|].
      destruct (negb (ok status)); [simpl; auto|].
      destruct body; [simpl; auto|].
      cbn [jseqb orb]. 
      destruct (jseqb (js "SyntaxError") (js "TimeoutError") ||
                jseqb (js "SyntaxError") (js "AbortError")); [simpl; auto|].
      destruct (attempt <? 2); intros Hav; apply IH in Hav; exact Hav.
    + destruct (jseqb name (js "TimeoutError") || jseqb name (js "AbortError"));
        [simpl; auto|].
      destruct (attempt <? 2); intros Hav; apply IH in Hav; exact Hav.
Qed.

(** A payload comes from a successful response of the server. *)
Lemma attempts_payload {T} (server : Server T) (url : jsstring) (left : nat) :
  forall attempt s w payload st',
    attempts server url left attempt (s, w) = (Some payload, st') ->
    exists n status,
      outcome (server n url) = Response status (Some payload) /\
      ok status = true.
Proof.
  induction left as [|left' IH]; intros attempt s w payload st'.
  - simpl. unfold ret. discriminate.
  - rewrite attempts_step. cbv zeta.
    destruct (outcome (server (requests w) url)) as [status body|name] eqn:Hout.
    + destruct ((status =? 401) || (status =? 403)); [discriminate|].
      destruct (status =? 429); [apply IH|].
      destruct (negb (ok status)) eqn:Hok; [discriminate|].
      destruct body as [p|].
      * intros Heq. injection Heq as <- _.
        exists (requests w), status. split; [exact Hout|].
        apply negb_false_iff. exact Hok.
      * destruct (jseqb (js "SyntaxError") (js "TimeoutError") ||
                  jseqb (js "SyntaxError") (js "AbortError")); [discriminate|].
        destruct (attempt <? 2); apply IH.
    + destruct (jseqb name (js "TimeoutError") || jseqb name (js "AbortError"));
        [discriminate|].
      destruct (attempt <? 2); apply IH.
Qed.

Lemma fetchApi_payload {T} (server : Server T) (path : jsstring)
    (st st' : St) (payload : T) :
  fetchApi server path st = (Some payload, st') ->
  exists n status,
    outcome (server n (CLAUDE_API_BASE ++ path)) = Response status (Some payload) /\
    ok status = true.
Proof.
  destruct st as [s w]. rewrite fetchApi_unfold.
  destruct (negb (available s)); [discriminate|].
  apply attempts_payload.
Qed.

Lemma fetchApi_unavailable {T} (server : Server T) (path : jsstring)
    (s : CloudSession) (w : World) :
  available s = false -> fetchApi server path (s, w) = (None, (s, w)).
Proof. intros Hav. rewrite fetchApi_unfold, Hav. reflexivity. Qed.

Lemma status_auth (status : Z) :
  (status =? 401) || (status =? 403) = true <-> status = 401 \/ status = 403.
Proof.
  rewrite orb_true_iff, !Z.eqb_eq. reflexivity.
Qed.

Lemma not_auth_failure {T} (status : Z) (body : option T) :
  (status =? 401) || (status =? 403) = false ->
  ~ auth_failure (Response status body).
Proof.
  intros Hs (st & b & Heq & Hor). injection Heq as <- _.
  apply status_auth in Hor. congruence.
Qed.

Lemma failure_not_auth_failure {T} (name : jsstring) :
  ~ auth_failure (@Failure T name).
Proof. intros (st & b & Heq & _). discriminate. Qed.

Lemma attempts_requests_mono {T} (server : Server T) (url : jsstring) (left : nat) :
  forall attempt s w,
    (requests w <= requests (snd (snd (attempts server url left attempt (s, w)))))%nat.
Proof.
  induction left as [|left' IH]; intros attempt s w.
  - simpl. lia.
  - rewrite attempts_step. cbv zeta.
    assert (Hretry : forall s2 w2, (S (requests w) <= requests w2)%nat ->
              (requests w <= requests (snd (snd
                 (attempts server url left' (attempt + 1) (s2, w2)))))%nat).
    { intros s2 w2 Hle. specialize (IH (attempt + 1) s2 w2). lia. }
    destruct (outcome (server (requests w) url)) as [status body|name].
    + destruct ((status =? 401) || (status =? 403)); [simpl; lia|].
      destruct (status =? 429); [apply Hretry; simpl; lia|].
      destruct (negb (ok status)); [simpl; lia|].
      destruct body; [simpl; lia|].
      destruct (jseqb (js "SyntaxError") (js "TimeoutError") ||
                jseqb (js "SyntaxError") (js "AbortError")); [simpl; lia|].
      destruct (attempt <? 2); apply Hretry; simpl; lia.
    + destruct (jseqb name (js "TimeoutError") || jseqb name (js "AbortError"));
        [simpl; lia|].
      destruct (attempt <? 2); apply Hretry; simpl; lia.
Qed.

(** The retry loop demotes the client exactly when its last request was
    answered with a 401 or a 403. *)
Lemma attempts_demotion {T} (server : Server T) (url : jsstring) (left : nat) :
  forall attempt s w,
    available s = true ->
    let res := attempts server url left attempt (s, w) in
    available (fst (snd res)) = false <->
    ((requests w < requests (snd (snd res)))%nat /\
     auth_failure (outcome (server (pred (requests (snd (snd res)))) url))).
Proof.
  induction left as [|left' IH]; intros attempt s w Hav; cbv zeta.
  - simpl. rewrite Hav. split; [discriminate | intros [Hlt _]; lia].
  - rewrite attempts_step. cbv zeta.
    set (x := server (requests w) url).
    set (s1 := with_lastRequestTime s (clock w)).
    set (w1 := after_fetch x url w).
    assert (Hav1 : available s1 = true) by exact Hav.
    assert (Hstay : ~ auth_failure (outcome x) ->
              available (fst (snd (@None T, (s1, w1)))) = false <->
              ((requests w < requests (snd (snd (@None T, (s1, w1)))))%nat /\
               auth_failure
                 (outcome (server (pred (requests (snd (snd (@None T, (s1, w1))))))
                             url)))).
    { intros Hna. simpl. fold x. rewrite Hav.
      split; [discriminate | intros [_ Hf]; contradiction]. }
    assert (Hretry : forall w2, requests w2 = S (requests w) ->
              ~ auth_failure (outcome x) ->
              let res := attempts server url left' (attempt + 1) (s1, w2) in
              available (fst (snd res)) = false <->
              ((requests w < requests (snd (snd res)))%nat /\
               auth_failure (outcome (server (pred (requests (snd (snd res)))) url)))).
    { intros w2 Hw2 Hna. cbv zeta.
      pose proof (IH (attempt + 1) s1 w2 Hav1) as Hiff. cbv zeta in Hiff.
      pose proof (attempts_requests_mono server url left' (attempt + 1) s1 w2) as Hm.
      rewrite Hiff. split.
      - intros [Hlt Hf]. split; [lia | exact Hf].
      - intros [Hlt Hf]. split; [|exact Hf].
        destruct (Nat.eq_dec
                    (requests (snd (snd (attempts server url left' (attempt + 1)
                                           (s1, w2)))))
                    (S (requests w))) as [Heq|Hne]; [|lia].
        rewrite Heq in Hf. simpl in Hf. contradiction. }
    destruct (outcome x) as [status body|name] eqn:Hout.
    + destruct ((status =? 401) || (status =? 403)) eqn:Hauth.
      * simpl. fold x. split; [intros _|reflexivity].
        split; [lia|]. exists status, body. split; [exact Hout|].
        apply status_auth. exact Hauth.
      * pose proof (not_auth_failure status body Hauth) as Hna.
        destruct (status =? 429); [apply Hretry; [reflexivity|exact Hna]|].
        destruct (negb (ok status)); [apply Hstay; exact Hna|].
        destruct body as [payload|].
        -- simpl. fold x. rewrite Hav, Hout.
           split; [discriminate | intros [_ Hf]; contradiction].
        -- destruct (jseqb (js "SyntaxError") (js "TimeoutError") ||
                     jseqb (js "SyntaxError") (js "AbortError"));
             [apply Hstay; exact Hna|].
           destruct (attempt <? 2); apply Hretry; try reflexivity; exact Hna.
    + pose proof (@failure_not_auth_failure T name) as Hna.
      destruct (jseqb name (js "TimeoutError") || jseqb name (js "AbortError"));
        [apply Hstay; exact Hna|].
      destruct (attempt <? 2); apply Hretry; try reflexivity; exact Hna.
Qed.

Lemma fetchApi_demotion {T} (server : Server T) (path : jsstring)
    (s : CloudSession) (w : World) :
  available s = true ->
  let res := fetchApi server path (s, w) in
  available (fst (snd res)) = false <->
  ((requests w < requests (snd (snd res)))%nat /\
   auth_failure
     (outcome (server (pred (requests (snd (snd res)))) (CLAUDE_API_BASE ++ path)))).
Proof.
  intros Hav. cbv zeta. rewrite fetchApi_unfold, Hav. cbn [negb].
  destruct (clock w - lastRequestTime s <? REQUEST_DELAY_MS).
  - apply (attempts_demotion server (CLAUDE_API_BASE ++ path) 3 0 s
             (after_sleep (REQUEST_DELAY_MS - (clock w - lastRequestTime s)) w) Hav).
  - apply (attempts_demotion server (CLAUDE_API_BASE ++ path) 3 0 s w Hav).
Qed.

(** A 401 or 403 at any attempt ends the call at once, demoted. *)
Lemma attempts_auth_failure {T} (server : Server T) (url : jsstring) (left' : nat)
    (attempt : Z) (s : CloudSession) (w : World) :
  auth_failure (outcome (server (requests w) url)) ->
  attempts server url (S left') attempt (s, w) =
  (None, (demoted (with_lastRequestTime s (clock w)),
          after_fetch (server (requests w) url) url w)).
Proof.
  intros (status & body & Hout & Hor). rewrite attempts_step. cbv zeta.
  rewrite Hout. apply status_auth in Hor. rewrite Hor. reflexivity.
Qed.

Lemma getOrgId_unfold (organizations : Server (list CloudOrganization))
    (s : CloudSession) (w : World) :
  getOrgId organizations (s, w) =
  match truthy (orgId s) with
  | Some o => (Some o, (s, w))
  | None =>
      let res := fetchApi organizations (js "/api/organizations") (s, w) in
      match fst res with
      | Some (firstOrg :: _) =>
          (Some (org_uuid firstOrg),
           ({| sessionKey := sessionKey (fst (snd res));
               orgId := Some (org_uuid firstOrg);
               available := available (fst (snd res));
               lastRequestTime := lastRequestTime (fst (snd res)) |},
            snd (snd res)))
      | _ => (None, (demoted (fst (snd res)), snd (snd res)))
      end
  end.
Proof.
  unfold getOrgId, bind, this. cbv beta iota. cbn [fst snd].
  destruct (truthy (orgId s)); [reflexivity|].
  cbv zeta.
  destruct (fetchApi organizations (js "/api/organizations") (s, w))
    as [orgs [s1 w1]].
  cbn [fst snd]. destruct orgs as [[|firstOrg rest]|]; reflexivity.
Qed.

(** A call that returns a payload leaves the flag as it was. *)
Lemma attempts_payload_available {T} (server : Server T) (url : jsstring)
    (left : nat) :
  forall attempt s w payload s' w',
    attempts server url left attempt (s, w) = (Some payload, (s', w')) ->
    available s' = available s.
Proof.
  induction left as [|left' IH]; intros attempt s w payload s' w'.
  - simpl. unfold ret. discriminate.
  - rewrite attempts_step. cbv zeta.
    assert (Hretry : forall w2,
              attempts server url left' (attempt + 1)
                (with_lastRequestTime s (clock w), w2) = (Some payload, (s', w')) ->
              available s' = available s).
    { intros w2 Hr. apply IH in Hr. exact Hr. }
    destruct (outcome (server (requests w) url)) as [status body|name].
    + destruct ((status =? 401) || (status =? 403)); [discriminate|].
      destruct (status =? 429); [apply Hretry|].
      destruct (negb (ok status)); [discriminate|].
      destruct body as [p|].
      * intros Heq. injection Heq as _ <- _. reflexivity.
      * destruct (jseqb (js "SyntaxError") (js "TimeoutError") ||
                  jseqb (js "SyntaxError") (js "AbortError")); [discriminate|].
        destruct (attempt <? 2); apply Hretry.
    + destruct (jseqb name (js "TimeoutError") || jseqb name (js "AbortError"));
        [discriminate|].
      destruct (attempt <? 2); apply Hretry.
Qed.

Lemma fetchApi_payload_available {T} (server : Server T) (path : jsstring)
    (s s' : CloudSession) (w w' : World) (payload : T) :
  fetchApi server path (s, w) = (Some payload, (s', w')) ->
  available s' = available s.
Proof.
  rewrite fetchApi_unfold.
  destruct (negb (available s)); [discriminate|].
  apply attempts_payload_available.
Qed.

(** Organization discovery demotes the client exactly when it fails. *)
Lemma getOrgId_demotion (organizations : Server (list CloudOrganization))
    (s : CloudSession) (w : World) :
  available s = true ->
  let res := getOrgId organizations (s, w) in
  available (fst (snd res)) = false <-> fst res = None.
Proof.
  intros Hav. cbv zeta. rewrite getOrgId_unfold.
  destruct (truthy (orgId s)) as [o|].
  - simpl. rewrite Hav. split; discriminate.
  - cbv zeta.
    destruct (fetchApi organizations (js "/api/organizations") (s, w))
      as [orgs [s' w']] eqn:Hf.
    cbn [fst snd].
    destruct orgs as [[|firstOrg rest]|]; simpl.
    + split; reflexivity.
    + apply fetchApi_payload_available in Hf. rewrite Hf, Hav.
      split; discriminate.
    + split; reflexivity.
Qed.

(** Once the flag is down no call brings it back, reaches the network
    or returns a payload. *)
Lemma call_unavailable {T} (server : Server T)
    (organizations : Server (list CloudOrganization)) (c : Call)
    (s : CloudSession) (w : World) :
  available s = false ->
  let res := call server organizations c (s, w) in
  no_result (fst res) /\ snd (snd res) = w /\ available (fst (snd res)) = false.
Proof.
  intros Hav. cbv zeta. destruct c as [path| | |]; unfold call, bind.
  - rewrite fetchApi_unavailable by exact Hav. simpl. auto.
  - rewrite getOrgId_unfold.
    destruct (truthy (orgId s)); [simpl; auto|].
    cbv zeta. rewrite fetchApi_unavailable by exact Hav. simpl. auto.
  - simpl. auto.
  - simpl. auto.
Qed.

Lemma run_cons {T} (server : Server T)
    (organizations : Server (list CloudOrganization)) (c : Call)
    (rest : list Call) (st : St) :
  run server organizations (c :: rest) st =
  (fst (call server organizations c st)
     :: fst (run server organizations rest (snd (call server organizations c st))),
   snd (run server organizations rest (snd (call server organizations c st)))).
Proof.
  cbn [run]. unfold bind at 1.
  destruct (call server organizations c st) as [a st1].
  unfold bind at 1. cbn [fst snd].
  destruct (run server organizations rest st1) as [r st2]. reflexivity.
Qed.

Lemma run_unavailable {T} (server : Server T)
    (organizations : Server (list CloudOrganization)) (calls : list Call) :
  forall (s : CloudSession) (w : World),
    available s = false ->
    let res := run server organizations calls (s, w) in
    Forall no_result (fst res) /\ snd (snd res) = w /\
    available (fst (snd res)) = false.
Proof.
  induction calls as [|c rest IH]; intros s w Hav; cbv zeta.
  - simpl. auto.
  - rewrite run_cons.
    pose proof (call_unavailable server organizations c s w Hav) as Hc.
    cbv zeta in Hc.
    destruct (call server organizations c (s, w)) as [a [s1 w1]].
    cbn [fst snd] in *. destruct Hc as (Ha & -> & Hav1).
    specialize (IH s1 w Hav1). cbv zeta in IH.
    destruct (run server organizations rest (s1, w)) as [r [s2 w2]].
    cbn [fst snd] in *. destruct IH as (Hr & -> & Hav2).
    split; [constructor; assumption|]. split; [reflexivity|assumption].
Qed.

Lemma ok_status (status : Z) :
  ok status = true ->
  (status =? 401) || (status =? 403) = false /\ (status =? 429) = false.
Proof.
  unfold ok. rewrite andb_true_iff, !Z.leb_le. intros [Hlo Hhi].
  rewrite orb_false_iff, !Z.eqb_neq. lia.
Qed.

Lemma attempts_rate_limited_step {T} (server : Server T) (url : jsstring)
    (left' : nat) (attempt : Z) (s : CloudSession) (w : World) :
  rate_limited (outcome (server (requests w) url)) ->
  attempts server url (S left') attempt (s, w) =
  attempts server url left' (attempt + 1)
    (with_lastRequestTime s (clock w),
     after_sleep (backoff attempt) (after_fetch (server (requests w) url) url w)).
Proof.
  intros [body Hout]. rewrite attempts_step. cbv zeta. rewrite Hout. reflexivity.
Qed.

(** [k] rate-limited attempts within the budget, then a success. *)
Lemma attempts_after_rate_limits {T} (server : Server T) (url : jsstring) :
  forall (k left : nat) (attempt : Z) (s : CloudSession) (w : World)
         (status : Z) (payload : T),
    (k < left)%nat ->
    ok status = true ->
    (forall i, (i < k)%nat ->
               rate_limited (outcome (server (requests w + i)%nat url))) ->
    outcome (server (requests w + k)%nat url) = Response status (Some payload) ->
    let res := attempts server url left attempt (s, w) in
    fst res = Some payload /\
    trace (snd (snd res)) = trace w ++ retry_trace url k attempt.
Proof.
  induction k as [|k' IH]; intros left attempt s w status payload Hlt Hok Hlim Hsucc;
    cbv zeta; (destruct left as [|left']; [lia|]).
  - rewrite attempts_step. cbv zeta.
    rewrite Nat.add_0_r in Hsucc. rewrite Hsucc.
    destruct (ok_status status Hok) as [Ha Hr]. rewrite Ha, Hr, Hok.
    simpl. auto.
  - rewrite attempts_rate_limited_step
      by (rewrite <- (Nat.add_0_r (requests w)); apply Hlim; lia).
    set (w2 := after_sleep (backoff attempt)
                 (after_fetch (server (requests w) url) url w)).
    specialize (IH left' (attempt + 1) (with_lastRequestTime s (clock w)) w2
                  status payload ltac:(lia) Hok).
    assert (Hreq : requests w2 = S (requests w)) by reflexivity.
    cbv zeta in IH. destruct IH as [Hres Htrace].
    + intros i Hi. rewrite Hreq.
      replace (S (requests w) + i)%nat with (requests w + S i)%nat by lia.
      apply Hlim. lia.
    + rewrite Hreq.
      replace (S (requests w) + k')%nat with (requests w + S k')%nat by lia.
      exact Hsucc.
    + split; [exact Hres|]. rewrite Htrace. unfold w2. simpl.
      rewrite <- !app_assoc. reflexivity.
Qed.

(** Rate limiting on every attempt of the budget: no result, the
    client stays available, and no further request is made. *)
Lemma attempts_all_rate_limited {T} (server : Server T) (url : jsstring) :
  forall (left : nat) (attempt : Z) (s : CloudSession) (w : World),
    (forall i, (i < left)%nat ->
               rate_limited (outcome (server (requests w + i)%nat url))) ->
    let res := attempts server url left attempt (s, w) in
    fst res = None /\
    requests (snd (snd res)) = (requests w + left)%nat /\
    available (fst (snd res)) = available s.
Proof.
  induction left as [|left' IH]; intros attempt s w Hlim; cbv zeta.
  - simpl. rewrite Nat.add_0_r. auto.
  - rewrite attempts_rate_limited_step
      by (rewrite <- (Nat.add_0_r (requests w)); apply Hlim; lia).
    set (w2 := after_sleep (backoff attempt)
                 (after_fetch (server (requests w) url) url w)).
    assert (Hreq : requests w2 = S (requests w)) by reflexivity.
    specialize (IH (attempt + 1) (with_lastRequestTime s (clock w)) w2).
    cbv zeta in IH. destruct IH as (Hres & Hn & Hav).
    + intros i Hi. rewrite Hreq.
      replace (S (requests w) + i)%nat with (requests w + S i)%nat by lia.
      apply Hlim. lia.
    + split; [exact Hres|]. split; [rewrite Hn, Hreq; lia | exact Hav].
Qed.

Lemma backoff_doubles (attempt : Z) :
  0 <= attempt ->
  backoff attempt = 2 ^ (attempt + 1) * 1000 /\
  backoff attempt < backoff (attempt + 1).
Proof.
  intros Hnn. unfold backoff. split; [reflexivity|].
  replace (attempt + 1 + 1) with (Z.succ (attempt + 1)) by lia.
  rewrite Z.pow_succ_r by lia.
  assert (0 < 2 ^ (attempt + 1)) by (apply Z.pow_pos_nonneg; lia).
  lia.
Qed.

(** C1, as the code has it.  [fetchApi] makes at most three attempts.
    Up to two consecutive 429 responses followed by a success give the
    payload of the success, with a sleep of [2^(attempt+1)] seconds after
    each 429, each longer than the one before; three consecutive 429
    responses use up the attempts, so the call returns no result and a
    fourth request is never made. *)
Theorem rate_limit_backoff_within_three_attempts :
  forall (T : Type) (server : Server T) (path : jsstring)
         (s : CloudSession) (w : World),
    available s = true ->
    let url := CLAUDE_API_BASE ++ path in
    let res := fetchApi server path (s, w) in
    (forall (k : nat) (status : Z) (payload : T),
        (k <= 2)%nat ->
        ok status = true ->
        (forall i, (i < k)%nat ->
                   rate_limited (outcome (server (requests w + i)%nat url))) ->
        outcome (server (requests w + k)%nat url) = Response status (Some payload) ->
        fst res = Some payload /\
        trace (snd (snd res)) =
        trace w ++ rate_limit_trace s w ++ retry_trace url k 0) /\
    ((forall i, (i < 3)%nat ->
                rate_limited (outcome (server (requests w + i)%nat url))) ->
     fst res = None /\
     requests (snd (snd res)) = (requests w + 3)%nat /\
     available (fst (snd res)) = true) /\
    (forall attempt, 0 <= attempt ->
       backoff attempt = 2 ^ (attempt + 1) * 1000 /\
       backoff attempt < backoff (attempt + 1)).
Proof.
  intros T server path s w Hav. cbv zeta.
  rewrite fetchApi_unfold, Hav. cbn [negb].
  set (url := CLAUDE_API_BASE ++ path).
  set (w0 := if clock w - lastRequestTime s <? REQUEST_DELAY_MS
             then after_sleep (REQUEST_DELAY_MS - (clock w - lastRequestTime s)) w
             else w).
  assert (Hreq : requests w0 = requests w).
  { unfold w0. destruct (clock w - lastRequestTime s <? REQUEST_DELAY_MS);
      reflexivity. }
  assert (Htr : trace w0 = trace w ++ rate_limit_trace s w).
  { unfold w0, rate_limit_trace.
    destruct (clock w - lastRequestTime s <? REQUEST_DELAY_MS); simpl;
      [reflexivity | rewrite app_nil_r; reflexivity]. }
  split; [|split].
  - intros k status payload Hk Hok Hlim Hsucc.
    destruct (attempts_after_rate_limits server url k 3 0 s w0 status payload)
      as [Hres Htrace]; try assumption; try lia.
    + intros i Hi. rewrite Hreq. apply Hlim. exact Hi.
    + rewrite Hreq. exact Hsucc.
    + split; [exact Hres|]. rewrite Htrace, Htr, <- app_assoc. reflexivity.
  - intros Hlim.
    destruct (attempts_all_rate_limited server url 3 0 s w0) as (Hres & Hn & Ha).
    + intros i Hi. rewrite Hreq. apply Hlim. exact Hi.
    + split; [exact Hres|]. split; [rewrite Hn, Hreq; reflexivity|].
      rewrite Ha. exact Hav.
  - exact backoff_doubles.
Qed.

Example two_rate_limits_sleep_2s_then_4s :
  let res := fetchApi Examples.limited_twice (js "/api/test")
               (Examples.fresh_session, Examples.start) in
  fst res = Some (js "payload") /\
  sleeps (trace (snd (snd res))) = [2000; 4000] /\
  requests (snd (snd res)) = 3%nat.
Proof. vm_compute. repeat split; reflexivity. Qed.

Lemma rate_limit_backoff_within_three_attempts_witness :
  fst (fetchApi Examples.limited_twice (js "/api/test")
         (Examples.fresh_session, Examples.start)) = Some (js "payload") /\
  fst (fetchApi Examples.limited_thrice (js "/api/test")
         (Examples.fresh_session, Examples.start)) = None.
Proof.
  split.
  - apply (proj1 (rate_limit_backoff_within_three_attempts jsstring
                    Examples.limited_twice (js "/api/test")
                    Examples.fresh_session Examples.start eq_refl)
             2%nat 200 (js "payload")).
    + lia.
    + reflexivity.
    + intros i Hi. exists None.
      destruct i as [|[|i]]; [reflexivity | reflexivity | lia].
    + reflexivity.
  - apply (proj1 (proj2 (rate_limit_backoff_within_three_attempts jsstring
                           Examples.limited_thrice (js "/api/test")
                           Examples.fresh_session Examples.start eq_refl))).
    intros i Hi. exists None.
    destruct i as [|[|[|i]]]; [reflexivity | reflexivity | reflexivity | lia].
Defined.

(** C1, as stated, fails: after three consecutive 429 responses the
    call returns no result although the server would have answered the
    next request. *)
Lemma three_429_then_success_fails : ~ three_429_then_success.
Proof.
  intros Hclaim.
  specialize (Hclaim jsstring Examples.limited_thrice (js "/api/test")
                Examples.fresh_session Examples.start 200 (js "payload")
                eq_refl eq_refl).
  assert (Hnone : fst (fetchApi Examples.limited_thrice (js "/api/test")
                         (Examples.fresh_session, Examples.start)) = None)
    by (vm_compute; reflexivity).
  rewrite Hnone in Hclaim.
  assert (Hsome : @None jsstring = Some (js "payload")).
  { apply Hclaim.
    - intros i Hi. exists None.
      destruct i as [|[|[|i]]]; [reflexivity | reflexivity | reflexivity | lia].
    - reflexivity. }
  discriminate.
Qed.

(** C4. A client instance starts available.  [fetchApi] takes the flag
    down exactly when its last request is answered with a 401 or 403,
    which at any attempt ends the call at once; [getOrgId] takes it down
    exactly when organization discovery fails.  Once the flag is down,
    every later call on the instance leaves it down, returns no payload
    and leaves the world untouched: no request, no sleep. *)
Theorem availability_is_one_way :
  (forall (key : jsstring) (org : option jsstring),
      available (new_CloudSession key org) = true) /\
  (forall (T : Type) (server : Server T) (path : jsstring)
          (s : CloudSession) (w : World),
      available s = true ->
      let res := fetchApi server path (s, w) in
      available (fst (snd res)) = false <->
      ((requests w < requests (snd (snd res)))%nat /\
       auth_failure
         (outcome (server (pred (requests (snd (snd res))))
                          (CLAUDE_API_BASE ++ path))))) /\
  (forall (T : Type) (server : Server T) (url : jsstring) (left' : nat)
          (attempt : Z) (s : CloudSession) (w : World),
      auth_failure (outcome (server (requests w) url)) ->
      attempts server url (S left') attempt (s, w) =
      (None, (demoted (with_lastRequestTime s (clock w)),
              after_fetch (server (requests w) url) url w))) /\
  (forall (organizations : Server (list CloudOrganization))
          (s : CloudSession) (w : World),
      available s = true ->
      let res := getOrgId organizations (s, w) in
      available (fst (snd res)) = false <-> fst res = None) /\
  (forall (T : Type) (server : Server T)
          (organizations : Server (list CloudOrganization))
          (calls : list Call) (s : CloudSession) (w : World),
      available s = false ->
      let res := run server organizations calls (s, w) in
      Forall no_result (fst res) /\
      snd (snd res) = w /\
      available (fst (snd res)) = false).
Proof.
  split; [reflexivity|].
  split; [exact @fetchApi_demotion|].
  split; [exact @attempts_auth_failure|].
  split; [exact getOrgId_demotion|].
  exact @run_unavailable.
Qed.

Example expired_key_demotes_after_one_request :
  let res := fetchApi Examples.expired_key (js "/api/test")
               (Examples.fresh_session, Examples.start) in
  fst res = None /\
  available (fst (snd res)) = false /\
  requests (snd (snd res)) = 1%nat.
Proof. vm_compute. repeat split; reflexivity. Qed.

Lemma availability_is_one_way_witness :
  (let res := fetchApi Examples.expired_key (js "/api/test")
                (Examples.fresh_session, Examples.start) in
   available (fst (snd res)) = false <->
   ((Auth.requests Examples.start < requests (snd (snd res)))%nat /\
    auth_failure
      (outcome (Examples.expired_key (pred (requests (snd (snd res))))
                  (CLAUDE_API_BASE ++ js "/api/test"))))) /\
  attempts Examples.expired_key (js "https://claude.ai/api/test") 3 0
    (Examples.fresh_session, Examples.start) =
  (None, (demoted (with_lastRequestTime Examples.fresh_session 1000),
          after_fetch (Examples.expired_key 0%nat (js "https://claude.ai/api/test"))
            (js "https://claude.ai/api/test") Examples.start)) /\
  (let res := getOrgId Examples.no_organizations
                (Examples.fresh_session, Examples.start) in
   available (fst (snd res)) = false <-> fst res = None) /\
  (let demoted_state :=
     snd (fetchApi Examples.expired_key (js "/api/test")
            (Examples.fresh_session, Examples.start)) in
   let res := run Examples.expired_key Examples.no_organizations
                [CallFetchApi (js "/api/test"); CallGetOrgId;
                 CallFetchApi (js "/api/other"); CallIsAvailable]
                (fst demoted_state, snd demoted_state) in
   Forall no_result (fst res) /\
   snd (snd res) = snd demoted_state /\
   available (fst (snd res)) = false).
Proof.
  split; [|split; [|split]].
  - apply (proj1 (proj2 availability_is_one_way) jsstring Examples.expired_key
             (js "/api/test") Examples.fresh_session Examples.start).
    reflexivity.
  - apply (proj1 (proj2 (proj2 availability_is_one_way)) jsstring
             Examples.expired_key (js "https://claude.ai/api/test") 2%nat 0
             Examples.fresh_session Examples.start).
    exists 401, None. split; [reflexivity | left; reflexivity].
  - apply (proj1 (proj2 (proj2 (proj2 availability_is_one_way)))
             Examples.no_organizations Examples.fresh_session Examples.start).
    reflexivity.
  - cbv zeta.
    apply (proj2 (proj2 (proj2 (proj2 availability_is_one_way))) jsstring
             Examples.expired_key Examples.no_organizations).
    vm_compute. reflexivity.
Defined.

End ClientFacts.

(* ===================================================================== *)
(** * Conversations: missing sessions and message order *)
(* ===================================================================== *)

Module Conversations.
Import Vocabulary.

Lemma local_getConversation_missing (H : Host) (fs : ClaudeCode.FileSystem)
    (options : GetConversationOptions) :
  no_record_file H fs (gc_sessionId options) ->
  ClaudeCode.getConversation H fs options = None.
Proof.
  intros Hno. unfold ClaudeCode.getConversation.
  destruct fs as [projectDirs|]; [|reflexivity].
  destruct (ClaudeCode.first_conversation H projectDirs projectDirs
              (gc_sessionId options)
              (ClaudeCode.allowed_types (gc_messageTypes options))
              (default_to (gc_limit options) 100)
              (default_to (gc_offset options) 0)) as [conv|] eqn:Hfound;
    [|reflexivity].
  apply CodeCounts.first_conversation_found in Hfound.
  destruct Hfound as (projectDir & node & e & Hin & Hl & _).
  rewrite (Hno projectDirs projectDir node eq_refl Hin) in Hl. discriminate.
Qed.

(** For a session id without separator a record file exists exactly
    where a project directory lists it. *)
Lemma not_listed_no_record_file (H : Host) (fs : ClaudeCode.FileSystem)
    (sessionId : jsstring) :
  plain sessionId -> not_listed fs sessionId -> no_record_file H fs sessionId.
Proof.
  intros Hplain Hnot projectDirs projectDir node Heq Hin.
  rewrite CodeCounts.access_plain by exact Hplain.
  destruct node as [files|]; [|reflexivity].
  exact (Hnot projectDirs projectDir files Heq Hin).
Qed.

Lemma first_hit_all_miss (ordered : list ConversationSource)
    (hint : option SourceType) (opts : GetConversationOptions) :
  (forall s, In s ordered -> isAvailable s = true -> misses s opts) ->
  Tools.first_hit ordered hint opts = None.
Proof.
  induction ordered as [|src rest IH]; intros Hmiss; simpl; [reflexivity|].
  assert (Hrest : Tools.first_hit rest hint opts = None).
  { apply IH. intros s Hs. apply Hmiss. right. exact Hs. }
  destruct (isAvailable src) eqn:Hav; simpl; [|exact Hrest].
  destruct (match hint with
            | Some t => negb (SourceType_eqb (type src) t)
            | None => false
            end); [exact Hrest|].
  destruct (Hmiss src (or_introl eq_refl) Hav) as [Hnone | [err Herr]].
  - rewrite Hnone. exact Hrest.
  - rewrite Herr. exact Hrest.
Qed.

Lemma tools_getConversation_all_miss (sources : list ConversationSource)
    (args : Tools.GetConversationArgs) :
  (forall s, In s sources -> isAvailable s = true ->
             misses s (Tools.conversation_options args)) ->
  Tools.getConversation sources args = Ok None.
Proof.
  intros Hmiss. unfold Tools.getConversation.
  assert (Hauto : Tools.first_hit (sort Tools.code_first sources)
                    (Tools.source_hint args) (Tools.conversation_options args)
                  = None).
  { apply first_hit_all_miss. intros s Hs. apply Hmiss.
    apply (sort_In Tools.code_first). exact Hs. }
  rewrite Hauto.
  destruct (Tools.source_hint args) as [t|]; [|reflexivity].
  destruct (find _ sources) as [targeted|] eqn:Hfind; [|reflexivity].
  apply find_some in Hfind. destruct Hfind as [Hin Hsel].
  apply andb_true_iff in Hsel. destruct Hsel as [_ Hav].
  destruct (Hmiss targeted Hin Hav) as [Hnone | [err Herr]].
  - rewrite Hnone. reflexivity.
  - rewrite Herr. reflexivity.
Qed.

(** C8. For a session id for which no record file exists in any project
    directory, that is, for which [fs.access] on [<sessionId>.jsonl]
    fails in each of them, the local source answers [null] without
    failing; for an id without path separator this is the case as soon
    as no project directory lists an entry [<sessionId>.jsonl].  The
    orchestration layer then answers [null] too, wherever the local
    source stands among the sources, when the other sources are
    unavailable, have nothing for the id, or fail. *)
Theorem missing_session_is_not_found :
  (forall (H : Host) (fs : ClaudeCode.FileSystem)
          (options : GetConversationOptions),
      no_record_file H fs (gc_sessionId options) ->
      Sources.getConversation (ClaudeCode.ClaudeCodeSource H fs) options
      = Ok None) /\
  (forall (H : Host) (fs : ClaudeCode.FileSystem)
          (options : GetConversationOptions),
      plain (gc_sessionId options) ->
      not_listed fs (gc_sessionId options) ->
      Sources.getConversation (ClaudeCode.ClaudeCodeSource H fs) options
      = Ok None) /\
  (forall (H : Host) (fs : ClaudeCode.FileSystem)
          (before after : list ConversationSource)
          (args : Tools.GetConversationArgs),
      no_record_file H fs (Tools.sessionId args) ->
      (forall s, In s (before ++ after) -> isAvailable s = true ->
                 misses s (Tools.conversation_options args)) ->
      Tools.getConversation
        (before ++ ClaudeCode.ClaudeCodeSource H fs :: after) args
      = Ok None).
Proof.
  split; [|split].
  - intros H fs options Hno. simpl.
    rewrite local_getConversation_missing by exact Hno. reflexivity.
  - intros H fs options Hplain Hnot. simpl.
    rewrite local_getConversation_missing; [reflexivity|].
    apply not_listed_no_record_file; assumption.
  - intros H fs before after args Hno Hothers.
    apply tools_getConversation_all_miss.
    intros s Hin Hav. apply in_app_or in Hin.
    destruct Hin as [Hin | [<- | Hin]].
    + apply Hothers; [apply in_or_app; left; exact Hin | exact Hav].
    + left. simpl. rewrite local_getConversation_missing; [reflexivity|exact Hno].
    + apply Hothers; [apply in_or_app; right; exact Hin | exact Hav].
Qed.

(** A session id may name its file by a path: [./test-session-123]
    leads to the same file as [test-session-123]. *)
Example path_in_session_id :
  ClaudeCode.getConversation Reference.host Examples.projects
    (Examples.conversation "./test-session-123") <> None /\
  option_map messages
    (ClaudeCode.getConversation Reference.host Examples.projects
       (Examples.conversation "./test-session-123"))
  = option_map messages
      (ClaudeCode.getConversation Reference.host Examples.projects
         (Examples.conversation "test-session-123")).
Proof. vm_compute. split; [discriminate | reflexivity]. Qed.

Lemma missing_session_is_not_found_witness :
  Sources.getConversation
    (ClaudeCode.ClaudeCodeSource Reference.host Examples.projects)
    (Examples.conversation "non-existent") = Ok None /\
  Tools.getConversation
    ([Examples.failing_cloud] ++
     ClaudeCode.ClaudeCodeSource Reference.host Examples.projects ::
     [Interleaved.cloud])
    Examples.not_found_args = Ok None.
Proof.
  assert (Hno : no_record_file Reference.host Examples.projects
                  (js "non-existent")).
  { intros projectDirs projectDir node Heq Hin. injection Heq as <-.
    destruct Hin as [Heq|[]]. injection Heq as <- <-.
    vm_compute. reflexivity. }
  split.
  - apply (proj1 missing_session_is_not_found Reference.host Examples.projects
             (Examples.conversation "non-existent")).
    exact Hno.
  - apply (proj2 (proj2 missing_session_is_not_found) Reference.host
             Examples.projects [Examples.failing_cloud] [Interleaved.cloud]
             Examples.not_found_args).
    + exact Hno.
    + intros s [<-|[<-|[]]] _.
      * right. exists (js "Error"). reflexivity.
      * left. reflexivity.
Defined.

(** ** Message order *)

Lemma date_le_trans (a b c : Date) : date_le a b -> date_le b c -> date_le a c.
Proof.
  unfold date_le. destruct a, b, c; try tauto. lia.
Qed.







Example sample_conversation_in_time_order :
  option_map (fun c => List.map msg_id (messages c))
    (ClaudeCode.getConversation Reference.host Examples.projects
       (Examples.conversation "test-session-123"))
  = Some [js "msg-uuid-123"; js "msg-uuid-456"].
Proof. vm_compute. reflexivity. Qed.

Example sample_remote_conversation_in_time_order :
  option_map (fun c => List.map msg_id (messages c))
    (fst (ClaudeApi.getConversation Reference.host Examples.account
            (Examples.conversation "conv-1")
            (Examples.fresh_session, Examples.start)))
  = Some [js "c-1"; js "c-2"].
Proof. vm_compute. reflexivity. Qed.


(** A record without timestamp is shown with an Invalid Date; the
    comparator answers [NaN] for it, and the records around it stay
    where they were. *)
Example undated_record_keeps_disk_order :
  option_map (fun c => List.map msg_id (messages c))
    (ClaudeCode.getConversation Reference.host Undated.one_session
       (Examples.conversation "mixed"))
  = Some [js "late"; js "undated"; js "early"].
Proof. vm_compute. reflexivity. Qed.



End Conversations.

(* ===================================================================== *)
(** * Orchestration: fan-out, merge and pagination *)
(* ===================================================================== *)

Module FanOut.
Import Vocabulary.

Lemma promise_all_catch {S A} (f : S -> result A) (dflt : A) (l : list S) :
  promise_all (List.map (fun s => catch (f s) dflt) l) =
  Ok (List.map (fun s => match f s with Ok a => a | Rejected _ => dflt end) l).
Proof.
  induction l as [|s l IH]; simpl; [reflexivity|].
  rewrite IH. destruct (f s); reflexivity.
Qed.

Lemma contributions_omit {S A} (g : S -> list A) (act : S -> bool)
    (before after : list S) (s : S) :
  g s = [] ->
  push_all (List.map g (List.filter act (before ++ s :: after))) =
  push_all (List.map g (List.filter act (before ++ after))).
Proof.
  intros Hs. unfold push_all.
  rewrite !filter_app, !map_app, !concat_app. f_equal.
  simpl. destruct (act s); [simpl; rewrite Hs|]; reflexivity.
Qed.

Lemma listSessions_unfold (sources : list ConversationSource)
    (args : Tools.ListSessionsArgs) :
  Tools.listSessions sources args =
  let limit := default_to (Tools.limit args) 50 in
  let offset := default_to (Tools.offset args) 0 in
  let merged := merged_sessions sources args in
  Ok {| Tools.sessions := slice merged offset (offset + limit);
        Tools.pagination :=
          {| total_count := jslength merged;
             pg_limit := limit;
             pg_offset := offset;
             has_more := offset + limit <? jslength merged |} |}.
Proof.
  unfold Tools.listSessions. rewrite promise_all_catch. reflexivity.
Qed.

Lemma listProjects_unfold (sources : list ConversationSource)
    (args : Tools.ListProjectsArgs) :
  Tools.listProjects sources args =
  Ok (sort by_lastActivity_desc
        (push_all
           (List.map (fun s => contribution (Sources.listProjects s))
              (Tools.activeSources sources
                 (default_to (Tools.lp_source args) Tools.All))))).
Proof.
  unfold Tools.listProjects. rewrite promise_all_catch. reflexivity.
Qed.

Lemma searchConversations_unfold (sources : list ConversationSource)
    (args : Tools.SearchConversationsArgs) :
  Tools.searchConversations sources args =
  let active := Tools.activeSources sources
                  (default_to (Tools.sc_source args) Tools.All) in
  Ok {| Tools.results :=
          slice (sort by_sr_timestamp_desc
                   (push_all
                      (List.map
                         (fun s => contribution
                                     (Sources.search s (Tools.search_options args)))
                         active)))
            0 (default_to (Tools.sc_limit args) 30);
        Tools.sources_searched :=
          List.map (fun s => {| src_type := type s |}) active |}.
Proof.
  unfold Tools.searchConversations. rewrite promise_all_catch. reflexivity.
Qed.

(** C2. In a listing or search fan-out a source whose operation is
    rejected contributes nothing: the merged result is the one obtained
    with that source left out of the list, and the orchestration call
    itself is never rejected. *)
Theorem rejected_source_is_left_out :
  forall (before after : list ConversationSource) (s : ConversationSource),
    (forall (args : Tools.ListSessionsArgs) (err : jsstring),
        Sources.listSessions s (Tools.source_options args) = Rejected err ->
        Tools.listSessions (before ++ s :: after) args =
        Tools.listSessions (before ++ after) args) /\
    (forall (args : Tools.ListProjectsArgs) (err : jsstring),
        Sources.listProjects s = Rejected err ->
        Tools.listProjects (before ++ s :: after) args =
        Tools.listProjects (before ++ after) args) /\
    (forall (args : Tools.SearchConversationsArgs) (err : jsstring),
        Sources.search s (Tools.search_options args) = Rejected err ->
        exists r r',
          Tools.searchConversations (before ++ s :: after) args = Ok r /\
          Tools.searchConversations (before ++ after) args = Ok r' /\
          Tools.results r = Tools.results r') /\
    (forall args, exists r, Tools.listSessions (before ++ s :: after) args = Ok r) /\
    (forall args, exists r, Tools.listProjects (before ++ s :: after) args = Ok r) /\
    (forall args, exists r,
        Tools.searchConversations (before ++ s :: after) args = Ok r).
Proof.
  intros before after s. repeat split.
  - intros args err Hrej. rewrite !listSessions_unfold. cbv zeta.
    unfold merged_sessions, Tools.activeSources.
    rewrite (contributions_omit
               (fun s0 => contribution
                            (Sources.listSessions s0 (Tools.source_options args))));
      [reflexivity | rewrite Hrej; reflexivity].
  - intros args err Hrej. rewrite !listProjects_unfold.
    unfold Tools.activeSources.
    rewrite (contributions_omit
               (fun s0 => contribution (Sources.listProjects s0)));
      [reflexivity | rewrite Hrej; reflexivity].
  - intros args err Hrej. rewrite !searchConversations_unfold. cbv zeta.
    eexists. eexists. split; [reflexivity|]. split; [reflexivity|].
    cbn [Tools.results]. unfold Tools.activeSources.
    rewrite (contributions_omit
               (fun s0 => contribution
                            (Sources.search s0 (Tools.search_options args))));
      [reflexivity | rewrite Hrej; reflexivity].
  - intros args. rewrite listSessions_unfold. eexists. reflexivity.
  - intros args. rewrite listProjects_unfold. eexists. reflexivity.
  - intros args. rewrite searchConversations_unfold. eexists. reflexivity.
Qed.

Lemma rejected_source_is_left_out_witness :
  Tools.listSessions Examples.local_and_failing_cloud Examples.first_page =
  Tools.listSessions Examples.local_only Examples.first_page /\
  Tools.listProjects Examples.local_and_failing_cloud Examples.no_project_filter =
  Tools.listProjects Examples.local_only Examples.no_project_filter /\
  exists r r',
    Tools.searchConversations Examples.local_and_failing_cloud
      (Examples.search_args "bug") = Ok r /\
    Tools.searchConversations Examples.local_only (Examples.search_args "bug")
    = Ok r' /\
    Tools.results r = Tools.results r'.
Proof.
  split; [|split].
  - apply (proj1 (rejected_source_is_left_out Examples.local_only []
                    Examples.failing_cloud)
             Examples.first_page (js "Error")).
    reflexivity.
  - apply (proj1 (proj2 (rejected_source_is_left_out Examples.local_only []
                           Examples.failing_cloud))
             Examples.no_project_filter (js "Error")).
    reflexivity.
  - apply (proj1 (proj2 (proj2 (rejected_source_is_left_out Examples.local_only []
                                  Examples.failing_cloud)))
             (Examples.search_args "bug") (js "Error")).
    reflexivity.
Defined.

(** ** Pagination of the merged listing *)

Lemma by_updatedAt_desc_decides (x y : Session) :
  valid (updatedAt x) -> valid (updatedAt y) ->
  if by_updatedAt_desc x y <=? 0
  then date_le (updatedAt y) (updatedAt x)
  else date_le (updatedAt x) (updatedAt y).
Proof.
  unfold valid, by_updatedAt_desc, getTime, date_le, NaN.
  destruct (updatedAt x) as [tx|], (updatedAt y) as [ty|]; try congruence.
  intros _ _. simpl.
  destruct (ty - tx <=? 0) eqn:E;
    [apply Z.leb_le in E | apply Z.leb_gt in E]; lia.
Qed.

Lemma sorted_sessions_newest_first (l : list Session) :
  Forall (fun s => valid (updatedAt s)) l ->
  newest_first (sort by_updatedAt_desc l).
Proof.
  intros Hvalid. unfold newest_first.
  apply (sort_StronglySorted by_updatedAt_desc
           (fun a b => date_le (updatedAt b) (updatedAt a))
           (fun s => valid (updatedAt s))).
  - exact by_updatedAt_desc_decides.
  - intros x y z Hxy Hyz. eapply Conversations.date_le_trans; eassumption.
  - exact Hvalid.
Qed.

(** C3. With limit [L] and offset [O], every selected source is asked
    for [O + L] sessions from offset 0; what the sources return is
    concatenated and sorted with the comparator of [updatedAt], which
    puts the sessions in non-increasing order of [updatedAt] when every
    [updatedAt] is a valid date; the page is the slice [O, O + L) of
    that merged list; [total_count] is the length of the merged list
    and [has_more] is [O + L < total_count]. *)
Theorem listSessions_merges_then_paginates :
  forall (sources : list ConversationSource) (args : Tools.ListSessionsArgs),
    let L := default_to (Tools.limit args) 50 in
    let O := default_to (Tools.offset args) 0 in
    let asked := Tools.source_options args in
    let selected :=
      Tools.activeSources sources (default_to (Tools.source args) Tools.All) in
    let concatenated :=
      push_all
        (List.map (fun s => contribution (Sources.listSessions s asked)) selected) in
    let merged := merged_sessions sources args in
    ls_limit asked = Some (L + O) /\
    ls_offset asked = Some 0 /\
    merged = sort by_updatedAt_desc concatenated /\
    Permutation merged concatenated /\
    (Forall (fun s => valid (updatedAt s)) concatenated -> newest_first merged) /\
    exists r,
      Tools.listSessions sources args = Ok r /\
      Tools.sessions r = slice merged O (O + L) /\
      (0 <= O -> 0 <= L ->
       Tools.sessions r = firstn (Z.to_nat L) (skipn (Z.to_nat O) merged)) /\
      total_count (Tools.pagination r) = jslength merged /\
      has_more (Tools.pagination r) = (O + L <? total_count (Tools.pagination r)).
Proof.
  intros sources args. cbv zeta.
  split; [reflexivity|]. split; [reflexivity|]. split; [reflexivity|].
  split; [apply sort_perm|].
  split; [apply sorted_sessions_newest_first|].
  rewrite listSessions_unfold. cbv zeta. eexists. split; [reflexivity|].
  cbn [Tools.sessions Tools.pagination total_count has_more].
  split; [reflexivity|]. split; [|split; reflexivity].
  intros HO HL. rewrite slice_nonneg by lia.
  replace (default_to (Tools.offset args) 0 + default_to (Tools.limit args) 50
           - default_to (Tools.offset args) 0)
    with (default_to (Tools.limit args) 50) by lia.
  reflexivity.
Qed.

Example sample_first_page :
  match Tools.listSessions Examples.local_and_failing_cloud Examples.first_page with
  | Ok r =>
      List.map sess_id (Tools.sessions r) = [js "test-session-123"] /\
      total_count (Tools.pagination r) = 1 /\
      has_more (Tools.pagination r) = false
  | Rejected _ => False
  end.
Proof. vm_compute. repeat split; reflexivity. Qed.

(** Two sources with two sessions each, asked for the second and third
    of the merged listing: each source is asked for three sessions, the
    four sessions interleave, and the page is cut out of the middle. *)
Example sample_interleaved_page :
  ls_limit (Tools.source_options Interleaved.second_and_third) = Some 3 /\
  List.map sess_id
    (merged_sessions Interleaved.sources Interleaved.second_and_third)
  = [js "evening"; js "noon"; js "mid-morning"; js "morning"] /\
  match Tools.listSessions Interleaved.sources Interleaved.second_and_third with
  | Ok r =>
      List.map sess_id (Tools.sessions r) = [js "noon"; js "mid-morning"] /\
      total_count (Tools.pagination r) = 4 /\
      has_more (Tools.pagination r) = true
  | Rejected _ => False
  end.
Proof. vm_compute. repeat split; reflexivity. Qed.

Lemma listSessions_merges_then_paginates_witness :
  newest_first
    (merged_sessions Interleaved.sources Interleaved.second_and_third) /\
  exists r,
    Tools.listSessions Interleaved.sources Interleaved.second_and_third = Ok r /\
    Tools.sessions r =
    firstn 2 (skipn 1
                (merged_sessions Interleaved.sources
                   Interleaved.second_and_third)) /\
    total_count (Tools.pagination r) =
    jslength (merged_sessions Interleaved.sources Interleaved.second_and_third).
Proof.
  destruct (listSessions_merges_then_paginates Interleaved.sources
              Interleaved.second_and_third)
    as (_ & _ & _ & _ & Hsorted & r & Hr & _ & Hpage & Htotal & _).
  split.
  - apply Hsorted. vm_compute. repeat constructor; discriminate.
  - exists r. split; [exact Hr|]. split; [|exact Htotal].
    apply Hpage; simpl; lia.
Defined.

(** A session file whose only record has no timestamp is listed with an
    Invalid Date; the comparator answers [NaN] for it, and the sessions
    stay in the order the directory was read. *)
Example undated_session_keeps_directory_order :
  match Tools.listSessions
          [ClaudeCode.ClaudeCodeSource Reference.host Undated.three_sessions]
          Examples.first_page with
  | Ok r =>
      List.map (fun s => (sess_id s, updatedAt s)) (Tools.sessions r)
      = [(js "a-old", Some 1751274000000); (js "b-undated", NaN);
         (js "c-new", Some 1751281200000)]
  | Rejected _ => False
  end.
Proof. vm_compute. reflexivity. Qed.

(** In whatever order they stand, two sessions of which one has an
    Invalid Date are not in non-increasing order of [updatedAt]. *)
Lemma invalid_date_breaks_newest_first (a b : Session) (rest : list Session) :
  updatedAt a = NaN \/ updatedAt b = NaN -> ~ newest_first (a :: b :: rest).
Proof.
  intros Hnan Hsorted. unfold newest_first in Hsorted.
  apply StronglySorted_inv in Hsorted. destruct Hsorted as [_ Hall].
  apply Forall_inv in Hall. unfold date_le in Hall.
  destruct Hnan as [Ha|Hb].
  - rewrite Ha in Hall. destruct (updatedAt b); exact Hall.
  - rewrite Hb in Hall. exact Hall.
Qed.

(** C3, as stated, fails: with a session whose [updatedAt] is an
    Invalid Date the listing is not in non-increasing order of
    [updatedAt], the session of 9:00 standing before the session of
    11:00. *)
Lemma listing_always_newest_first_fails : ~ AsStated.listing_always_newest_first.
Proof.
  intros Hclaim.
  destruct (Tools.listSessions
              [ClaudeCode.ClaudeCodeSource Reference.host Undated.three_sessions]
              Examples.first_page) as [r|err] eqn:Hr;
    [|vm_compute in Hr; discriminate].
  pose proof (Hclaim _ _ r Hr) as Hsorted.
  vm_compute in Hr. injection Hr as <-.
  revert Hsorted. apply invalid_date_breaks_newest_first. right. reflexivity.
Qed.

End FanOut.

(* ===================================================================== *)
(** * Search snippets *)
(* ===================================================================== *)

Module Snippets.
Import Vocabulary.

Lemma isPrefix_length (p s : jsstring) :
  isPrefix p s = true -> (List.length p <= List.length s)%nat.
Proof.
  revert s. induction p as [|a p IH]; intros s; simpl; [lia|].
  destruct s as [|b s]; [discriminate|].
  rewrite andb_true_iff. intros [_ Hp]. apply IH in Hp. simpl. lia.
Qed.

Lemma indexOf_from_found (s q : jsstring) :
  forall i, 0 <= i ->
    indexOf_from s q i <> -1 ->
    i <= indexOf_from s q i /\
    indexOf_from s q i - i + jslength q <= jslength s.
Proof.
  induction s as [|c s IH]; intros i Hi; simpl.
  - destruct q as [|a q]; simpl; [|congruence].
    intros _. unfold jslength. simpl. lia.
  - destruct (isPrefix q (c :: s)) eqn:Hp.
    + intros _. apply isPrefix_length in Hp. unfold jslength. lia.
    + intros Hne. destruct (IH (i + 1) ltac:(lia) Hne) as [Hle Hfit].
      unfold jslength in *. simpl. lia.
Qed.

Lemma indexOf_found (s q : jsstring) :
  includes s q = true ->
  0 <= indexOf s q /\ indexOf s q + jslength q <= jslength s.
Proof.
  unfold includes, indexOf. rewrite negb_true_iff, Z.eqb_neq. intros Hne.
  destruct (indexOf_from_found s q 0 ltac:(lia) Hne). lia.
Qed.

Lemma firstn_plus {A} (n m : nat) (l : list A) :
  firstn (n + m) l = firstn n l ++ firstn m (skipn n l).
Proof.
  revert l. induction n as [|n IH]; intros l; simpl; [reflexivity|].
  destruct l as [|x l]; simpl.
  - rewrite firstn_nil. reflexivity.
  - rewrite IH. reflexivity.
Qed.

(** A window [a, b) of a list around a segment [i, j) has the segment
    in the middle. *)
Lemma window_contains_segment {A} (l : list A) (a i j b : nat) :
  (a <= i)%nat -> (i <= j)%nat -> (j <= b)%nat ->
  firstn (b - a) (skipn a l) =
  firstn (i - a) (skipn a l) ++ firstn (j - i) (skipn i l) ++
  firstn (b - j) (skipn j l).
Proof.
  intros Hai Hij Hjb.
  replace (b - a)%nat with ((i - a) + ((j - i) + (b - j)))%nat by lia.
  rewrite firstn_plus. f_equal.
  rewrite skipn_skipn. replace (i - a + a)%nat with i by lia.
  rewrite firstn_plus. f_equal.
  rewrite skipn_skipn. replace (j - i + i)%nat with j by lia.
  reflexivity.
Qed.

Section WithHost.
Variable H : Host.
Variables content query : jsstring.

(** The snippet is the window of the content from 50 positions before
    the match index to 50 positions after the match index plus
    [query.length], with an ellipsis on each side where the window stops
    short of the content's end. *)
Lemma make_snippet_window :
  make_snippet H content query =
  (if 0 <? window_start H content query then ellipsis else []) ++
  slice content (window_start H content query) (window_end H content query) ++
  (if window_end H content query <? jslength content then ellipsis else []).
Proof. reflexivity. Qed.

Lemma left_ellipsis_iff_truncated :
  (0 <? window_start H content query) = true <-> 50 < match_index H content query.
Proof. unfold window_start. rewrite Z.ltb_lt. lia. Qed.

Lemma right_ellipsis_iff_truncated :
  (window_end H content query <? jslength content) = true <->
  match_index H content query + jslength query + 50 < jslength content.
Proof. unfold window_end. rewrite Z.ltb_lt. lia. Qed.

Hypothesis found : matches H content query = true.

Lemma match_index_nonneg : 0 <= match_index H content query.
Proof. apply indexOf_found in found. unfold match_index. lia. Qed.

(** The snippet is at most the query's length plus 100 code units long,
    not counting the two ellipses of three code units each. *)
Lemma make_snippet_length :
  jslength (make_snippet H content query) <= jslength query + 100 + 6.
Proof.
  rewrite make_snippet_window. rewrite !jslength_app.
  pose proof match_index_nonneg as Hidx.
  pose proof (jslength_nonneg content) as Hc.
  pose proof (jslength_nonneg query) as Hq.
  assert (Hslice : jslength (slice content (window_start H content query)
                               (window_end H content query))
                   <= Z.max 0 (window_end H content query
                               - window_start H content query)).
  { apply slice_length; unfold window_start, window_end; lia. }
  assert (He : jslength ellipsis = 3) by reflexivity.
  assert (Hn : jslength (@nil codeunit) = 0) by reflexivity.
  destruct (0 <? window_start H content query),
           (window_end H content query <? jslength content);
    rewrite ?He, ?Hn; unfold window_start, window_end in *; lia.
Qed.

(** When lowercasing keeps the lengths of the content and of the query,
    the match index is the position of the match in the content and the
    snippet contains the matched text. *)
Hypothesis content_length :
  jslength (toLowerCase H content) = jslength content.
Hypothesis query_length :
  jslength (toLowerCase H query) = jslength query.

Lemma match_within_content :
  match_index H content query + jslength query <= jslength content.
Proof.
  apply indexOf_found in found. unfold match_index.
  rewrite content_length, query_length in found. lia.
Qed.

Lemma make_snippet_contains_match :
  occurs_in
    (slice content (match_index H content query)
       (match_index H content query + jslength query))
    (make_snippet H content query).
Proof.
  pose proof match_index_nonneg as Hidx.
  pose proof match_within_content as Hfit.
  pose proof (jslength_nonneg query) as Hq.
  rewrite make_snippet_window.
  set (idx := match_index H content query) in *.
  assert (Hs : window_start H content query = Z.max 0 (idx - 50)) by reflexivity.
  assert (He : window_end H content query
               = Z.min (jslength content) (idx + jslength query + 50))
    by reflexivity.
  set (a := window_start H content query) in *.
  set (b := window_end H content query) in *.
  rewrite (slice_nonneg content a b) by lia.
  rewrite (slice_nonneg content idx (idx + jslength query)) by lia.
  rewrite !Z2Nat.inj_sub by lia.
  rewrite (window_contains_segment content (Z.to_nat a) (Z.to_nat idx)
             (Z.to_nat (idx + jslength query)) (Z.to_nat b)) by lia.
  exists ((if 0 <? a then ellipsis else []) ++
          firstn (Z.to_nat idx - Z.to_nat a) (skipn (Z.to_nat a) content)),
         (firstn (Z.to_nat b - Z.to_nat (idx + jslength query))
            (skipn (Z.to_nat (idx + jslength query)) content) ++
          (if b <? jslength content then ellipsis else [])).
  rewrite <- !app_assoc. reflexivity.
Qed.

End WithHost.

(** ** The snippets of the local search *)

Lemma filter_map_In {A B} (f : A -> option B) (l : list A) (y : B) :
  In y (ClaudeCode.filter_map f l) -> exists x, In x l /\ f x = Some y.
Proof.
  induction l as [|x l IH]; simpl; [intros []|].
  destruct (f x) as [y'|] eqn:Hfx.
  - intros [<-|Hin].
    + exists x. auto.
    + destruct (IH Hin) as [x' [Hx' Hf]]. exists x'. auto.
  - intros Hin. destruct (IH Hin) as [x' [Hx' Hf]]. exists x'. auto.
Qed.

Lemma search_file_In (H : Host) (query : jsstring) (ns ne : option jsstring)
    (file : DirEntry) (r : SearchResult) :
  In r (ClaudeCode.search_file H query ns ne file) ->
  exists entry,
    In entry (ClaudeCode.parseJsonlFile file ns ne) /\
    matches H (ClaudeCode.extractContent entry) query = true /\
    snippet r = make_snippet H (ClaudeCode.extractContent entry) query /\
    sr_messageId r = cc_uuid entry.
Proof.
  unfold ClaudeCode.search_file.
  destruct (ClaudeCode.shouldSkipFile H file ns ne); [intros []|].
  intros Hin. apply filter_map_In in Hin. destruct Hin as [entry [Hentry Hsome]].
  exists entry. split; [exact Hentry|].
  destruct (matches H (ClaudeCode.extractContent entry) query); [|discriminate].
  injection Hsome as <-. simpl. auto.
Qed.

Lemma search_batches_cons (H : Host) (fuel : nat) (limit : Z) (query : jsstring)
    (ns ne : option jsstring) (f : DirEntry)
    (fs : list DirEntry) (results : list SearchResult) :
  ClaudeCode.search_batches H (S fuel) limit query ns ne (f :: fs) results =
  if limit <=? jslength results then results
  else ClaudeCode.search_batches H fuel limit query ns ne
         (skipn ClaudeCode.FILE_CONCURRENCY (f :: fs))
         (results ++
          push_all (List.map (ClaudeCode.search_file H query ns ne)
                      (firstn ClaudeCode.FILE_CONCURRENCY (f :: fs)))).
Proof. reflexivity. Qed.

Lemma search_batches_In (H : Host) (limit : Z) (query : jsstring)
    (ns ne : option jsstring) (r : SearchResult) (fuel : nat) :
  forall (filePaths : list DirEntry) (results : list SearchResult),
    In r (ClaudeCode.search_batches H fuel limit query ns ne filePaths results) ->
    In r results \/
    exists file, In file filePaths /\ In r (ClaudeCode.search_file H query ns ne file).
Proof.
  induction fuel as [|fuel IH]; intros filePaths results; [simpl; auto|].
  destruct filePaths as [|f fs]; [simpl; auto|].
  rewrite search_batches_cons.
  destruct (limit <=? jslength results); [auto|].
  intros Hin. apply IH in Hin. destruct Hin as [Hin | [file [Hfile Hr]]].
  - apply in_app_or in Hin. destruct Hin as [Hin|Hin]; [auto|].
    right. unfold push_all in Hin. apply in_concat in Hin.
    destruct Hin as [l [Hl Hrl]]. apply in_map_iff in Hl.
    destruct Hl as [file [<- Hfile]]. exists file. split; [|exact Hrl].
    eapply In_firstn. exact Hfile.
  - right. exists file. split; [|exact Hr].
    eapply In_skipn. exact Hfile.
Qed.

(** Every result of the local search carries the snippet built from the
    content of a matching record. *)
Lemma search_results_are_snippets (H : Host) (fs : ClaudeCode.FileSystem)
    (options : SearchOptions) (r : SearchResult) :
  In r (ClaudeCode.search H fs options) ->
  exists entry,
    matches H (ClaudeCode.extractContent entry) (so_query options) = true /\
    snippet r = make_snippet H (ClaudeCode.extractContent entry) (so_query options).
Proof.
  unfold ClaudeCode.search. intros Hin.
  apply slice_incl in Hin. apply sort_In in Hin.
  destruct fs as [projectDirs|]; [|destruct Hin].
  apply search_batches_In in Hin. destruct Hin as [[] | [file [_ Hr]]].
  apply search_file_In in Hr. destruct Hr as (entry & _ & Hm & Hs & _).
  exists entry. auto.
Qed.

(** Hence every snippet of the local search is a window of the content
    with its ellipses and is bounded in length. *)
Lemma search_snippets_bounded (H : Host) (fs : ClaudeCode.FileSystem)
    (options : SearchOptions) (r : SearchResult) :
  In r (ClaudeCode.search H fs options) ->
  jslength (snippet r) <= jslength (so_query options) + 100 + 6.
Proof.
  intros Hin. apply search_results_are_snippets in Hin.
  destruct Hin as (entry & Hm & ->). apply make_snippet_length. exact Hm.
Qed.

Example ascii_snippet :
  make_snippet Reference.host
    (repeat 97%N 100 ++ js "FINDME" ++ repeat 98%N 100) (js "findme")
  = js "..." ++ repeat 97%N 50 ++ js "FINDME" ++ repeat 98%N 50 ++ js "...".
Proof. vm_compute. reflexivity. Qed.

(** C5 on a content whose lowercase form is longer than the content
    itself: the record matches, the search emits one result for it, and
    its snippet is the bare ellipsis, which does not contain the word
    that was found. *)
Theorem snippet_misses_match_when_lowercasing_lengthens :
  matches Reference.host Examples.dotted_content (js "abc") = true /\
  List.map snippet
    (ClaudeCode.search Reference.host Examples.dotted_projects
       (Examples.search_for "abc")) = [js "..."] /\
  ~ occurs_in (js "abc") (js "...") /\
  ~ occurs_in (slice Examples.dotted_content 60 63) (js "...").
Proof.
  split; [vm_compute; reflexivity|].
  split; [vm_compute; reflexivity|].
  assert (Hno : ~ occurs_in (js "abc") (js "...")).
  { intros (before & after & Heq).
    assert (Hin : In 97%N (js "...")).
    { rewrite Heq. apply in_or_app. right. left. reflexivity. }
    vm_compute in Hin. intuition discriminate. }
  split; [exact Hno|].
  replace (slice Examples.dotted_content 60 63) with (js "abc")
    by (vm_compute; reflexivity).
  exact Hno.
Qed.

End Snippets.

(* ===================================================================== *)
(** * Date normalizer *)
(* ===================================================================== *)

Module DateFacts.
Import DateUtil.

(** An input that carries a time component is returned as it is. *)
Lemma normalizeDate_time_qualified (H : Host) (dateString : jsstring)
    (isEndDate : bool) (timezone : option jsstring) :
  includes dateString (js "T") = true ->
  normalizeDate H dateString isEndDate timezone = dateString.
Proof. intros HT. unfold normalizeDate. rewrite HT. reflexivity. Qed.

Lemma normalizeDate_idempotent_on_time_qualified (H : Host) (dateString : jsstring)
    (b1 b2 : bool) (tz1 tz2 : option jsstring) :
  includes dateString (js "T") = true ->
  normalizeDate H (normalizeDate H dateString b1 tz1) b2 tz2 = dateString.
Proof.
  intros HT. rewrite (normalizeDate_time_qualified H dateString b1 tz1 HT).
  apply normalizeDate_time_qualified. exact HT.
Qed.

(** A bare day in the zone UTC gets the boundary time attached. *)
Lemma normalizeDate_utc (H : Host) (dateString : jsstring) (isEndDate : bool) :
  includes dateString (js "T") = false ->
  normalizeDate H dateString isEndDate (Some (js "UTC")) =
  utc_boundary dateString isEndDate.
Proof. intros HT. unfold normalizeDate. rewrite HT. reflexivity. Qed.

Lemma jsltb_common_prefix (p x y : jsstring) :
  jsltb (p ++ x) (p ++ y) = jsltb x y.
Proof.
  induction p as [|c p IH]; simpl; [reflexivity|].
  rewrite N.ltb_irrefl, N.eqb_refl, IH. reflexivity.
Qed.

(** The start boundary of a day sorts before its end boundary. *)
Lemma utc_boundaries_ordered (dateString : jsstring) :
  jsltb (utc_boundary dateString false) (utc_boundary dateString true) = true.
Proof. unfold utc_boundary. rewrite jsltb_common_prefix. reflexivity. Qed.

(** The result for a bare day is the boundary computed for the zone,
    or the UTC boundary when that computation fails. *)
Lemma normalizeDate_bare_day (H : Host) (dateString : jsstring)
    (isEndDate : bool) (timezone : option jsstring) :
  includes dateString (js "T") = false ->
  normalizeDate H dateString isEndDate timezone = utc_boundary dateString isEndDate \/
  exists tz,
    zoned_boundary H dateString isEndDate tz =
    Ok (normalizeDate H dateString isEndDate timezone).
Proof.
  intros HT. unfold normalizeDate. rewrite HT.
  set (tz := match timezone with
             | Some z => match z with [] => systemZone H | _ => z end
             | None => systemZone H
             end).
  destruct (jseqb tz (js "UTC")); [left; reflexivity|].
  destruct (zoned_boundary H dateString isEndDate tz) as [s|err] eqn:Hz.
  - right. exists tz. exact Hz.
  - left. reflexivity.
Qed.

Lemma reference_zoned_boundary_fails (dateString : jsstring) (isEndDate : bool)
    (tz : jsstring) :
  jseqb tz (js "UTC") = false ->
  exists err, zoned_boundary Reference.host dateString isEndDate tz = Rejected err.
Proof.
  intros Htz. unfold zoned_boundary.
  cbn [toLocaleString Reference.host]. unfold Reference.toLocaleString at 1.
  rewrite Htz. cbn [negb]. eexists. reflexivity.
Qed.

(** On the reference runtime the two boundaries of a bare day are in
    order for every zone name. *)
Lemma reference_boundaries_ordered (dateString : jsstring)
    (timezone : option jsstring) :
  includes dateString (js "T") = false ->
  jsltb (normalizeDate Reference.host dateString false timezone)
        (normalizeDate Reference.host dateString true timezone) = true.
Proof.
  intros HT. unfold normalizeDate. rewrite HT.
  set (tz := match timezone with
             | Some z => match z with [] => systemZone Reference.host | _ => z end
             | None => systemZone Reference.host
             end).
  destruct (jseqb tz (js "UTC")) eqn:Htz; [apply utc_boundaries_ordered|].
  destruct (reference_zoned_boundary_fails dateString false tz Htz) as [e1 ->].
  destruct (reference_zoned_boundary_fails dateString true tz Htz) as [e2 ->].
  apply utc_boundaries_ordered.
Qed.

Example normalize_sample :
  normalizeDate Reference.host (js "2025-06-30") false (Some (js "UTC"))
  = js "2025-06-30T00:00:00.000Z" /\
  normalizeDate Reference.host (js "2025-06-30") true (Some (js "UTC"))
  = js "2025-06-30T23:59:59.999Z" /\
  normalizeDate Reference.host (js "2025-06-30T10:00:00.000Z") true None
  = js "2025-06-30T10:00:00.000Z".
Proof. vm_compute. repeat split; reflexivity. Qed.

End DateFacts.

(* ===================================================================== *)
(** * Remote client: request budget, pacing and retries *)
(* ===================================================================== *)

Module ClientBudget.
Import Auth ClientRuns ClientFacts.

Lemma attempts_requests_bound {T} (server : Server T) (url : jsstring) (left : nat) :
  forall attempt s w,
    (requests (snd (snd (attempts server url left attempt (s, w))))
     <= requests w + left)%nat.
Proof.
  induction left as [|left' IH]; intros attempt s w.
  - simpl. lia.
  - rewrite attempts_step. cbv zeta.
    assert (Hretry : forall s2 w2, requests w2 = S (requests w) ->
              (requests (snd (snd (attempts server url left' (attempt + 1) (s2, w2))))
               <= requests w + S left')%nat).
    { intros s2 w2 Hw2. specialize (IH (attempt + 1) s2 w2). lia. }
    destruct (outcome (server (requests w) url)) as [status body|name].
    + destruct ((status =? 401) || (status =? 403)); [simpl; lia|].
      destruct (status =? 429); [apply Hretry; reflexivity|].
      destruct (negb (ok status)); [simpl; lia|].
      destruct body; [simpl; lia|].
      destruct (jseqb (js "SyntaxError") (js "TimeoutError") ||
                jseqb (js "SyntaxError") (js "AbortError")); [simpl; lia|].
      destruct (attempt <? 2); apply Hretry; reflexivity.
    + destruct (jseqb name (js "TimeoutError") || jseqb name (js "AbortError"));
        [simpl; lia|].
      destruct (attempt <? 2); apply Hretry; reflexivity.
Qed.

Lemma attempts_at_least_one {T} (server : Server T) (url : jsstring) (left' : nat)
    (attempt : Z) (s : CloudSession) (w : World) :
  (requests w < requests (snd (snd (attempts server url (S left') attempt (s, w)))))%nat.
Proof.
  rewrite attempts_step. cbv zeta.
  assert (Hretry : forall s2 w2, requests w2 = S (requests w) ->
            (requests w < requests (snd (snd
               (attempts server url left' (attempt + 1) (s2, w2)))))%nat).
  { intros s2 w2 Hw2.
    pose proof (attempts_requests_mono server url left' (attempt + 1) s2 w2). lia. }
  destruct (outcome (server (requests w) url)) as [status body|name].
  - destruct ((status =? 401) || (status =? 403)); [simpl; lia|].
    destruct (status =? 429); [apply Hretry; reflexivity|].
    destruct (negb (ok status)); [simpl; lia|].
    destruct body; [simpl; lia|].
    destruct (jseqb (js "SyntaxError") (js "TimeoutError") ||
              jseqb (js "SyntaxError") (js "AbortError")); [simpl; lia|].
    destruct (attempt <? 2); apply Hretry; reflexivity.
  - destruct (jseqb name (js "TimeoutError") || jseqb name (js "AbortError"));
      [simpl; lia|].
    destruct (attempt <? 2); apply Hretry; reflexivity.
Qed.

(** X1. One call of [fetchApi] on an available client issues at least
    one and at most three requests, whatever the server answers; on a
    client that is not available it issues none. *)
Theorem fetchApi_request_budget :
  forall (T : Type) (server : Server T) (path : jsstring)
         (s : CloudSession) (w : World),
    let made := requests (snd (snd (fetchApi server path (s, w)))) in
    (available s = false -> made = requests w) /\
    (available s = true -> (requests w < made <= requests w + 3)%nat).
Proof.
  intros T server path s w. cbv zeta. rewrite fetchApi_unfold. split.
  - intros Hav. rewrite Hav. reflexivity.
  - intros Hav. rewrite Hav. cbn [negb].
    set (w0 := if clock w - lastRequestTime s <? REQUEST_DELAY_MS
               then after_sleep (REQUEST_DELAY_MS - (clock w - lastRequestTime s)) w
               else w).
    assert (Hreq : requests w0 = requests w).
    { unfold w0. destruct (clock w - lastRequestTime s <? REQUEST_DELAY_MS);
        reflexivity. }
    pose proof (attempts_at_least_one server (CLAUDE_API_BASE ++ path) 2 0 s w0).
    pose proof (attempts_requests_bound server (CLAUDE_API_BASE ++ path) 3 0 s w0).
    lia.
Qed.

Lemma fetchApi_request_budget_witness :
  (requests Examples.start <
   requests (snd (snd (fetchApi Examples.limited_thrice (js "/api/test")
                         (Examples.fresh_session, Examples.start))))
   <= requests Examples.start + 3)%nat /\
  requests (snd (snd (fetchApi Examples.limited_thrice (js "/api/test")
                        (demoted Examples.fresh_session, Examples.start))))
  = requests Examples.start.
Proof.
  split.
  - apply (proj2 (fetchApi_request_budget jsstring Examples.limited_thrice
                    (js "/api/test") Examples.fresh_session Examples.start)).
    reflexivity.
  - apply (proj1 (fetchApi_request_budget jsstring Examples.limited_thrice
                    (js "/api/test") (demoted Examples.fresh_session)
                    Examples.start)).
    reflexivity.
Defined.

(** ** Pacing *)

Lemma backoff_nonneg (attempt : Z) : 0 <= backoff attempt.
Proof.
  unfold backoff. pose proof (Z.pow_nonneg 2 (attempt + 1)). lia.
Qed.

Lemma attempts_pacing {T} (server : Server T) (url : jsstring) :
  (forall n u, 0 <= took (server n u)) ->
  forall (left : nat) (attempt : Z) (s : CloudSession) (w : World),
    let res := attempts server url left attempt (s, w) in
    clock w <= clock (snd (snd res)) /\
    (left = 0%nat -> lastRequestTime (fst (snd res)) = lastRequestTime s) /\
    ((0 < left)%nat ->
     clock w <= lastRequestTime (fst (snd res)) <= clock (snd (snd res))).
Proof.
  intros Htook. induction left as [|left' IH]; intros attempt s w; cbv zeta.
  - simpl. split; [lia|]. split; [reflexivity | lia].
  - rewrite attempts_step. cbv zeta.
    pose proof (Htook (requests w) url) as Ht.
    pose proof (backoff_nonneg attempt) as Hb.
    set (x := server (requests w) url) in *.
    set (s1 := with_lastRequestTime s (clock w)).
    assert (Hstop : forall (r : option T) (s2 : CloudSession),
              lastRequestTime s2 = clock w ->
              let res := (r, (s2, after_fetch x url w)) in
              clock w <= clock (snd (snd res)) /\
              (S left' = 0%nat -> lastRequestTime (fst (snd res)) = lastRequestTime s) /\
              ((0 < S left')%nat ->
               clock w <= lastRequestTime (fst (snd res)) <= clock (snd (snd res)))).
    { intros r s2 Hs2. cbv zeta. simpl. rewrite Hs2. repeat split; lia. }
    assert (Hretry : forall w2, clock w <= clock w2 ->
              let res := attempts server url left' (attempt + 1) (s1, w2) in
              clock w <= clock (snd (snd res)) /\
              (S left' = 0%nat -> lastRequestTime (fst (snd res)) = lastRequestTime s) /\
              ((0 < S left')%nat ->
               clock w <= lastRequestTime (fst (snd res)) <= clock (snd (snd res)))).
    { intros w2 Hw2. cbv zeta.
      destruct (IH (attempt + 1) s1 w2) as (Hclock & Hzero & Hpos).
      split; [lia|]. split; [lia|]. intros _.
      destruct left' as [|left''].
      - rewrite (Hzero eq_refl). simpl. lia.
      - specialize (Hpos ltac:(lia)). lia. }
    destruct (outcome x) as [status body|name].
    + destruct ((status =? 401) || (status =? 403)); [apply Hstop; reflexivity|].
      destruct (status =? 429); [apply Hretry; simpl; lia|].
      destruct (negb (ok status)); [apply Hstop; reflexivity|].
      destruct body; [apply Hstop; reflexivity|].
      destruct (jseqb (js "SyntaxError") (js "TimeoutError") ||
                jseqb (js "SyntaxError") (js "AbortError"));
        [apply Hstop; reflexivity|].
      destruct (attempt <? 2); apply Hretry; simpl; lia.
    + destruct (jseqb name (js "TimeoutError") || jseqb name (js "AbortError"));
        [apply Hstop; reflexivity|].
      destruct (attempt <? 2); apply Hretry; simpl; lia.
Qed.

(** X2. The rate limiter: when no exchange takes negative time, a call
    of [fetchApi] on an available client records a request start time
    at least [REQUEST_DELAY_MS] (100 ms) after the one recorded before
    the call, and never later than the clock when the call returns. *)
Theorem fetchApi_paces_requests :
  forall (T : Type) (server : Server T) (path : jsstring)
         (s : CloudSession) (w : World),
    available s = true ->
    (forall n u, 0 <= took (server n u)) ->
    let res := fetchApi server path (s, w) in
    lastRequestTime s + REQUEST_DELAY_MS <= lastRequestTime (fst (snd res)) /\
    lastRequestTime (fst (snd res)) <= clock (snd (snd res)).
Proof.
  intros T server path s w Hav Htook. cbv zeta.
  rewrite fetchApi_unfold, Hav. cbn [negb].
  set (w0 := if clock w - lastRequestTime s <? REQUEST_DELAY_MS
             then after_sleep (REQUEST_DELAY_MS - (clock w - lastRequestTime s)) w
             else w).
  assert (Hw0 : lastRequestTime s + REQUEST_DELAY_MS <= clock w0).
  { unfold w0. destruct (clock w - lastRequestTime s <? REQUEST_DELAY_MS) eqn:E.
    - unfold after_sleep. cbn [clock]. lia.
    - apply Z.ltb_ge in E. lia. }
  destruct (attempts_pacing server (CLAUDE_API_BASE ++ path) Htook 3 0 s w0)
    as (_ & _ & Hpos).
  specialize (Hpos ltac:(lia)). lia.
Qed.

Lemma fetchApi_paces_requests_witness :
  let res := fetchApi Examples.limited_twice (js "/api/test")
               (Examples.fresh_session, Examples.start) in
  lastRequestTime Examples.fresh_session + REQUEST_DELAY_MS
  <= lastRequestTime (fst (snd res)) /\
  lastRequestTime (fst (snd res)) <= clock (snd (snd res)).
Proof.
  apply (fetchApi_paces_requests jsstring Examples.limited_twice (js "/api/test")
           Examples.fresh_session Examples.start).
  - reflexivity.
  - intros n u. simpl. lia.
Defined.

(** ** Outcomes that end the call, outcomes that are retried *)

Import Outcomes.

Lemma not_status (status c : Z) : status <> c -> (status =? c) = false.
Proof. intros Hne. apply Z.eqb_neq. exact Hne. Qed.

(** X3. A response whose status is neither a success nor 401, 403 or
    429, and a request that times out, end the call at once: no
    result, one request, no backoff sleep, and the client stays
    available. *)
Theorem fetchApi_gives_up_without_retry :
  forall (T : Type) (server : Server T) (path : jsstring)
         (s : CloudSession) (w : World),
    available s = true ->
    gives_up (outcome (server (requests w) (CLAUDE_API_BASE ++ path))) ->
    let res := fetchApi server path (s, w) in
    fst res = None /\
    available (fst (snd res)) = true /\
    requests (snd (snd res)) = S (requests w) /\
    trace (snd (snd res)) =
    trace w ++ rate_limit_trace s w ++ [Fetched (CLAUDE_API_BASE ++ path)].
Proof.
  intros T server path s w Hav Hgive. cbv zeta.
  rewrite fetchApi_unfold, Hav. cbn [negb].
  set (url := CLAUDE_API_BASE ++ path) in *.
  set (w0 := if clock w - lastRequestTime s <? REQUEST_DELAY_MS
             then after_sleep (REQUEST_DELAY_MS - (clock w - lastRequestTime s)) w
             else w).
  assert (Hreq : requests w0 = requests w).
  { unfold w0. destruct (clock w - lastRequestTime s <? REQUEST_DELAY_MS);
      reflexivity. }
  assert (Htr : trace w0 = trace w ++ rate_limit_trace s w).
  { unfold w0, rate_limit_trace.
    destruct (clock w - lastRequestTime s <? REQUEST_DELAY_MS); simpl;
      [reflexivity | rewrite app_nil_r; reflexivity]. }
  rewrite attempts_step. cbv zeta. rewrite Hreq.
  destruct Hgive as [(status & body & Hout & Hok & H401 & H403 & H429)
                    | (name & Hout & Hto)]; rewrite Hout.
  - rewrite (not_status status 401 H401), (not_status status 403 H403),
      (not_status status 429 H429), Hok. simpl.
    rewrite Hav, Hreq, Htr, <- app_assoc. auto.
  - unfold timed_out in Hto. rewrite Hto. simpl.
    rewrite Hav, Hreq, Htr, <- app_assoc. auto.
Qed.

Lemma fetchApi_gives_up_without_retry_witness :
  let res := fetchApi Samples.server_error (js "/api/test")
               (Examples.fresh_session, Examples.start) in
  fst res = None /\
  available (fst (snd res)) = true /\
  requests (snd (snd res)) = 1%nat /\
  trace (snd (snd res)) =
  trace Examples.start ++ rate_limit_trace Examples.fresh_session Examples.start ++
  [Fetched (CLAUDE_API_BASE ++ js "/api/test")].
Proof.
  apply (fetchApi_gives_up_without_retry jsstring Samples.server_error
           (js "/api/test") Examples.fresh_session Examples.start).
  - reflexivity.
  - left. exists 500, None. repeat split; try reflexivity; discriminate.
Defined.

Lemma attempts_transient_step {T} (server : Server T) (url : jsstring)
    (left' : nat) (attempt : Z) (s : CloudSession) (w : World) :
  transient (outcome (server (requests w) url)) ->
  attempts server url (S left') attempt (s, w) =
  attempts server url left' (attempt + 1)
    (with_lastRequestTime s (clock w),
     if attempt <? 2
     then after_sleep (backoff attempt) (after_fetch (server (requests w) url) url w)
     else after_fetch (server (requests w) url) url w).
Proof.
  intros Htr. rewrite attempts_step. cbv zeta.
  destruct Htr as [(name & Hout & Hto) | (status & Hout & Hok)]; rewrite Hout.
  - unfold timed_out in Hto. rewrite Hto. destruct (attempt <? 2); reflexivity.
  - destruct (ok_status status Hok) as [Ha Hr]. rewrite Ha, Hr, Hok.
    cbn [negb].
    change (jseqb (js "SyntaxError") (js "TimeoutError") ||
            jseqb (js "SyntaxError") (js "AbortError")) with false.
    cbv iota. destruct (attempt <? 2); reflexivity.
Qed.

Lemma attempts_after_transients {T} (server : Server T) (url : jsstring) :
  forall (k left : nat) (attempt : Z) (s : CloudSession) (w : World)
         (status : Z) (payload : T),
    (k < left)%nat ->
    attempt + Z.of_nat k <= 2 ->
    ok status = true ->
    (forall i, (i < k)%nat ->
               transient (outcome (server (requests w + i)%nat url))) ->
    outcome (server (requests w + k)%nat url) = Response status (Some payload) ->
    let res := attempts server url left attempt (s, w) in
    fst res = Some payload /\
    trace (snd (snd res)) = trace w ++ retry_trace url k attempt.
Proof.
  induction k as [|k' IH];
    intros left attempt s w status payload Hlt Hatt Hok Htr Hsucc;
    cbv zeta; (destruct left as [|left']; [lia|]).
  - rewrite attempts_step. cbv zeta.
    rewrite Nat.add_0_r in Hsucc. rewrite Hsucc.
    destruct (ok_status status Hok) as [Ha Hr]. rewrite Ha, Hr, Hok.
    simpl. auto.
  - rewrite attempts_transient_step
      by (rewrite <- (Nat.add_0_r (requests w)); apply Htr; lia).
    assert (Hlt2 : (attempt <? 2) = true) by (apply Z.ltb_lt; lia).
    rewrite Hlt2.
    set (w2 := after_sleep (backoff attempt)
                 (after_fetch (server (requests w) url) url w)).
    assert (Hreq : requests w2 = S (requests w)) by reflexivity.
    specialize (IH left' (attempt + 1) (with_lastRequestTime s (clock w)) w2
                  status payload ltac:(lia) ltac:(lia) Hok).
    cbv zeta in IH. destruct IH as [Hres Htrace].
    + intros i Hi. rewrite Hreq.
      replace (S (requests w) + i)%nat with (requests w + S i)%nat by lia.
      apply Htr. lia.
    + rewrite Hreq.
      replace (S (requests w) + k')%nat with (requests w + S k')%nat by lia.
      exact Hsucc.
    + split; [exact Hres|]. rewrite Htrace. unfold w2. simpl.
      rewrite <- !app_assoc. reflexivity.
Qed.

(** X4. Network errors and unparsable bodies are retried inside the
    budget of three attempts.  After at most two of them a success
    gives its payload, with sleeps of 2 s and 4 s in between; after
    three the call returns no result, having slept 2 s and 4 s but not
    after the last attempt, and the client stays available. *)
Theorem fetchApi_retries_transient_errors :
  forall (T : Type) (server : Server T) (path : jsstring)
         (s : CloudSession) (w : World),
    available s = true ->
    let url := CLAUDE_API_BASE ++ path in
    let res := fetchApi server path (s, w) in
    (forall (k : nat) (status : Z) (payload : T),
        (k <= 2)%nat ->
        ok status = true ->
        (forall i, (i < k)%nat ->
                   transient (outcome (server (requests w + i)%nat url))) ->
        outcome (server (requests w + k)%nat url) = Response status (Some payload) ->
        fst res = Some payload /\
        trace (snd (snd res)) =
        trace w ++ rate_limit_trace s w ++ retry_trace url k 0) /\
    ((forall i, (i < 3)%nat ->
                transient (outcome (server (requests w + i)%nat url))) ->
     fst res = None /\
     available (fst (snd res)) = true /\
     requests (snd (snd res)) = (requests w + 3)%nat /\
     trace (snd (snd res)) =
     trace w ++ rate_limit_trace s w ++
     [Fetched url; Slept 2000; Fetched url; Slept 4000; Fetched url]).
Proof.
  intros T server path s w Hav. cbv zeta.
  rewrite fetchApi_unfold, Hav. cbn [negb].
  set (url := CLAUDE_API_BASE ++ path).
  set (w0 := if clock w - lastRequestTime s <? REQUEST_DELAY_MS
             then after_sleep (REQUEST_DELAY_MS - (clock w - lastRequestTime s)) w
             else w).
  assert (Hreq : requests w0 = requests w).
  { unfold w0. destruct (clock w - lastRequestTime s <? REQUEST_DELAY_MS);
      reflexivity. }
  assert (Htr : trace w0 = trace w ++ rate_limit_trace s w).
  { unfold w0, rate_limit_trace.
    destruct (clock w - lastRequestTime s <? REQUEST_DELAY_MS); simpl;
      [reflexivity | rewrite app_nil_r; reflexivity]. }
  split.
  - intros k status payload Hk Hok Htrans Hsucc.
    destruct (attempts_after_transients server url k 3 0 s w0 status payload)
      as [Hres Htrace]; try assumption; try lia.
    + intros i Hi. rewrite Hreq. apply Htrans. exact Hi.
    + rewrite Hreq. exact Hsucc.
    + split; [exact Hres|]. rewrite Htrace, Htr, <- app_assoc. reflexivity.
  - intros Htrans.
    rewrite attempts_transient_step
      by (rewrite Hreq, <- (Nat.add_0_r (requests w)); apply Htrans; lia).
    change (0 <? 2) with true. cbv iota.
    rewrite attempts_transient_step
      by (cbn [requests after_sleep after_fetch]; rewrite Hreq;
          replace (S (requests w)) with (requests w + 1)%nat by lia;
          apply Htrans; lia).
    change (0 + 1 <? 2) with true. cbv iota.
    rewrite attempts_transient_step
      by (cbn [requests after_sleep after_fetch]; rewrite Hreq;
          replace (S (S (requests w))) with (requests w + 2)%nat by lia;
          apply Htrans; lia).
    change (0 + 1 + 1 <? 2) with false. cbv iota.
    cbn [attempts ret fst snd with_lastRequestTime available requests trace
         after_sleep after_fetch].
    rewrite Hav, Hreq, Htr.
    split; [reflexivity|]. split; [reflexivity|]. split; [lia|].
    rewrite <- !app_assoc. reflexivity.
Qed.

Lemma fetchApi_retries_transient_errors_witness :
  fst (fetchApi Samples.flaky_then_fine (js "/api/test")
         (Examples.fresh_session, Examples.start)) = Some (js "payload") /\
  (let res := fetchApi Samples.unreachable (js "/api/test")
                (Examples.fresh_session, Examples.start) in
   fst res = None /\
   available (fst (snd res)) = true /\
   requests (snd (snd res)) = 3%nat /\
   trace (snd (snd res)) =
   trace Examples.start ++ rate_limit_trace Examples.fresh_session Examples.start ++
   [Fetched (CLAUDE_API_BASE ++ js "/api/test"); Slept 2000;
    Fetched (CLAUDE_API_BASE ++ js "/api/test"); Slept 4000;
    Fetched (CLAUDE_API_BASE ++ js "/api/test")]).
Proof.
  split.
  - apply (proj1 (fetchApi_retries_transient_errors jsstring Samples.flaky_then_fine
                    (js "/api/test") Examples.fresh_session Examples.start eq_refl)
             2%nat 200 (js "payload")).
    + lia.
    + reflexivity.
    + intros i Hi. destruct i as [|[|i]]; [| |lia].
      * left. exists (js "TypeError"). split; reflexivity.
      * right. exists 200. split; reflexivity.
    + reflexivity.
  - apply (proj2 (fetchApi_retries_transient_errors jsstring Samples.unreachable
                    (js "/api/test") Examples.fresh_session Examples.start eq_refl)).
    intros i Hi. left. exists (js "TypeError").
    split; [|reflexivity].
    destruct i as [|[|[|i]]]; [reflexivity | reflexivity | reflexivity | lia].
Defined.

End ClientBudget.

(* ===================================================================== *)
(** * Remote client: organization id and configuration *)
(* ===================================================================== *)

Module ClientSetup.
Import Auth ClientRuns ClientFacts AuthEnv.

Lemma getOrgId_cached (organizations : Server (list CloudOrganization))
    (s : CloudSession) (w : World) (o : jsstring) :
  truthy (orgId s) = Some o ->
  getOrgId organizations (s, w) = (Some o, (s, w)).
Proof. intros Ho. rewrite getOrgId_unfold, Ho. reflexivity. Qed.

Lemma fetchApi_asks {T} (server : Server T) (path : jsstring)
    (s : CloudSession) (w : World) :
  available s = true ->
  (requests w < requests (snd (snd (fetchApi server path (s, w)))))%nat.
Proof.
  intros Hav. rewrite fetchApi_unfold, Hav. cbn [negb].
  set (w0 := if clock w - lastRequestTime s <? REQUEST_DELAY_MS
             then after_sleep (REQUEST_DELAY_MS - (clock w - lastRequestTime s)) w
             else w).
  assert (Hreq : requests w0 = requests w).
  { unfold w0. destruct (clock w - lastRequestTime s <? REQUEST_DELAY_MS);
      reflexivity. }
  pose proof (ClientBudget.attempts_at_least_one server (CLAUDE_API_BASE ++ path)
                2 0 s w0).
  lia.
Qed.

Lemma getOrgId_asks (organizations : Server (list CloudOrganization))
    (s : CloudSession) (w : World) :
  truthy (orgId s) = None -> available s = true ->
  (requests w < requests (snd (snd (getOrgId organizations (s, w)))))%nat.
Proof.
  intros Hnone Hav. rewrite getOrgId_unfold, Hnone. cbv zeta.
  pose proof (fetchApi_asks organizations (js "/api/organizations") s w Hav)
    as Hasks.
  destruct (fst (fetchApi organizations (js "/api/organizations") (s, w)))
    as [[|firstOrg rest]|]; cbn [fst snd]; exact Hasks.
Qed.

(** X5. [getOrgId] asks the server only while no non-empty id is
    stored.  A stored non-empty id, configured or discovered, is
    returned without any request and without any change to the client;
    so once [getOrgId] has returned a non-empty id, every later call on
    the instance returns the same id that way, whatever the server
    would answer.  An empty uuid taken from the server's list is stored
    and returned, but counts as no id: the client stays available and
    the next call asks the server again. *)
Theorem getOrgId_discovers_once :
  (forall (organizations : Server (list CloudOrganization))
          (s : CloudSession) (w : World) (o : jsstring),
      truthy (orgId s) = Some o ->
      getOrgId organizations (s, w) = (Some o, (s, w))) /\
  (forall (organizations later : Server (list CloudOrganization))
          (s : CloudSession) (w : World) (o : jsstring),
      fst (getOrgId organizations (s, w)) = Some o ->
      o <> [] ->
      getOrgId later (snd (getOrgId organizations (s, w))) =
      (Some o, snd (getOrgId organizations (s, w)))) /\
  (forall (organizations later : Server (list CloudOrganization))
          (s : CloudSession) (w : World),
      fst (getOrgId organizations (s, w)) = Some [] ->
      let st' := snd (getOrgId organizations (s, w)) in
      orgId (fst st') = Some [] /\
      available (fst st') = true /\
      (requests (snd st') < requests (snd (snd (getOrgId later st'))))%nat).
Proof.
  split; [exact getOrgId_cached|]. split.
  - intros organizations later s w o Hres Hne.
    rewrite getOrgId_unfold in *.
    destruct (truthy (orgId s)) as [o'|] eqn:Hcached.
    + cbn [fst snd] in *. injection Hres as ->.
      apply getOrgId_cached. exact Hcached.
    + cbv zeta in *.
      destruct (fst (fetchApi organizations (js "/api/organizations") (s, w)))
        as [[|firstOrg rest]|]; cbn [fst snd] in *; try discriminate.
      injection Hres as Huuid.
      apply getOrgId_cached. cbn [orgId]. rewrite Huuid.
      destruct o as [|c r]; [congruence | reflexivity].
  - intros organizations later s w Hres. cbv zeta.
    assert (Hstate : orgId (fst (snd (getOrgId organizations (s, w)))) = Some [] /\
                     available (fst (snd (getOrgId organizations (s, w)))) = true).
    { rewrite getOrgId_unfold in *.
      destruct (truthy (orgId s)) as [o'|] eqn:Hcached.
      - cbn [fst] in Hres. injection Hres as ->.
        destruct (orgId s) as [[|c r]|]; discriminate.
      - cbv zeta in *.
        destruct (fetchApi organizations (js "/api/organizations") (s, w))
          as [[[|firstOrg rest]|] [s1 w1]] eqn:Hfetch;
          cbn [fst snd] in *; try discriminate.
        injection Hres as Huuid. rewrite Huuid. split; [reflexivity|].
        pose proof (fetchApi_payload_available _ _ _ _ _ _ _ Hfetch) as Hsame.
        rewrite fetchApi_unfold in Hfetch.
        destruct (available s); [exact Hsame | discriminate]. }
    destruct Hstate as [Horg Hav]. split; [exact Horg|]. split; [exact Hav|].
    destruct (snd (getOrgId organizations (s, w))) as [s' w'].
    cbn [fst snd] in *. apply getOrgId_asks; [|exact Hav].
    rewrite Horg. reflexivity.
Qed.

Lemma getOrgId_discovers_once_witness :
  getOrgId Examples.no_organizations
    (snd (getOrgId Samples.one_organization
            (Examples.fresh_session, Examples.start))) =
  (Some (js "org-1"),
   snd (getOrgId Samples.one_organization (Examples.fresh_session, Examples.start)))
  /\
  (requests (snd (snd (getOrgId Samples.nameless_organization
                         (Examples.fresh_session, Examples.start))))
   < requests
       (snd (snd (getOrgId Samples.nameless_organization
                    (snd (getOrgId Samples.nameless_organization
                            (Examples.fresh_session, Examples.start)))))))%nat.
Proof.
  split.
  - apply (proj1 (proj2 getOrgId_discovers_once) Samples.one_organization
             Examples.no_organizations Examples.fresh_session Examples.start
             (js "org-1")).
    + reflexivity.
    + discriminate.
  - apply (proj2 (proj2 getOrgId_discovers_once) Samples.nameless_organization
             Samples.nameless_organization Examples.fresh_session Examples.start).
    reflexivity.
Defined.

(** X6. [createCloudSession] gives a client exactly when a non-empty
    session key is configured and [CLAUDE_WEB_ENABLED] is neither
    ['false'] nor ['0'].  The client carries the key and starts
    available, and with a non-empty [CLAUDE_ORG_ID] its [getOrgId]
    returns that id without any request. *)
Theorem createCloudSession_configures_client :
  forall (env : Env),
    (createCloudSession env <> None <->
     (truthy (CLAUDE_SESSION_KEY env) <> None /\
      CLAUDE_WEB_ENABLED env <> Some (js "false") /\
      CLAUDE_WEB_ENABLED env <> Some (js "0"))) /\
    (forall s,
        createCloudSession env = Some s ->
        CLAUDE_SESSION_KEY env = Some (sessionKey s) /\
        available s = true /\
        forall (org : jsstring) (organizations : Server (list CloudOrganization))
               (w : World),
          truthy (CLAUDE_ORG_ID env) = Some org ->
          getOrgId organizations (s, w) = (Some org, (s, w))).
Proof.
  intros env. unfold createCloudSession. split.
  - destruct (truthy (CLAUDE_SESSION_KEY env)) as [key|].
    + unfold is_string.
      destruct (CLAUDE_WEB_ENABLED env) as [v|]; cbn [orb].
      * destruct (jseqb v (js "false")) eqn:E1; cbn [orb].
        { apply jseqb_eq in E1. subst v. split; [congruence|].
          intros (_ & Hf & _). congruence. }
        destruct (jseqb v (js "0")) eqn:E2.
        { apply jseqb_eq in E2. subst v. split; [congruence|].
          intros (_ & _ & Hz). congruence. }
        apply jseqb_neq in E1, E2.
        split; [intros _|discriminate].
        repeat split; congruence.
      * split; [intros _|discriminate]. repeat split; discriminate.
    + split; [congruence|]. intros (Hk & _). congruence.
  - intros s Hs.
    destruct (CLAUDE_SESSION_KEY env) as [[|c r]|] eqn:Hkey; cbn [truthy] in Hs;
      try discriminate.
    destruct (is_string (CLAUDE_WEB_ENABLED env) "false" ||
              is_string (CLAUDE_WEB_ENABLED env) "0"); [discriminate|].
    injection Hs as <-. cbn [sessionKey available new_CloudSession].
    split; [reflexivity|]. split; [reflexivity|].
    intros org organizations w Horg.
    apply getOrgId_cached. cbn [orgId new_CloudSession].
    destruct (CLAUDE_ORG_ID env) as [[|c' r']|]; cbn [truthy] in *; congruence.
Qed.

Lemma createCloudSession_configures_client_witness :
  match createCloudSession Samples.configured with
  | Some s =>
      getOrgId Examples.no_organizations (s, Examples.start) =
      (Some (js "org-7"), (s, Examples.start))
  | None => False
  end.
Proof.
  destruct (createCloudSession Samples.configured) as [s|] eqn:Hs;
    [|vm_compute in Hs; discriminate].
  apply (proj2 (createCloudSession_configures_client Samples.configured) s Hs).
  reflexivity.
Defined.

End ClientSetup.

(* ===================================================================== *)
(** * Remote source *)
(* ===================================================================== *)

Module RemoteFacts.
Import Auth ClientRuns ClientFacts.

Lemma demoted_unavailable (s : CloudSession) :
  available s = false -> demoted s = s.
Proof. destruct s as [k o a t]. simpl. intros ->. reflexivity. Qed.

(** On a client that is not available [getOrgId] returns the stored id,
    if there is a non-empty one, and changes nothing. *)
Lemma getOrgId_unavailable (organizations : Server (list CloudOrganization))
    (s : CloudSession) (w : World) :
  available s = false ->
  getOrgId organizations (s, w) = (truthy (orgId s), (s, w)).
Proof.
  intros Hav. rewrite getOrgId_unfold.
  destruct (truthy (orgId s)); [reflexivity|].
  cbv zeta. rewrite fetchApi_unavailable by exact Hav. cbn [fst snd].
  rewrite demoted_unavailable by exact Hav. reflexivity.
Qed.

Section WithHost.
Variable H : Host.
Variable api : ClaudeApi.Api.
Variable encodeURIComponent : jsstring -> result jsstring.

Lemma listProjects_unavailable (s : CloudSession) (w : World) :
  available s = false ->
  ClaudeApi.listProjects H api (s, w) = ([], (s, w)).
Proof.
  intros Hav. unfold ClaudeApi.listProjects, bind.
  rewrite getOrgId_unavailable by exact Hav.
  destruct (truthy (truthy (orgId s))); [|reflexivity].
  rewrite fetchApi_unavailable by exact Hav. reflexivity.
Qed.

Lemma listSessions_unavailable (options : ListSessionsOptions)
    (s : CloudSession) (w : World) :
  available s = false ->
  ClaudeApi.listSessions H api options (s, w) = ([], (s, w)).
Proof.
  intros Hav. unfold ClaudeApi.listSessions, bind.
  rewrite getOrgId_unavailable by exact Hav.
  destruct (truthy (truthy (orgId s))); [|reflexivity].
  rewrite fetchApi_unavailable by exact Hav. reflexivity.
Qed.

Lemma getConversation_unavailable (options : GetConversationOptions)
    (s : CloudSession) (w : World) :
  available s = false ->
  ClaudeApi.getConversation H api options (s, w) = (None, (s, w)).
Proof.
  intros Hav. unfold ClaudeApi.getConversation, bind.
  rewrite getOrgId_unavailable by exact Hav.
  destruct (truthy (truthy (orgId s))); [|reflexivity].
  rewrite fetchApi_unavailable by exact Hav. reflexivity.
Qed.

Lemma search_unavailable (options : SearchOptions)
    (s : CloudSession) (w : World) :
  available s = false ->
  ClaudeApiSearch.search H api encodeURIComponent options (s, w) =
  (match truthy (orgId s), encodeURIComponent (so_query options) with
   | Some _, Rejected err => Rejected err
   | _, _ => Ok []
   end, (s, w)).
Proof.
  intros Hav. unfold ClaudeApiSearch.search, bind.
  rewrite getOrgId_unavailable by exact Hav.
  destruct (orgId s) as [[|c o]|]; cbn [truthy]; try reflexivity.
  destruct (encodeURIComponent (so_query options)) as [encoded|err];
    [|reflexivity].
  rewrite fetchApi_unavailable by exact Hav. reflexivity.
Qed.

End WithHost.

(** X7. A remote source whose client is no longer available answers
    every operation with nothing (no project, no session, no
    conversation, no search result) and leaves the client and the world
    exactly as they were: no request, no sleep, no field of the session
    changed.  The one exception is a search whose query cannot be
    URI-encoded on a client that has a non-empty organization id
    stored: it is rejected with the encoder's error; with no id stored
    the search answers empty before it encodes the query. *)
Theorem unavailable_remote_source_is_silent :
  forall (H : Host) (api : ClaudeApi.Api)
         (encodeURIComponent : jsstring -> result jsstring)
         (s : CloudSession) (w : World),
    available s = false ->
    ClaudeApi.listProjects H api (s, w) = ([], (s, w)) /\
    (forall options,
        ClaudeApi.listSessions H api options (s, w) = ([], (s, w))) /\
    (forall options,
        ClaudeApi.getConversation H api options (s, w) = (None, (s, w))) /\
    (forall options,
        ClaudeApiSearch.search H api encodeURIComponent options (s, w) =
        (match truthy (orgId s), encodeURIComponent (so_query options) with
         | Some _, Rejected err => Rejected err
         | _, _ => Ok []
         end, (s, w))).
Proof.
  intros H api enc s w Hav.
  split; [apply listProjects_unavailable; exact Hav|].
  split; [intros options; apply listSessions_unavailable; exact Hav|].
  split; [intros options; apply getConversation_unavailable; exact Hav|].
  intros options. apply search_unavailable. exact Hav.
Qed.

Lemma unavailable_remote_source_is_silent_witness :
  ClaudeApi.getConversation Reference.host Examples.account
    (Examples.conversation "conv-1")
    (demoted Examples.fresh_session, Examples.start)
  = (None, (demoted Examples.fresh_session, Examples.start)) /\
  ClaudeApiSearch.search Reference.host Examples.account
    (fun _ => Rejected (js "URIError")) (Examples.search_for "plan")
    (demoted Examples.fresh_session, Examples.start)
  = (Ok [], (demoted Examples.fresh_session, Examples.start)).
Proof.
  split.
  - apply (proj1 (proj2 (proj2 (unavailable_remote_source_is_silent Reference.host
                                  Examples.account (fun q => Ok q)
                                  (demoted Examples.fresh_session) Examples.start
                                  eq_refl)))).
  - apply (proj2 (proj2 (proj2 (unavailable_remote_source_is_silent Reference.host
                                  Examples.account
                                  (fun _ => Rejected (js "URIError"))
                                  (demoted Examples.fresh_session) Examples.start
                                  eq_refl)))).
Defined.

(** ** The virtual project and the session listing *)

Import Served Vocabulary.

Lemma latest_fold (H : Host)
    (f : Date -> CloudConversationSummary -> Date)
    (Hf : forall a conv,
        f (Some a) conv =
        match parseDate H (cs_updated_at conv) with
        | Some u => if a <? u then Some u else Some a
        | None => Some a
        end)
    (convs : list CloudConversationSummary) :
  forall a : Z,
    exists m,
      fold_left f convs (Some a) = Some m /\
      a <= m /\
      (forall c u, In c convs -> parseDate H (cs_updated_at c) = Some u -> u <= m) /\
      (m = a \/ exists c, In c convs /\ parseDate H (cs_updated_at c) = Some m).
Proof.
  induction convs as [|conv rest IH]; intros a; simpl.
  - exists a. repeat split; [lia | intros c u [] | left; reflexivity].
  - rewrite Hf.
    destruct (parseDate H (cs_updated_at conv)) as [u0|] eqn:Hu.
    + destruct (a <? u0) eqn:E.
      * apply Z.ltb_lt in E. destruct (IH u0) as (m & Hm & Hle & Hall & Hex).
        exists m. split; [exact Hm|]. split; [lia|]. split.
        -- intros c u [<-|Hc] Hcu; [rewrite Hu in Hcu; injection Hcu as <-; lia|].
           eapply Hall; eassumption.
        -- right. destruct Hex as [->|(c & Hc & Hcm)].
           ++ exists conv. split; [left; reflexivity | exact Hu].
           ++ exists c. split; [right; exact Hc | exact Hcm].
      * apply Z.ltb_ge in E. destruct (IH a) as (m & Hm & Hle & Hall & Hex).
        exists m. split; [exact Hm|]. split; [lia|]. split.
        -- intros c u [<-|Hc] Hcu; [rewrite Hu in Hcu; injection Hcu as <-; lia|].
           eapply Hall; eassumption.
        -- destruct Hex as [->|(c & Hc & Hcm)]; [left; reflexivity|].
           right. exists c. split; [right; exact Hc | exact Hcm].
    + destruct (IH a) as (m & Hm & Hle & Hall & Hex).
      exists m. split; [exact Hm|]. split; [lia|]. split.
      * intros c u [<-|Hc] Hcu; [congruence|]. eapply Hall; eassumption.
      * destruct Hex as [->|(c & Hc & Hcm)]; [left; reflexivity|].
        right. exists c. split; [right; exact Hc | exact Hcm].
Qed.

Lemma lastActivity_fold (H : Host) (convs : list CloudConversationSummary) :
  forall a : Z,
    exists m,
      fold_left (fun acc conv =>
                   let updated := parseDate H (cs_updated_at conv) in
                   match getTime updated, getTime acc with
                   | Some u, Some a0 => if a0 <? u then updated else acc
                   | _, _ => acc
                   end) convs (Some a) = Some m /\
      a <= m /\
      (forall c u, In c convs -> parseDate H (cs_updated_at c) = Some u -> u <= m) /\
      (m = a \/ exists c, In c convs /\ parseDate H (cs_updated_at c) = Some m).
Proof.
  apply latest_fold. intros a conv. unfold getTime. cbv zeta.
  destruct (parseDate H (cs_updated_at conv)); reflexivity.
Qed.

(** X8. The remote [listProjects] returns at most one project, the
    virtual project of all conversations: its session count is the
    number of conversations the API listed, its message count is 0, and
    its last activity is the latest parsable [updated_at], never before
    the epoch. *)
Theorem remote_listProjects_is_one_virtual_project :
  forall (H : Host) (api : ClaudeApi.Api) (st : St) (p : Project),
    In p (fst (ClaudeApi.listProjects H api st)) ->
    fst (ClaudeApi.listProjects H api st) = [p] /\
    proj_id p = js "cloud_conversations" /\
    proj_source p = ClaudeApi.cloud_source /\
    proj_path p = None /\
    proj_messageCount p = 0 /\
    exists convs m,
      served (ClaudeApi.chat_conversations api) convs /\
      sessionCount p = jslength convs /\
      lastActivity p = Some m /\
      0 <= m /\
      (forall c u, In c convs -> parseDate H (cs_updated_at c) = Some u -> u <= m) /\
      (m = 0 \/ exists c, In c convs /\ parseDate H (cs_updated_at c) = Some m).
Proof.
  intros H api st p. unfold ClaudeApi.listProjects, bind.
  destruct (getOrgId (ClaudeApi.organizations api) st) as [org0 st1].
  destruct (truthy org0) as [org|]; [|intros []].
  destruct (fetchApi (ClaudeApi.chat_conversations api) _ st1)
    as [[convs|] st2] eqn:Hfetch; [|intros []].
  apply fetchApi_payload in Hfetch. destruct Hfetch as (n & status & Hout & Hok).
  unfold ret. cbn [fst]. intros [<-|[]].
  cbn [proj_id proj_source proj_path proj_messageCount sessionCount lastActivity].
  repeat split.
  destruct (lastActivity_fold H convs 0) as (m & Hm & Hle & Hall & Hex).
  exists convs, m. split; [eexists n, _, status; split; eassumption|].
  split; [reflexivity|]. split; [exact Hm|]. auto.
Qed.

Lemma remote_listProjects_is_one_virtual_project_witness :
  match fst (ClaudeApi.listProjects Reference.host Examples.account
               (Examples.fresh_session, Examples.start)) with
  | [p] => sessionCount p = 1 /\ proj_messageCount p = 0
  | _ => False
  end.
Proof.
  destruct (fst (ClaudeApi.listProjects Reference.host Examples.account
                   (Examples.fresh_session, Examples.start)))
    as [|p rest] eqn:Hps; [vm_compute in Hps; discriminate|].
  destruct (remote_listProjects_is_one_virtual_project Reference.host
              Examples.account (Examples.fresh_session, Examples.start) p)
    as (Hone & _ & _ & _ & Hmc & convs & m & Hserved & Hsc & _).
  - rewrite Hps. left. reflexivity.
  - rewrite Hps in Hone. injection Hone as ->.
    split; [|exact Hmc].
    rewrite Hsc. destruct Hserved as (n & url & status & Hout & _).
    injection Hout as _ <-. reflexivity.
Defined.

(** X9. Every session of the remote [listSessions] is a conversation
    the API listed, tagged [cloud], filed under the virtual project and
    reported with message count 0.  With a start date its [updatedAt]
    is not before the start boundary, with an end date its [createdAt]
    is not after the end boundary, and for non-negative offset and
    limit the page holds at most [limit] sessions. *)
Theorem remote_listSessions_lists_conversations :
  forall (H : Host) (api : ClaudeApi.Api) (options : ListSessionsOptions)
         (st : St),
    let page := fst (ClaudeApi.listSessions H api options st) in
    (forall x, In x page ->
       sess_source x = ClaudeApi.cloud_source /\
       projectId x = Some (js "cloud_conversations") /\
       messageCount x = 0 /\
       (exists convs conv,
           served (ClaudeApi.chat_conversations api) convs /\ In conv convs /\
           x = ClaudeApi.session_of_summary H conv) /\
       (forall ns,
           truthy (ClaudeApi.normalized H (ls_startDate options) false
                     (ls_timezone options)) = Some ns ->
           ClaudeApi.num_geb (getTime (updatedAt x)) (getTime (parseDate H ns))
           = true) /\
       (forall ne,
           truthy (ClaudeApi.normalized H (ls_endDate options) true
                     (ls_timezone options)) = Some ne ->
           ClaudeApi.num_leb (getTime (createdAt x)) (getTime (parseDate H ne))
           = true)) /\
    (0 <= default_to (ls_offset options) 0 ->
     0 <= default_to (ls_limit options) 50 ->
     jslength page <= default_to (ls_limit options) 50).
Proof.
  intros H api options st. cbv zeta.
  unfold ClaudeApi.listSessions, bind.
  destruct (getOrgId (ClaudeApi.organizations api) st) as [org0 st1].
  destruct (truthy org0) as [org|];
    [|split; [intros x []|intros; unfold ret; simpl; assumption]].
  destruct (fetchApi (ClaudeApi.chat_conversations api) _ st1)
    as [[convs|] st2] eqn:Hfetch;
    [|split; [intros x []|intros; unfold ret; simpl; assumption]].
  apply fetchApi_payload in Hfetch. destruct Hfetch as (n & status & Hout & Hok).
  unfold ret. cbn [fst].
  set (nStart := ClaudeApi.normalized H (ls_startDate options) false
                   (ls_timezone options)).
  set (nEnd := ClaudeApi.normalized H (ls_endDate options) true
                 (ls_timezone options)).
  split.
  - intros x Hx. apply slice_incl in Hx. apply sort_In in Hx.
    assert (Hend : forall l,
               In x (match truthy nEnd with
                     | Some ne =>
                         List.filter
                           (fun s0 => ClaudeApi.num_leb (getTime (createdAt s0))
                                        (getTime (parseDate H ne))) l
                     | None => l
                     end) ->
               In x l /\
               forall ne, truthy nEnd = Some ne ->
                 ClaudeApi.num_leb (getTime (createdAt x)) (getTime (parseDate H ne))
                 = true).
    { intros l Hl. destruct (truthy nEnd) as [ne|].
      - apply filter_In in Hl. destruct Hl as [Hl Hf]. split; [exact Hl|].
        intros ne' Heq. injection Heq as <-. exact Hf.
      - split; [exact Hl | discriminate]. }
    apply Hend in Hx. destruct Hx as [Hx Hendx].
    assert (Hstart : In x (List.map (ClaudeApi.session_of_summary H) convs) /\
                     forall ns, truthy nStart = Some ns ->
                       ClaudeApi.num_geb (getTime (updatedAt x))
                         (getTime (parseDate H ns)) = true).
    { destruct (truthy nStart) as [ns|].
      - apply filter_In in Hx. destruct Hx as [Hx Hf]. split; [exact Hx|].
        intros ns' Heq. injection Heq as <-. exact Hf.
      - split; [exact Hx | discriminate]. }
    destruct Hstart as [Hmap Hstartx].
    apply in_map_iff in Hmap. destruct Hmap as [conv [<- Hconv]].
    repeat split; try assumption.
    exists convs, conv. split; [eexists n, _, status; split; eassumption|]. auto.
  - intros Hoff Hlim.
    eapply Z.le_trans; [apply slice_length; lia|]. lia.
Qed.

Lemma remote_listSessions_lists_conversations_witness :
  jslength (fst (ClaudeApi.listSessions Reference.host Examples.account
                   Examples.no_options (Examples.fresh_session, Examples.start)))
  <= 50 /\
  match fst (ClaudeApi.listSessions Reference.host Examples.account
               Examples.no_options (Examples.fresh_session, Examples.start)) with
  | x :: _ => messageCount x = 0
  | [] => False
  end.
Proof.
  split.
  - apply (proj2 (remote_listSessions_lists_conversations Reference.host
                    Examples.account Examples.no_options
                    (Examples.fresh_session, Examples.start))); simpl; lia.
  - destruct (fst (ClaudeApi.listSessions Reference.host Examples.account
                     Examples.no_options (Examples.fresh_session, Examples.start)))
      as [|x rest] eqn:Hpage; [vm_compute in Hpage; discriminate|].
    apply (proj1 (remote_listSessions_lists_conversations Reference.host
                    Examples.account Examples.no_options
                    (Examples.fresh_session, Examples.start)) x).
    rewrite Hpage. left. reflexivity.
Defined.

(** ** Search over the remote conversations *)

Section RemoteSearch.
Variable H : Host.
Variable api : ClaudeApi.Api.
Variable encodeURIComponent : jsstring -> result jsstring.

Lemma scan_messages_In (limit : Z) (query : jsstring)
    (conv : CloudConversationSummary) (msgs : list CloudMessage) :
  forall results r,
    In r (ClaudeApiSearch.scan_messages H limit query conv msgs results) ->
    In r results \/
    exists msg, In msg msgs /\
                ClaudeApiSearch.result_of_message H query conv msg = Some r.
Proof.
  induction msgs as [|msg rest IH]; intros results r Hr; simpl in Hr.
  - left. exact Hr.
  - destruct (limit <=? jslength results); [left; exact Hr|].
    apply IH in Hr. destruct Hr as [Hr|(m & Hm & Hres)].
    + destruct (ClaudeApiSearch.result_of_message H query conv msg) as [r0|] eqn:E.
      * apply in_app_or in Hr. destruct Hr as [Hr|[<-|[]]]; [left; exact Hr|].
        right. exists msg. split; [left; reflexivity | exact E].
      * left. exact Hr.
    + right. exists m. split; [right; exact Hm | exact Hres].
Qed.

Lemma found_in_cons query ns ne conv convs r :
  found_in H api query ns ne convs r -> found_in H api query ns ne (conv :: convs) r.
Proof.
  intros (c & d & msgs & msg & Hc & Hrest).
  exists c, d, msgs, msg. split; [right; exact Hc | exact Hrest].
Qed.

Lemma scan_conversations_In (limit : Z) (query org : jsstring)
    (ns ne : option jsstring) (convs : list CloudConversationSummary) :
  forall results st r,
    In r (fst (ClaudeApiSearch.scan_conversations H api limit query org ns ne
                 convs results st)) ->
    In r results \/ found_in H api query ns ne convs r.
Proof.
  induction convs as [|conv rest IH]; intros results st r Hr;
    cbn [ClaudeApiSearch.scan_conversations] in Hr.
  - left. exact Hr.
  - assert (Hnext : forall results' st',
               In r (fst (ClaudeApiSearch.scan_conversations H api limit query org
                            ns ne rest results' st')) ->
               (In r results' -> In r results \/ found_in H api query ns ne (conv :: rest) r) ->
               In r results \/ found_in H api query ns ne (conv :: rest) r).
    { intros results' st' Hin Hold. apply IH in Hin.
      destruct Hin as [Hin|Hin]; [apply Hold; exact Hin|].
      right. apply found_in_cons. exact Hin. }
    destruct (limit <=? jslength results); [left; exact Hr|].
    destruct (match truthy ns with
              | Some s => jsltb (cs_updated_at conv) s
              | None => false
              end) eqn:Hs;
      [eapply Hnext; [exact Hr | auto]|].
    destruct (match truthy ne with
              | Some e => jsltb e (cs_created_at conv)
              | None => false
              end) eqn:He;
      [eapply Hnext; [exact Hr | auto]|].
    unfold bind in Hr.
    destruct (fetchApi (ClaudeApi.chat_conversation api) _ st)
      as [[d|] st1] eqn:Hfetch;
      [|eapply Hnext; [exact Hr | auto]].
    destruct (chat_messages d) as [msgs|] eqn:Hmsgs;
      [|eapply Hnext; [exact Hr | auto]].
    eapply Hnext; [exact Hr|]. intros Hin.
    apply scan_messages_In in Hin. destruct Hin as [Hin|(msg & Hmsg & Hres)];
      [left; exact Hin|].
    right. apply fetchApi_payload in Hfetch.
    destruct Hfetch as (n & status & Hout & Hok).
    exists conv, d, msgs, msg. split; [left; reflexivity|].
    split; [eexists n, _, status; split; eassumption|].
    split; [exact Hmsgs|]. split; [exact Hmsg|]. split; [exact Hres|].
    split.
    + intros s Heq. rewrite Heq in Hs. exact Hs.
    + intros e Heq. rewrite Heq in He. exact He.
Qed.

(** X10. Every result of the remote [search] comes from a message whose
    lowercased text contains the lowercased query, in the detail of a
    conversation that the search listing returned and that passed the
    date filter; it is tagged [cloud] and carries the ids of that
    conversation and message.  For a non-negative limit the page holds
    at most [limit] results. *)
Theorem remote_search_results_are_matching_messages :
  forall (options : SearchOptions) (st : St) (rs : list SearchResult),
    fst (ClaudeApiSearch.search H api encodeURIComponent options st) = Ok rs ->
    (forall r, In r rs ->
       exists convs conv d msgs msg,
         served (ClaudeApi.chat_conversations api) convs /\ In conv convs /\
         served (ClaudeApi.chat_conversation api) d /\
         chat_messages d = Some msgs /\ In msg msgs /\
         matches H (ClaudeApi.extractCloudContent msg) (so_query options) = true /\
         sr_source r = ClaudeApi.cloud_source /\
         sr_sessionId r = cs_uuid conv /\
         sr_messageId r = cm_uuid msg /\
         snippet r = make_snippet H (ClaudeApi.extractCloudContent msg)
                       (so_query options) /\
         sr_timestamp r = parseDate H (cm_created_at msg) /\
         (forall s,
             truthy (ClaudeApi.normalized H (so_startDate options) false
                       (so_timezone options)) = Some s ->
             jsltb (cs_updated_at conv) s = false) /\
         (forall e,
             truthy (ClaudeApi.normalized H (so_endDate options) true
                       (so_timezone options)) = Some e ->
             jsltb e (cs_created_at conv) = false)) /\
    (0 <= default_to (so_limit options) 30 ->
     jslength rs <= default_to (so_limit options) 30).
Proof.
  intros options st rs. unfold ClaudeApiSearch.search, bind.
  destruct (getOrgId (ClaudeApi.organizations api) st) as [org st1].
  destruct (truthy org) as [o|].
  2:{ unfold ret. cbn [fst]. intros Heq. injection Heq as <-.
      split; [intros r []|]. intros Hl. simpl. exact Hl. }
  destruct (encodeURIComponent (so_query options)) as [encoded|err];
    [|unfold ret; cbn [fst]; discriminate].
  destruct (fetchApi (ClaudeApi.chat_conversations api) _ st1)
    as [[convs|] st2] eqn:Hfetch.
  2:{ unfold ret. cbn [fst]. intros Heq. injection Heq as <-.
      split; [intros r []|]. intros Hl. simpl. exact Hl. }
  apply fetchApi_payload in Hfetch. destruct Hfetch as (n & status & Hout & Hok).
  destruct (ClaudeApiSearch.scan_conversations H api _ _ _ _ _ convs [] st2)
    as [results st3] eqn:Hscan.
  unfold ret. cbn [fst]. intros Heq. injection Heq as <-. split.
  - intros r Hr. apply slice_incl in Hr. apply sort_In in Hr.
    assert (Hin : In r (fst (ClaudeApiSearch.scan_conversations H api
                               (default_to (so_limit options) 30)
                               (so_query options) o
                               (ClaudeApi.normalized H (so_startDate options) false
                                  (so_timezone options))
                               (ClaudeApi.normalized H (so_endDate options) true
                                  (so_timezone options))
                               convs [] st2)))
      by (rewrite Hscan; exact Hr).
    apply scan_conversations_In in Hin.
    destruct Hin as [[]|(conv & d & msgs & msg & Hc & Hd & Hm & Hmsg & Hres & Hs & He)].
    unfold ClaudeApiSearch.result_of_message in Hres.
    destruct (matches H (ClaudeApi.extractCloudContent msg) (so_query options))
      eqn:Hmatch; [|discriminate].
    injection Hres as <-.
    exists convs, conv, d, msgs, msg.
    split; [eexists n, _, status; split; eassumption|].
    repeat split; assumption.
  - intros Hl. eapply Z.le_trans; [apply slice_length; lia|]. lia.
Qed.

End RemoteSearch.

Lemma remote_search_results_are_matching_messages_witness :
  exists rs,
    fst (ClaudeApiSearch.search Reference.host Examples.account (fun q => Ok q)
           (Examples.search_for "plan") (Examples.fresh_session, Examples.start)) = Ok rs /\
    rs <> [] /\
    jslength rs <= 10.
Proof.
  destruct (fst (ClaudeApiSearch.search Reference.host Examples.account
                   (fun q => Ok q) (Examples.search_for "plan")
                   (Examples.fresh_session, Examples.start)))
    as [rs|err] eqn:Hrun; [|vm_compute in Hrun; discriminate].
  exists rs. split; [reflexivity|]. split.
  - intros ->. vm_compute in Hrun. discriminate.
  - change 10 with (default_to (so_limit (Examples.search_for "plan")) 30).
    apply (proj2 (remote_search_results_are_matching_messages Reference.host
                    Examples.account (fun q => Ok q) (Examples.search_for "plan")
                    (Examples.fresh_session, Examples.start) rs Hrun)).
    simpl. lia.
Defined.

End RemoteFacts.

(* ===================================================================== *)
(** * Relative times *)
(* ===================================================================== *)

Module TimeAgoFacts.
Import TimeAgo.

Lemma floor_div_bounds (x b : Z) :
  0 < b -> b * (x / b) <= x < b * (x / b) + b.
Proof.
  intros Hb. pose proof (Z.div_mod x b ltac:(lia)) as Hdm.
  pose proof (Z.mod_pos_bound x b Hb) as Hm. lia.
Qed.

(** X11. [getTimeAgo] answers [just now] for an instant less than a
    minute old or in the future.  From one minute on it answers a
    count and a unit, and the count is never zero: 1 to 59 minutes, 1
    to 23 hours, 1 to 6 days, 1 to 4 weeks, 1 to 12 months of thirty
    days, or at least one year of 365 days.  An Invalid Date fails
    every comparison and is reported in years. *)
Theorem getTimeAgo_counts_from_one :
  forall (now t : Z),
    (now - t < 60000 -> getTimeAgo now (Some t) = js "just now") /\
    (60000 <= now - t ->
     exists n suffix,
       getTimeAgo now (Some t) = number_string (Some n) ++ suffix /\
       1 <= n /\
       ((suffix = js "m ago" /\ n = (now - t) / 60000 /\ n <= 59) \/
        (suffix = js "h ago" /\ n = (now - t) / 3600000 /\ n <= 23) \/
        (suffix = js "d ago" /\ n = (now - t) / 86400000 /\ n <= 6) \/
        (suffix = js "w ago" /\ n = (now - t) / 86400000 / 7 /\ n <= 4) \/
        (suffix = js "mo ago" /\ n = (now - t) / 86400000 / 30 /\ n <= 12) \/
        (suffix = js "y ago" /\ n = (now - t) / 86400000 / 365))) /\
    getTimeAgo now NaN = js "NaNy ago".
Proof.
  intros now t. unfold getTimeAgo, getTime, num_lift2, floor_div, num_ltb, NaN.
  change (1000 * 60) with 60000. change (60000 * 60) with 3600000.
  change (3600000 * 24) with 86400000.
  set (d := now - t).
  pose proof (floor_div_bounds d 60000 ltac:(lia)) as Hm.
  pose proof (floor_div_bounds d 3600000 ltac:(lia)) as Hh.
  pose proof (floor_div_bounds d 86400000 ltac:(lia)) as Hd.
  pose proof (floor_div_bounds (d / 86400000) 7 ltac:(lia)) as Hw.
  pose proof (floor_div_bounds (d / 86400000) 30 ltac:(lia)) as Hmo.
  pose proof (floor_div_bounds (d / 86400000) 365 ltac:(lia)) as Hy.
  split; [|split; [|reflexivity]].
  - intros Hlt. destruct (d / 60000 <? 1) eqn:E; [reflexivity|].
    apply Z.ltb_ge in E. lia.
  - intros Hge.
    destruct (d / 60000 <? 1) eqn:E1; [apply Z.ltb_lt in E1; lia|].
    apply Z.ltb_ge in E1.
    destruct (d / 60000 <? 60) eqn:E2.
    { apply Z.ltb_lt in E2. eexists _, _. split; [reflexivity|].
      split; [lia|]. left. repeat split; lia. }
    apply Z.ltb_ge in E2.
    destruct (d / 3600000 <? 24) eqn:E3.
    { apply Z.ltb_lt in E3. eexists _, _. split; [reflexivity|].
      split; [lia|]. right; left. repeat split; lia. }
    apply Z.ltb_ge in E3.
    destruct (d / 86400000 <? 7) eqn:E4.
    { apply Z.ltb_lt in E4. eexists _, _. split; [reflexivity|].
      split; [lia|]. right; right; left. repeat split; lia. }
    apply Z.ltb_ge in E4.
    destruct (d / 86400000 <? 30) eqn:E5.
    { apply Z.ltb_lt in E5. eexists _, _. split; [reflexivity|].
      split; [lia|]. right; right; right; left. repeat split; lia. }
    apply Z.ltb_ge in E5.
    destruct (d / 86400000 <? 365) eqn:E6.
    { apply Z.ltb_lt in E6. eexists _, _. split; [reflexivity|].
      split; [lia|]. right; right; right; right; left. repeat split; lia. }
    apply Z.ltb_ge in E6.
    eexists _, _. split; [reflexivity|].
    split; [lia|]. right; right; right; right; right. repeat split; lia.
Qed.

Lemma getTimeAgo_counts_from_one_witness :
  getTimeAgo 59999 (Some 0) = js "just now" /\
  exists n suffix,
    getTimeAgo 18000000 (Some 0) = number_string (Some n) ++ suffix /\ 1 <= n.
Proof.
  split.
  - apply (proj1 (getTimeAgo_counts_from_one 59999 0)). lia.
  - destruct (proj1 (proj2 (getTimeAgo_counts_from_one 18000000 0)))
      as (n & suffix & Heq & Hn & _); [lia|].
    exists n, suffix. split; assumption.
Defined.

End TimeAgoFacts.

(* ===================================================================== *)
(** * Reading the local log files *)
(* ===================================================================== *)

Module LogFiles.
Import ClaudeCode LocalVocabulary.

(** ** The order of [<] on strings *)

Lemma jsltb_lt_le (a : jsstring) :
  forall b c, jsltb a b = true -> jsltb c b = false -> jsltb a c = true.
Proof.
  induction a as [|x a IH]; intros [|y b] [|z c] Hab Hcb; simpl in *;
    try discriminate; try reflexivity.
  apply orb_false_iff in Hcb. destruct Hcb as [Hzy Hcb].
  apply N.ltb_ge in Hzy.
  apply orb_true_iff in Hab. apply orb_true_iff.
  destruct Hab as [Hxy|Hab].
  - apply N.ltb_lt in Hxy. left. apply N.ltb_lt. lia.
  - apply andb_true_iff in Hab. destruct Hab as [Hxy Hab].
    apply N.eqb_eq in Hxy. subst y.
    destruct (N.eqb z x) eqn:Hzx.
    + apply N.eqb_eq in Hzx. subst z. right.
      rewrite N.eqb_refl. simpl in Hcb. apply (IH b c Hab Hcb).
    + apply N.eqb_neq in Hzx. left. apply N.ltb_lt. lia.
Qed.

Lemma jsltb_le_lt (a : jsstring) :
  forall b c, jsltb b a = false -> jsltb b c = true -> jsltb a c = true.
Proof.
  induction a as [|x a IH]; intros [|y b] [|z c] Hba Hbc; simpl in *;
    try discriminate; try reflexivity.
  apply orb_false_iff in Hba. destruct Hba as [Hyx Hba].
  apply N.ltb_ge in Hyx.
  apply orb_true_iff in Hbc. apply orb_true_iff.
  destruct Hbc as [Hyz|Hbc].
  - apply N.ltb_lt in Hyz. left. apply N.ltb_lt. lia.
  - apply andb_true_iff in Hbc. destruct Hbc as [Hyz Hbc].
    apply N.eqb_eq in Hyz. subst z.
    destruct (N.eqb y x) eqn:Hyx'.
    + apply N.eqb_eq in Hyx'. subst y. right.
      rewrite N.eqb_refl. simpl in Hba. apply (IH b c Hba Hbc).
    + apply N.eqb_neq in Hyx'. left. apply N.ltb_lt. lia.
Qed.

Lemma filter_map_nil {A B} (f : A -> option B) (l : list A) :
  (forall x, In x l -> f x = None) -> filter_map f l = [].
Proof.
  induction l as [|x l IH]; intros Hall; simpl; [reflexivity|].
  rewrite (Hall x (or_introl eq_refl)). apply IH.
  intros y Hy. apply Hall. right. exact Hy.
Qed.

Lemma filter_map_complete {A B} (f : A -> option B) (l : list A) (x : A) (y : B) :
  In x l -> f x = Some y -> In y (filter_map f l).
Proof.
  induction l as [|a l IH]; intros Hin Hf; [destruct Hin|].
  simpl. destruct Hin as [->|Hin].
  - rewrite Hf. left. reflexivity.
  - destruct (f a); [right|]; apply IH; assumption.
Qed.

Lemma keep_line_Some (sd ed : option jsstring) (l : Line) (m : ClaudeCodeMessage) :
  keep_line sd ed l = Some m <-> l = Parsed m /\ in_range sd ed (cc_timestamp m).
Proof.
  unfold keep_line, in_range. destruct l as [| |m0].
  - split; [discriminate | intros [Hl _]; discriminate].
  - split; [discriminate | intros [Hl _]; discriminate].
  - destruct (truthy sd) as [s|]; destruct (truthy ed) as [e|].
    + destruct (ts_ltb (cc_timestamp m0) s) eqn:Es.
      * split; [discriminate|]. intros [Hl [Hs _]]. injection Hl as ->.
        specialize (Hs s eq_refl). congruence.
      * destruct (ts_gtb (cc_timestamp m0) e) eqn:Ee.
        -- split; [discriminate|]. intros [Hl [_ He]]. injection Hl as ->.
           specialize (He e eq_refl). congruence.
        -- split.
           ++ intros Heq. injection Heq as ->. split; [reflexivity|].
              split; intros x Hx; injection Hx as <-; assumption.
           ++ intros [Hl _]. injection Hl as ->. reflexivity.
    + destruct (ts_ltb (cc_timestamp m0) s) eqn:Es.
      * split; [discriminate|]. intros [Hl [Hs _]]. injection Hl as ->.
        specialize (Hs s eq_refl). congruence.
      * split.
        -- intros Heq. injection Heq as ->. split; [reflexivity|].
           split; intros x Hx; [injection Hx as <-; assumption | discriminate].
        -- intros [Hl _]. injection Hl as ->. reflexivity.
    + destruct (ts_gtb (cc_timestamp m0) e) eqn:Ee.
      * split; [discriminate|]. intros [Hl [_ He]]. injection Hl as ->.
        specialize (He e eq_refl). congruence.
      * split.
        -- intros Heq. injection Heq as ->. split; [reflexivity|].
           split; intros x Hx; [discriminate | injection Hx as <-; assumption].
        -- intros [Hl _]. injection Hl as ->. reflexivity.
    + split.
      * intros Heq. injection Heq as ->. split; [reflexivity|].
        split; intros x Hx; discriminate.
      * intros [Hl _]. injection Hl as ->. reflexivity.
Qed.

(** The entries read from a file are records of it within the bounds. *)
Lemma parseJsonlFile_records (file : DirEntry) (startDate endDate : option jsstring)
    (m : ClaudeCodeMessage) :
  In m (parseJsonlFile file startDate endDate) ->
  has_record file m /\ in_range startDate endDate (cc_timestamp m).
Proof.
  unfold parseJsonlFile, has_record.
  destruct (lines file) as [ls|]; [|intros []].
  intros Hin. apply Snippets.filter_map_In in Hin.
  destruct Hin as (l & Hl & Hkeep). apply keep_line_Some in Hkeep.
  destruct Hkeep as [-> Hrange]. split; [exists ls; auto | exact Hrange].
Qed.

(** X12. [parseJsonlFile] returns exactly the records of the file whose
    timestamp is neither below the start bound nor above the end bound,
    as JavaScript's [<] and [>] decide it: for a timestamp string the
    comparison of strings, both ends included, and for a record without
    timestamp no bound at all, both comparisons of [undefined] being
    false.  Blank lines and lines that do not parse never produce an
    entry, a file that cannot be read produces none, and an absent or
    empty bound filters nothing. *)
Theorem parseJsonlFile_keeps_records_in_range :
  forall (file : DirEntry) (startDate endDate : option jsstring)
         (m : ClaudeCodeMessage),
    In m (parseJsonlFile file startDate endDate) <->
    has_record file m /\ in_range startDate endDate (cc_timestamp m).
Proof.
  intros file sd ed m. unfold parseJsonlFile, has_record.
  destruct (lines file) as [ls|].
  - split.
    + intros Hin. apply Snippets.filter_map_In in Hin.
      destruct Hin as (l & Hl & Hkeep). apply keep_line_Some in Hkeep.
      destruct Hkeep as [-> Hrange]. split; [exists ls; auto | exact Hrange].
    + intros [(ls' & Heq & Hin) Hrange]. injection Heq as <-.
      apply (filter_map_complete _ ls (Parsed m)); [exact Hin|].
      apply keep_line_Some. auto.
  - split; [intros [] | intros [(ls & Heq & _) _]; discriminate].
Qed.

(** X13. The shortcut of the search is safe for a file whose records
    all carry a timestamp string written during the file's lifetime:
    when [shouldSkipFile] tells the search to skip such a file, reading
    it with the same bounds would have produced no entry.  Without
    bounds no file is skipped. *)
Theorem shouldSkipFile_skips_only_fruitless_files :
  forall (H : Host) (file : DirEntry) (startDate endDate : option jsstring),
    (within_lifetime H file ->
     shouldSkipFile H file startDate endDate = true ->
     parseJsonlFile file startDate endDate = []) /\
    (truthy startDate = None -> truthy endDate = None ->
     shouldSkipFile H file startDate endDate = false).
Proof.
  intros H file sd ed. split.
  - intros Hlife Hskip. unfold parseJsonlFile.
    destruct (lines file) as [ls|] eqn:Hls; [|reflexivity].
    apply filter_map_nil. intros l Hl.
    destruct (keep_line sd ed l) as [m|] eqn:Hkeep; [|reflexivity].
    exfalso. apply keep_line_Some in Hkeep. destruct Hkeep as [-> [Hs He]].
    destruct (Hlife m) as (t & Ht & Hbirth & Hmod); [exists ls; auto|].
    rewrite Ht in Hs, He. cbn [ts_ltb ts_gtb] in Hs, He.
    set (fileModTime := isoString H (mtime file)) in *.
    set (fileCreateTime := isoString H (birthtime file)) in *.
    assert (Hold : jsltb t
                     (if jsltb fileCreateTime fileModTime
                      then fileCreateTime else fileModTime) = false).
    { destruct (jsltb fileCreateTime fileModTime) eqn:E; [exact Hbirth|].
      destruct (jsltb t fileModTime) eqn:E'; [|reflexivity].
      rewrite (jsltb_lt_le _ _ _ E' E) in Hbirth. discriminate. }
    assert (Hend : forall e, truthy ed = Some e ->
                     jsltb e (if jsltb fileCreateTime fileModTime
                              then fileCreateTime else fileModTime) = false).
    { intros e Hed.
      destruct (jsltb e (if jsltb fileCreateTime fileModTime
                         then fileCreateTime else fileModTime)) eqn:E;
        [|reflexivity].
      pose proof (He e Hed) as He'.
      rewrite (jsltb_lt_le _ _ _ E Hold) in He'. discriminate. }
    assert (Hstart : forall s, truthy sd = Some s -> jsltb fileModTime s = false).
    { intros s Hsd. destruct (jsltb fileModTime s) eqn:E; [|reflexivity].
      pose proof (Hs s Hsd) as Hs'.
      rewrite (jsltb_le_lt _ _ _ Hmod E) in Hs'. discriminate. }
    unfold shouldSkipFile in Hskip.
    fold fileModTime fileCreateTime in Hskip.
    destruct (truthy sd) as [s|]; destruct (truthy ed) as [e|];
      cbv zeta in Hskip.
    + rewrite (Hend e eq_refl), (Hstart s eq_refl) in Hskip. discriminate.
    + rewrite (Hstart s eq_refl) in Hskip. discriminate.
    + rewrite (Hend e eq_refl) in Hskip. discriminate.
    + discriminate.
  - intros Hs He. unfold shouldSkipFile. rewrite Hs, He. reflexivity.
Qed.

Lemma shouldSkipFile_skips_only_fruitless_files_witness :
  shouldSkipFile Reference.host Examples.session_file
    (Some (js "2025-07-01T00:00:00.000Z")) None = true /\
  parseJsonlFile Examples.session_file
    (Some (js "2025-07-01T00:00:00.000Z")) None = [].
Proof.
  split; [vm_compute; reflexivity|].
  apply (proj1 (shouldSkipFile_skips_only_fruitless_files Reference.host
                  Examples.session_file
                  (Some (js "2025-07-01T00:00:00.000Z")) None)).
  - intros m (ls & Hls & Hin). injection Hls as <-.
    destruct Hin as [Hm|[Hm|[Hm|[Hm|[Hm|[]]]]]]; try discriminate;
      injection Hm as <-; eexists; (split; [reflexivity|]);
      vm_compute; split; reflexivity.
  - vm_compute. reflexivity.
Defined.

(** A record without timestamp passes every bound, and the shortcut
    would have skipped the file that holds it. *)
Example undated_record_passes_every_bound :
  parseJsonlFile (Undated.file_of [Undated.undated])
    (Some (js "2030-01-01T00:00:00.000Z")) None = [Undated.undated] /\
  shouldSkipFile Reference.host (Undated.file_of [Undated.undated])
    (Some (js "2030-01-01T00:00:00.000Z")) None = true.
Proof. vm_compute. split; reflexivity. Qed.

Lemma parseJsonlFile_keeps_records_in_range_witness :
  In Examples.user_record
    (parseJsonlFile Examples.session_file
       (Some (js "2025-06-30T10:00:00.000Z")) (Some (js "2025-06-30T10:00:00.000Z"))).
Proof.
  apply (proj2 (parseJsonlFile_keeps_records_in_range Examples.session_file
                  (Some (js "2025-06-30T10:00:00.000Z"))
                  (Some (js "2025-06-30T10:00:00.000Z")) Examples.user_record)).
  split.
  - eexists. split; [reflexivity|]. right. right. left. reflexivity.
  - split; intros b Hb; injection Hb as <-; vm_compute; reflexivity.
Defined.

End LogFiles.

(* ===================================================================== *)
(** * Local source: the session listing *)
(* ===================================================================== *)

Module LocalListing.
Import ClaudeCode Vocabulary LocalVocabulary.

Lemma fold_min_le (r : list Z) : forall x, fold_left Z.min r x <= x.
Proof.
  induction r as [|y r IH]; intros x; simpl; [lia|].
  specialize (IH (Z.min x y)). lia.
Qed.

Lemma fold_max_ge (r : list Z) : forall x, x <= fold_left Z.max r x.
Proof.
  induction r as [|y r IH]; intros x; simpl; [lia|].
  specialize (IH (Z.max x y)). lia.
Qed.

(** The earliest and the latest instant of a list are in order, or
    both are an Invalid Date. *)
Lemma min_max_ordered (xs : list jsnum) :
  (date_of_min xs = NaN /\ date_of_max xs = NaN) \/
  exists a b, date_of_min xs = Some a /\ date_of_max xs = Some b /\ a <= b.
Proof.
  unfold date_of_min, date_of_max.
  destruct (all_valid xs) as [[|x r]|]; [left; auto | | left; auto].
  right. exists (fold_left Z.min r x), (fold_left Z.max r x).
  repeat split. pose proof (fold_min_le r x). pose proof (fold_max_ge r x). lia.
Qed.

Lemma session_of_file_invariants (H : Host) (decodedPath file : jsstring)
    (e : DirEntry) (ns ne : option jsstring) (s : Session) :
  session_of_file H decodedPath file e ns ne = Ok (Some s) ->
  sess_source s = code_source /\ title s = None /\
  projectId s = Some (js "code_" ++ decodedPath) /\
  1 <= messageCount s /\
  ((createdAt s = NaN /\ updatedAt s = NaN) \/
   exists a b, createdAt s = Some a /\ updatedAt s = Some b /\ a <= b) /\
  (forall b, truthy ns = Some b ->
     exists iso, toISOString H (updatedAt s) = Ok iso /\ jsltb iso b = false) /\
  (forall b, truthy ne = Some b ->
     exists iso, toISOString H (createdAt s) = Ok iso /\ jsltb b iso = false).
Proof.
  unfold session_of_file.
  destruct (negb (endsWith file jsonl_ext)); [discriminate|].
  destruct (parseJsonlFile e None None) as [|m ms] eqn:Hentries; [discriminate|].
  destruct (negb (spreadFits H (jslength (m :: ms)))); [discriminate|].
  set (times := List.map getTime
                  (List.map (fun x => date_of H (cc_timestamp x)) (m :: ms))).
  set (pushed := {| sess_id := remove_first file jsonl_ext;
                    sess_source := code_source;
                    projectId := Some (js "code_" ++ decodedPath);
                    projectName := Some decodedPath;
                    title := None;
                    createdAt := date_of_min times;
                    updatedAt := date_of_max times;
                    messageCount := jslength (m :: ms) |}).
  cbv zeta.
  assert (Hend : forall (b : jsstring) (iso : jsstring),
             truthy ne = Some b ->
             toISOString H (date_of_min times) = Ok iso ->
             jsltb b iso = false ->
             forall x, truthy ne = Some x ->
               exists iso', toISOString H (createdAt pushed) = Ok iso' /\
                            jsltb x iso' = false).
  { intros b iso Hb Hiso Hlt x Hx. rewrite Hb in Hx. injection Hx as <-.
    exists iso. split; assumption. }
  assert (Hstart : forall (b : jsstring) (iso : jsstring),
             truthy ns = Some b ->
             toISOString H (date_of_max times) = Ok iso ->
             jsltb iso b = false ->
             forall x, truthy ns = Some x ->
               exists iso', toISOString H (updatedAt pushed) = Ok iso' /\
                            jsltb iso' x = false).
  { intros b iso Hb Hiso Hlt x Hx. rewrite Hb in Hx. injection Hx as <-.
    exists iso. split; assumption. }
  assert (Hbase : sess_source pushed = code_source /\ title pushed = None /\
                  projectId pushed = Some (js "code_" ++ decodedPath) /\
                  1 <= messageCount pushed /\
                  ((createdAt pushed = NaN /\ updatedAt pushed = NaN) \/
                   exists a b, createdAt pushed = Some a /\
                               updatedAt pushed = Some b /\ a <= b)).
  { repeat split.
    - unfold pushed, jslength. cbn [messageCount List.length]. lia.
    - apply min_max_ordered. }
  destruct Hbase as (B1 & B2 & B3 & B4 & B5).
  destruct (truthy ns) as [b1|] eqn:Hns.
  - destruct (toISOString H (date_of_max times)) as [iso1|err] eqn:Hiso1;
      [|discriminate].
    destruct (jsltb iso1 b1) eqn:Hlt1; [discriminate|].
    destruct (truthy ne) as [b2|] eqn:Hne.
    + destruct (toISOString H (date_of_min times)) as [iso2|err] eqn:Hiso2;
        [|discriminate].
      destruct (jsltb b2 iso2) eqn:Hlt2; [discriminate|].
      intros Heq. injection Heq as <-.
      repeat split; try assumption; [eapply Hstart | eapply Hend]; eauto.
    + intros Heq. injection Heq as <-.
      repeat split; try assumption; [eapply Hstart; eauto | discriminate].
  - destruct (truthy ne) as [b2|] eqn:Hne.
    + destruct (toISOString H (date_of_min times)) as [iso2|err] eqn:Hiso2;
        [|discriminate].
      destruct (jsltb b2 iso2) eqn:Hlt2; [discriminate|].
      intros Heq. injection Heq as <-.
      repeat split; try assumption; [discriminate | eapply Hend; eauto].
    + intros Heq. injection Heq as <-.
      repeat split; try assumption; discriminate.
Qed.

Lemma collected_session_origin (H : Host) (fs : FileSystem)
    (options : ListSessionsOptions) (s : Session) :
  In s (collected_sessions H fs options) ->
  exists projectDirs projectDir files file e,
    fs = Some projectDirs /\
    In (projectDir, ProjectDir files) projectDirs /\
    In (file, e) files /\
    (forall pp, truthy (ls_projectPath options) = Some pp ->
                decodeProjectPath projectDir = pp) /\
    session_of_file H (decodeProjectPath projectDir) file e
      (normalized H (ls_startDate options) false (ls_timezone options))
      (normalized H (ls_endDate options) true (ls_timezone options))
    = Ok (Some s).
Proof.
  unfold collected_sessions. destruct fs as [projectDirs|]; [|intros []].
  intros Hin. apply CodeCounts.pushed_until_throw_In in Hin.
  apply in_flat_map in Hin. destruct Hin as ([projectDir node] & Hp & Hstep).
  unfold sessions_of_project in Hstep.
  destruct (match truthy (ls_projectPath options) with
            | Some pp => negb (jseqb (decodeProjectPath projectDir) pp)
            | None => false
            end) eqn:Hfilter; [destruct Hstep|].
  destruct node as [files|]; [|destruct Hstep].
  apply in_map_iff in Hstep. destruct Hstep as ([file e] & Hstep & Hfile).
  exists projectDirs, projectDir, files, file, e.
  repeat split; try assumption.
  intros pp Hpp. rewrite Hpp in Hfilter.
  apply negb_false_iff in Hfilter. apply jseqb_eq in Hfilter. exact Hfilter.
Qed.

(** X14. Every session of the local [listSessions] stands for a
    [.jsonl] file with at least one record in a project directory: it
    is tagged [code], untitled, filed under the decoded directory name,
    which equals the project path asked for when there is one, and its
    [createdAt] is not after its [updatedAt] unless both are an Invalid
    Date.  With a start date the ISO string of [updatedAt] is not
    before the start boundary, with an end date that of [createdAt] is
    not after the end boundary.  For non-negative offset and limit the
    page holds at most [limit] sessions. *)
Theorem local_listSessions_describes_record_files :
  forall (H : Host) (fs : FileSystem) (options : ListSessionsOptions),
    (forall s, In s (listSessions H fs options) ->
       sess_source s = code_source /\ title s = None /\
       1 <= messageCount s /\
       (exists projectDirs projectDir files,
           fs = Some projectDirs /\
           In (projectDir, ProjectDir files) projectDirs /\
           projectName s = Some (decodeProjectPath projectDir) /\
           projectId s = Some (js "code_" ++ decodeProjectPath projectDir) /\
           (forall pp, truthy (ls_projectPath options) = Some pp ->
                       decodeProjectPath projectDir = pp)) /\
       ((createdAt s = NaN /\ updatedAt s = NaN) \/
        exists a b, createdAt s = Some a /\ updatedAt s = Some b /\ a <= b) /\
       (forall ns,
           truthy (normalized H (ls_startDate options) false (ls_timezone options))
           = Some ns ->
           exists iso, toISOString H (updatedAt s) = Ok iso /\
                       jsltb iso ns = false) /\
       (forall ne,
           truthy (normalized H (ls_endDate options) true (ls_timezone options))
           = Some ne ->
           exists iso, toISOString H (createdAt s) = Ok iso /\
                       jsltb ne iso = false)) /\
    (0 <= default_to (ls_offset options) 0 ->
     0 <= default_to (ls_limit options) 50 ->
     jslength (listSessions H fs options) <= default_to (ls_limit options) 50).
Proof.
  intros H fs options. split.
  - intros s Hs. unfold listSessions in Hs.
    apply slice_incl in Hs. apply sort_In in Hs.
    apply collected_session_origin in Hs.
    destruct Hs as (projectDirs & projectDir & files & file & e &
                    Hfs & Hdir & Hfile & Hpath & Hpush).
    pose proof (CodeCounts.session_of_file_pushed _ _ _ _ _ _ _ Hpush)
      as (_ & Hname & _).
    apply session_of_file_invariants in Hpush.
    destruct Hpush as (I1 & I2 & I3 & I4 & I5 & I6 & I7).
    repeat split; try assumption.
    exists projectDirs, projectDir, files. repeat split; assumption.
  - intros Hoff Hlim. unfold listSessions.
    eapply Z.le_trans; [apply slice_length; lia|]. lia.
Qed.

Lemma local_listSessions_describes_record_files_witness :
  jslength (listSessions Reference.host Examples.projects Examples.no_options)
  <= 50 /\
  match listSessions Reference.host Examples.projects Examples.no_options with
  | s :: _ => 1 <= messageCount s
  | [] => False
  end.
Proof.
  split.
  - apply (proj2 (local_listSessions_describes_record_files Reference.host
                    Examples.projects Examples.no_options)); simpl; lia.
  - destruct (listSessions Reference.host Examples.projects Examples.no_options)
      as [|s rest] eqn:Hpage; [vm_compute in Hpage; discriminate|].
    apply (proj1 (local_listSessions_describes_record_files Reference.host
                    Examples.projects Examples.no_options) s).
    rewrite Hpage. left. reflexivity.
Defined.

End LocalListing.

(* ===================================================================== *)
(** * Local source: the project listing *)
(* ===================================================================== *)

Module LocalProjects.
Import ClaudeCode Vocabulary LocalVocabulary.

Lemma map_update_keys (key : jsstring) (f : ProjectInfo -> ProjectInfo)
    (m : list (jsstring * ProjectInfo)) :
  (In key (List.map fst m) ->
   List.map fst (map_update key f m) = List.map fst m) /\
  (~ In key (List.map fst m) ->
   List.map fst (map_update key f m) = List.map fst m ++ [key]).
Proof.
  induction m as [|[k v] m [IHin IHout]]; simpl.
  - split; [intros [] | reflexivity].
  - destruct (jseqb k key) eqn:E.
    + apply jseqb_eq in E. subst k. split; [reflexivity|].
      intros Hnot. exfalso. apply Hnot. left. reflexivity.
    + apply jseqb_neq in E. simpl. split.
      * intros [Heq|Hin]; [contradiction|]. rewrite IHin by exact Hin. reflexivity.
      * intros Hnot. rewrite IHout; [reflexivity|].
        intros Hin. apply Hnot. right. exact Hin.
Qed.

Lemma NoDup_snoc {A} (l : list A) (x : A) :
  NoDup l -> ~ In x l -> NoDup (l ++ [x]).
Proof.
  induction l as [|a l IH]; intros Hl Hx; simpl.
  - constructor; [intros [] | constructor].
  - inversion Hl; subst. constructor.
    + intros Hin. apply in_app_or in Hin. destruct Hin as [Hin|[->|[]]].
      * contradiction.
      * apply Hx. left. reflexivity.
    + apply IH; [assumption|]. intros Hin. apply Hx. right. exact Hin.
Qed.

Lemma In_dec_key (key : jsstring) (l : list jsstring) : In key l \/ ~ In key l.
Proof.
  destruct (in_dec (list_eq_dec N.eq_dec) key l); [left | right]; assumption.
Qed.

Lemma map_update_In_key (key name : jsstring) (f : ProjectInfo -> ProjectInfo)
    (m : list (jsstring * ProjectInfo)) :
  In name (List.map fst (map_update key f m)) <->
  In name (List.map fst m) \/ name = key.
Proof.
  destruct (map_update_keys key f m) as [Hin Hout].
  destruct (In_dec_key key (List.map fst m)) as [Hk|Hk].
  - rewrite Hin by exact Hk. split; [auto|]. intros [Hn| ->]; assumption.
  - rewrite Hout by exact Hk. rewrite in_app_iff. simpl.
    split; (intros [Hn|Hn]; [left; exact Hn | right]).
    + destruct Hn as [<-|[]]. reflexivity.
    + left. symmetry. exact Hn.
Qed.

Lemma map_update_NoDup (key : jsstring) (f : ProjectInfo -> ProjectInfo)
    (m : list (jsstring * ProjectInfo)) :
  NoDup (List.map fst m) -> NoDup (List.map fst (map_update key f m)).
Proof.
  intros Hm. destruct (map_update_keys key f m) as [Hin Hout].
  destruct (In_dec_key key (List.map fst m)) as [Hk|Hk].
  - rewrite Hin by exact Hk. exact Hm.
  - rewrite Hout by exact Hk. apply NoDup_snoc; assumption.
Qed.

(** What holds of the info of every project *)
Lemma map_update_Forall (P : ProjectInfo -> Prop) (key : jsstring)
    (f : ProjectInfo -> ProjectInfo) (m : list (jsstring * ProjectInfo)) :
  (forall info, P info -> P (f info)) ->
  P {| sessionIds := []; info_messageCount := 0; info_lastActivity := 0 |} ->
  Forall (fun kv => P (snd kv)) m ->
  Forall (fun kv => P (snd kv)) (map_update key f m).
Proof.
  intros Hf H0. induction m as [|[k v] m IH]; intros Hm; simpl.
  - constructor; [apply Hf, H0 | constructor].
  - inversion Hm; subst. destruct (jseqb k key).
    + constructor; [apply Hf; assumption | assumption].
    + constructor; [assumption | apply IH; assumption].
Qed.

Lemma add_file_counted (info : ProjectInfo) (f : jsstring * DirEntry) :
  counted info -> counted (add_file info f).
Proof.
  unfold counted, add_file. destruct f as [file e]. intros [Hc Ha].
  destruct (endsWith file jsonl_ext); [|auto]. simpl. split.
  - pose proof (jslength_nonneg (parseJsonlFile e None None)). lia.
  - destruct (info_lastActivity info <? mtime e) eqn:E; [|exact Ha].
    apply Z.ltb_lt in E. lia.
Qed.

Lemma fold_add_file_counted (files : list (jsstring * DirEntry)) :
  forall info, counted info -> counted (fold_left add_file files info).
Proof.
  induction files as [|f files IH]; intros info Hinfo; simpl; [exact Hinfo|].
  apply IH, add_file_counted, Hinfo.
Qed.

Lemma fold_add_file_count (files : list (jsstring * DirEntry)) :
  forall info,
    info_messageCount (fold_left add_file files info) =
    info_messageCount info + sum (List.map file_records files).
Proof.
  induction files as [|[file e] files IH]; intros info; simpl; [lia|].
  rewrite IH. unfold add_file.
  destruct (endsWith file jsonl_ext); simpl; [|lia].
  rewrite CodeCounts.parseJsonlFile_count. lia.
Qed.

Lemma map_update_total (key : jsstring) (f : ProjectInfo -> ProjectInfo)
    (c : Z) (m : list (jsstring * ProjectInfo)) :
  (forall info, info_messageCount (f info) = info_messageCount info + c) ->
  total (map_update key f m) = total m + c.
Proof.
  intros Hf. unfold total. induction m as [|[k v] m IH]; simpl.
  - rewrite Hf. simpl. lia.
  - destruct (jseqb k key); simpl; [rewrite Hf | rewrite IH]; lia.
Qed.

Lemma fold_add_project (projectDirs : list (jsstring * ProjectNode)) :
  forall m,
    NoDup (List.map fst m) ->
    Forall (fun kv => counted (snd kv)) m ->
    let m' := fold_left add_project projectDirs m in
    NoDup (List.map fst m') /\
    Forall (fun kv => counted (snd kv)) m' /\
    (forall name,
        In name (List.map fst m') <->
        In name (List.map fst m) \/
        exists projectDir files,
          In (projectDir, ProjectDir files) projectDirs /\
          decodeProjectPath projectDir = name) /\
    total m' = total m + sum (List.map (fun p => node_records (snd p)) projectDirs).
Proof.
  induction projectDirs as [|[projectDir node] rest IH]; intros m Hnd Hc; simpl.
  - repeat split; try assumption; try lia.
    + intros Hin. left. exact Hin.
    + intros [Hin|(d & files & [] & _)]. exact Hin.
  - destruct node as [files|]; simpl.
    + destruct (IH (map_update (decodeProjectPath projectDir)
                      (fun info => fold_left add_file files info) m))
        as (N & C & K & T).
      * apply map_update_NoDup, Hnd.
      * apply map_update_Forall; [apply fold_add_file_counted | | exact Hc].
        split; simpl; lia.
      * split; [exact N|]. split; [exact C|]. split.
        -- intros name. rewrite K, map_update_In_key. split.
           ++ intros [[Hin|Heq]|(d & fl & Hd & Hname)].
              ** left. exact Hin.
              ** right. exists projectDir, files. split; [left; reflexivity|].
                 symmetry. exact Heq.
              ** right. exists d, fl. split; [right; exact Hd | exact Hname].
           ++ intros [Hin|(d & fl & [Hd|Hd] & Hname)].
              ** left. left. exact Hin.
              ** injection Hd as <- <-. left. right. symmetry. exact Hname.
              ** right. exists d, fl. split; assumption.
        -- rewrite T.
           rewrite (map_update_total _ _ (sum (List.map file_records files)));
             [lia|].
           intros info. apply fold_add_file_count.
    + destruct (IH m Hnd Hc) as (N & C & K & T).
      split; [exact N|]. split; [exact C|]. split.
      * intros name. rewrite K. split.
        -- intros [Hin|(d & fl & Hd & Hname)]; [left; exact Hin|].
           right. exists d, fl. split; [right; exact Hd | exact Hname].
        -- intros [Hin|(d & fl & [Hd|Hd] & Hname)];
             [left; exact Hin | discriminate |].
           right. exists d, fl. split; assumption.
      * rewrite T. lia.
Qed.

(** X15. The local [listProjects] reports one project for each decoded
    directory name: the names are pairwise distinct, a name is listed
    exactly when some directory of the tree decodes to it, entries that
    are not directories are ignored, and every project is tagged
    [code] with its name as path and [code_] plus its name as id.
    Counts are never negative, the last activity is never before the
    epoch, and the message counts add up to the number of records in
    the [.jsonl] files of the directories. *)
Theorem local_listProjects_groups_directories :
  forall (fs : FileSystem),
    NoDup (List.map proj_name (listProjects fs)) /\
    (forall name,
        In name (List.map proj_name (listProjects fs)) <->
        exists projectDir,
          is_project_dir fs projectDir /\ decodeProjectPath projectDir = name) /\
    (forall p, In p (listProjects fs) ->
       proj_source p = code_source /\
       proj_id p = js "code_" ++ proj_name p /\
       proj_path p = Some (proj_name p) /\
       0 <= sessionCount p /\
       0 <= proj_messageCount p /\
       exists t, lastActivity p = Some t /\ 0 <= t) /\
    sum (List.map proj_messageCount (listProjects fs)) = tree_records fs.
Proof.
  intros fs. unfold listProjects.
  set (projects := match fs with
                   | Some projectDirs => fold_left add_project projectDirs []
                   | None => []
                   end).
  assert (Hfacts :
            NoDup (List.map fst projects) /\
            Forall (fun kv => counted (snd kv)) projects /\
            (forall name,
                In name (List.map fst projects) <->
                exists projectDir,
                  is_project_dir fs projectDir /\
                  decodeProjectPath projectDir = name) /\
            total projects = tree_records fs).
  { unfold projects, is_project_dir, tree_records. destruct fs as [projectDirs|].
    - destruct (fold_add_project projectDirs [] (NoDup_nil _) (Forall_nil _))
        as (N & C & K & T).
      split; [exact N|]. split; [exact C|]. split.
      + intros name. rewrite K. split.
        * intros [[]|(d & fl & Hd & Hname)].
          exists d. split; [exists projectDirs, fl; auto | exact Hname].
        * intros (d & (dirs & fl & Heq & Hd) & Hname). injection Heq as <-.
          right. exists d, fl. auto.
      + rewrite T. unfold total. simpl. lia.
    - split; [constructor|]. split; [constructor|]. split; [|reflexivity].
      intros name. split; [intros []|].
      intros (d & (dirs & fl & Heq & _) & _). discriminate. }
  destruct Hfacts as (N & C & K & T).
  assert (Hnames : List.map proj_name
                     (List.map (fun '(decodedPath, info) =>
                        {| proj_id := js "code_" ++ decodedPath;
                           proj_name := decodedPath;
                           proj_path := Some decodedPath;
                           proj_source := code_source;
                           sessionCount := jslength (sessionIds info);
                           proj_messageCount := info_messageCount info;
                           lastActivity := Some (info_lastActivity info) |})
                        projects)
                   = List.map fst projects).
  { rewrite map_map. apply map_ext. intros [k v]. reflexivity. }
  rewrite Hnames. split; [exact N|]. split; [exact K|]. split.
  - intros p Hp. apply in_map_iff in Hp. destruct Hp as ([k v] & <- & Hkv).
    rewrite Forall_forall in C. destruct (C (k, v) Hkv) as [Hc Ha].
    simpl in Hc, Ha. simpl.
    repeat split; try assumption; [apply jslength_nonneg|].
    exists (info_lastActivity v). split; [reflexivity | exact Ha].
  - rewrite <- T. unfold total. rewrite map_map. f_equal.
    apply map_ext. intros [k v]. reflexivity.
Qed.

Lemma local_listProjects_groups_directories_witness :
  In (js "Users/test/my/app") (List.map proj_name (listProjects Examples.projects)) /\
  sum (List.map proj_messageCount (listProjects Examples.projects)) = 3.
Proof.
  destruct (local_listProjects_groups_directories Examples.projects)
    as (_ & Hnames & _ & Htotal).
  split.
  - apply Hnames. exists (js "-Users-test-my-app"). split; [|reflexivity].
    eexists _, _. split; [reflexivity|]. left. reflexivity.
  - rewrite Htotal. reflexivity.
Defined.

End LocalProjects.

(* ===================================================================== *)
(** * Local source: one conversation *)
(* ===================================================================== *)

Module LocalConversation.
Import ClaudeCode Vocabulary LocalVocabulary.

Lemma slice_length_le {A} (l : list A) (start stop : Z) :
  jslength (slice l start stop) <= jslength l.
Proof.
  unfold slice, jslength. rewrite length_firstn, length_skipn. lia.
Qed.

Lemma includes_str_In (l : list jsstring) (x : jsstring) :
  includes_str l x = true <-> In x l.
Proof.
  unfold includes_str. rewrite existsb_exists. split.
  - intros (y & Hy & Heq). apply jseqb_eq in Heq. subst y. exact Hy.
  - intros Hin. exists x. split; [exact Hin | apply jseqb_refl].
Qed.

Lemma role_of_cases (r : ClaudeCodeMessage) :
  (cc_type r = js "result" /\ role_of r = js "system") \/
  (cc_type r <> js "result" /\ role_of r = cc_type r).
Proof.
  unfold role_of. destruct (jseqb (cc_type r) (js "result")) eqn:E.
  - left. apply jseqb_eq in E. auto.
  - right. apply jseqb_neq in E. auto.
Qed.

(** X16. A conversation the local [getConversation] returns carries the
    session id asked for and is tagged [code]; it is read from the file
    that the path [<projectDir>/<sessionId>.jsonl] leads to from a
    project directory, which for a session id without path separator is
    the entry [<sessionId>.jsonl] of that directory, and the file is
    small enough for its timestamps to be spread into one call.  Each
    message of the page is a record of that file whose role or type is
    among the requested types (by default [user] and [assistant]), a
    record of type [result] being shown with the role [system].  The
    page is never longer than the reported message count, nor, for
    non-negative offset and limit, than the limit. *)
Theorem local_getConversation_pages_requested_records :
  forall (H : Host) (fs : FileSystem) (options : GetConversationOptions)
         (conv : Conversation),
    getConversation H fs options = Some conv ->
    conv_id conv = gc_sessionId options /\
    conv_source conv = code_source /\
    sess_id (session conv) = gc_sessionId options /\
    (exists projectDirs projectDir node e,
        fs = Some projectDirs /\
        In (projectDir, node) projectDirs /\
        access H projectDirs projectDir node (gc_sessionId options) = Some e /\
        (plain (gc_sessionId options) ->
         exists files, node = ProjectDir files /\
                       In (gc_sessionId options ++ jsonl_ext, e) files) /\
        spreadFits H (record_count e) = true /\
        projectName (session conv) = Some (decodeProjectPath projectDir) /\
        forall m, In m (messages conv) ->
          exists r, has_record e r /\ m = to_message H r /\
                    (In (role m) (allowed_types (gc_messageTypes options)) \/
                     (cc_type r = js "result" /\ role m = js "system" /\
                      In (js "result") (allowed_types (gc_messageTypes options))))) /\
    jslength (messages conv) <= messageCount (session conv) /\
    (0 <= default_to (gc_offset options) 0 ->
     0 <= default_to (gc_limit options) 100 ->
     jslength (messages conv) <= default_to (gc_limit options) 100).
Proof.
  intros H fs options conv. unfold getConversation.
  destruct fs as [projectDirs|]; [|discriminate].
  intros Hfound. apply CodeCounts.first_conversation_found in Hfound.
  destruct Hfound as (projectDir & node & e & Hdir & Haccess & Hconv).
  apply CodeCounts.conversation_of_file_Ok in Hconv. cbv zeta in Hconv.
  destruct Hconv as (Hfit & Hid & Hsrc & Hsid & Hname & Hcount & Hpage).
  split; [exact Hid|]. split; [exact Hsrc|]. split; [exact Hsid|].
  split; [|split].
  - exists projectDirs, projectDir, node, e.
    split; [reflexivity|]. split; [exact Hdir|]. split; [exact Haccess|].
    split.
    { intros Hplain. rewrite CodeCounts.access_plain in Haccess by exact Hplain.
      destruct node as [files|]; [|discriminate].
      exists files. split; [reflexivity|].
      apply CodeCounts.lookup_entry_In. exact Haccess. }
    split; [exact Hfit|]. split; [exact Hname|].
    intros m Hm. rewrite Hpage in Hm.
    apply slice_incl in Hm. apply sort_In in Hm.
    apply in_map_iff in Hm. destruct Hm as (r & <- & Hr).
    apply filter_In in Hr. destruct Hr as [Hr Hallowed].
    exists r. split.
    + apply LogFiles.parseJsonlFile_records in Hr. apply Hr.
    + split; [reflexivity|]. cbn [to_message role].
      unfold type_allowed in Hallowed. apply orb_true_iff in Hallowed.
      destruct Hallowed as [Hrole|Htype].
      * left. apply includes_str_In. exact Hrole.
      * apply includes_str_In in Htype.
        destruct (role_of_cases r) as [[Hres Hsys]|[_ Hsame]].
        -- right. rewrite <- Hres. auto.
        -- left. rewrite Hsame. exact Htype.
  - rewrite Hpage, Hcount. apply slice_length_le.
  - intros Hoff Hlim. rewrite Hpage.
    eapply Z.le_trans; [apply slice_length; lia|]. lia.
Qed.

Lemma local_getConversation_pages_requested_records_witness :
  match getConversation Reference.host Examples.projects
          (Examples.conversation "test-session-123") with
  | Some conv => conv_id conv = js "test-session-123" /\
                 jslength (messages conv) <= 100
  | None => False
  end.
Proof.
  destruct (getConversation Reference.host Examples.projects
              (Examples.conversation "test-session-123")) as [conv|] eqn:Hget;
    [|vm_compute in Hget; discriminate].
  destruct (local_getConversation_pages_requested_records Reference.host
              Examples.projects (Examples.conversation "test-session-123") conv Hget)
    as (Hid & _ & _ & _ & _ & Hpage).
  split; [exact Hid|]. apply Hpage; simpl; lia.
Defined.

(** A session id that is a path leads out of the directory being
    visited: here to the record file of the neighbouring project, which
    is reported under the name of the directory visited. *)
Example session_id_with_a_path :
  option_map (fun c => (conv_id c, projectName (session c)))
    (getConversation Reference.host Interleaved.two_projects
       (Examples.conversation "../-Users-test-other/evening"))
  = Some (js "../-Users-test-other/evening", Some (js "Users/test/my/app")).
Proof. vm_compute. reflexivity. Qed.

End LocalConversation.

(* ===================================================================== *)
(** * Local source: search *)
(* ===================================================================== *)

Module LocalSearch.
Import ClaudeCode Vocabulary LocalVocabulary.

Lemma search_file_result (H : Host) (query : jsstring) (ns ne : option jsstring)
    (file : DirEntry) (r : SearchResult) :
  In r (search_file H query ns ne file) ->
  exists entry,
    has_record file entry /\ in_range ns ne (cc_timestamp entry) /\
    matches H (extractContent entry) query = true /\
    r = {| sr_source := code_source;
           sr_sessionId := cc_sessionId entry;
           sr_messageId := cc_uuid entry;
           snippet := make_snippet H (extractContent entry) query;
           sr_timestamp := date_of H (cc_timestamp entry) |}.
Proof.
  unfold search_file. destruct (shouldSkipFile H file ns ne); [intros []|].
  intros Hin. apply Snippets.filter_map_In in Hin.
  destruct Hin as (entry & Hentry & Hres).
  apply LogFiles.parseJsonlFile_records in Hentry.
  destruct Hentry as [Hrec Hrange].
  destruct (matches H (extractContent entry) query) eqn:Hm; [|discriminate].
  injection Hres as <-. exists entry. auto.
Qed.

Lemma files_of_project_In (projectPath : option jsstring)
    (p : jsstring * ProjectNode) (e : DirEntry) :
  In e (files_of_project projectPath p) ->
  exists files name,
    snd p = ProjectDir files /\ In (name, e) files /\
    endsWith name jsonl_ext = true /\
    (forall pp, truthy projectPath = Some pp -> decodeProjectPath (fst p) = pp).
Proof.
  destruct p as [projectDir node]. unfold files_of_project.
  destruct (match truthy projectPath with
            | Some pp => negb (jseqb (decodeProjectPath projectDir) pp)
            | None => false
            end) eqn:Hfilter; [intros []|].
  destruct node as [files|]; [|intros []].
  intros Hin. apply in_map_iff in Hin. destruct Hin as ([name e'] & <- & Hin).
  apply filter_In in Hin. destruct Hin as [Hin Hext].
  exists files, name. repeat split; try assumption.
  intros pp Hpp. rewrite Hpp in Hfilter. cbn [fst].
  apply negb_false_iff in Hfilter. apply jseqb_eq in Hfilter. exact Hfilter.
Qed.

(** X17. Every result of the local [search] comes from a record whose
    lowercased content contains the lowercased query and whose
    timestamp is neither below the normalized start bound nor above the
    normalized end bound as JavaScript's [<] and [>] decide it, which a
    record without timestamp never is, in a [.jsonl] file of a project
    directory, which decodes to the project path asked for when there
    is one.  The result is tagged [code] and carries the record's own
    session id, its uuid, the date made from its timestamp and a
    snippet of its content of at most the query's length plus 106 code
    units.  For a non-negative limit at most [limit] results are
    returned. *)
Theorem local_search_results_are_matching_records :
  forall (H : Host) (fs : FileSystem) (options : SearchOptions),
    (forall r, In r (search H fs options) ->
       exists projectDir files name e entry,
         is_project_dir fs projectDir /\
         In (projectDir, ProjectDir files) (default_to fs []) /\
         In (name, e) files /\ endsWith name jsonl_ext = true /\
         (forall pp, truthy (so_projectPath options) = Some pp ->
                     decodeProjectPath projectDir = pp) /\
         has_record e entry /\
         in_range
           (normalized H (so_startDate options) false (so_timezone options))
           (normalized H (so_endDate options) true (so_timezone options))
           (cc_timestamp entry) /\
         matches H (extractContent entry) (so_query options) = true /\
         sr_source r = code_source /\
         sr_sessionId r = cc_sessionId entry /\
         sr_messageId r = cc_uuid entry /\
         sr_timestamp r = date_of H (cc_timestamp entry) /\
         snippet r = make_snippet H (extractContent entry) (so_query options) /\
         jslength (snippet r) <= jslength (so_query options) + 100 + 6) /\
    (0 <= default_to (so_limit options) 30 ->
     jslength (search H fs options) <= default_to (so_limit options) 30).
Proof.
  intros H fs options. split.
  - intros r Hr.
    pose proof (Snippets.search_snippets_bounded H fs options r Hr) as Hbound.
    unfold search in Hr. apply slice_incl in Hr. apply sort_In in Hr.
    destruct fs as [projectDirs|]; [|destruct Hr].
    apply Snippets.search_batches_In in Hr.
    destruct Hr as [[]|(file & Hfile & Hres)].
    apply in_flat_map in Hfile. destruct Hfile as ([projectDir node] & Hp & Hfile).
    apply files_of_project_In in Hfile.
    destruct Hfile as (files & name & Hnode & Hin & Hext & Hpath).
    cbn [fst snd] in Hnode, Hpath. subst node.
    apply search_file_result in Hres.
    destruct Hres as (entry & Hrec & Hrange & Hmatch & Heq).
    exists projectDir, files, name, file, entry.
    split; [exists projectDirs, files; auto|].
    split; [exact Hp|].
    rewrite Heq in Hbound |- *.
    cbn [sr_source sr_sessionId sr_messageId sr_timestamp snippet] in Hbound |- *.
    repeat split; try assumption; try apply Hrange.
  - intros Hlim. unfold search.
    eapply Z.le_trans; [apply slice_length; lia|]. lia.
Qed.

Lemma local_search_results_are_matching_records_witness :
  search Reference.host Examples.projects (Examples.search_for "bug") <> [] /\
  jslength (search Reference.host Examples.projects (Examples.search_for "bug"))
  <= 10.
Proof.
  split; [vm_compute; discriminate|].
  change 10 with (default_to (so_limit (Examples.search_for "bug")) 30).
  apply (proj2 (local_search_results_are_matching_records Reference.host
                  Examples.projects (Examples.search_for "bug"))).
  simpl. lia.
Defined.

(** ** Nothing is lost below the limit *)





(** ** Order of the results *)

Lemma by_sr_timestamp_desc_decides (x y : SearchResult) :
  valid (sr_timestamp x) -> valid (sr_timestamp y) ->
  if by_sr_timestamp_desc x y <=? 0
  then date_le (sr_timestamp y) (sr_timestamp x)
  else date_le (sr_timestamp x) (sr_timestamp y).
Proof.
  unfold valid, by_sr_timestamp_desc, getTime, date_le, NaN.
  destruct (sr_timestamp x) as [tx|], (sr_timestamp y) as [ty|]; try congruence.
  intros _ _. simpl.
  destruct (ty - tx <=? 0) eqn:E;
    [apply Z.leb_le in E | apply Z.leb_gt in E]; lia.
Qed.

(** X19. When every record of the tree carries a timestamp the runtime
    can parse, the results of the local [search] are ordered newest
    first. *)
Theorem local_search_newest_first :
  forall (H : Host) (fs : FileSystem) (options : SearchOptions),
    timestamps_parse H fs ->
    results_newest_first (search H fs options).
Proof.
  intros H fs options Hparse. unfold results_newest_first, search.
  apply StronglySorted_slice.
  apply (sort_StronglySorted by_sr_timestamp_desc
           (fun a b => date_le (sr_timestamp b) (sr_timestamp a))
           (fun r => valid (sr_timestamp r))).
  - exact by_sr_timestamp_desc_decides.
  - intros x y z Hxy Hyz. eapply Conversations.date_le_trans; eassumption.
  - apply Forall_forall. intros r Hr.
    destruct fs as [projectDirs|]; [|destruct Hr].
    apply Snippets.search_batches_In in Hr.
    destruct Hr as [[]|(file & Hfile & Hres)].
    apply in_flat_map in Hfile. destruct Hfile as ([projectDir node] & Hp & Hfile).
    apply files_of_project_In in Hfile.
    destruct Hfile as (files & name & Hnode & Hin & _ & _).
    cbn [snd] in Hnode. subst node.
    apply search_file_result in Hres.
    destruct Hres as (entry & (ls & Hls & Hentry) & _ & _ & ->).
    cbn [sr_timestamp].
    eapply (Hparse projectDirs projectDir files name file ls entry); eauto.
Qed.

Lemma local_search_newest_first_witness :
  results_newest_first
    (search Reference.host Examples.projects (Examples.search_for "the")).
Proof.
  apply (local_search_newest_first Reference.host Examples.projects
           (Examples.search_for "the")).
  intros projectDirs projectDir files file e ls m Heq Hdir Hfile Hls Hline.
  injection Heq as <-.
  destruct Hdir as [Hdir|[]]. injection Hdir as _ <-.
  destruct Hfile as [Hfile|[]]. injection Hfile as _ <-.
  injection Hls as <-.
  unfold valid, NaN.
  destruct Hline as [Hm|[Hm|[Hm|[Hm|[Hm|[]]]]]]; try discriminate;
    injection Hm as <-; vm_compute; discriminate.
Defined.

End LocalSearch.

(* ===================================================================== *)
(** * Remote source: one conversation *)
(* ===================================================================== *)

Module RemoteConversation.
Import Auth Served Vocabulary.

(** X20. A conversation the remote [getConversation] returns carries
    the session id asked for and is tagged [cloud]; it is made from a
    detail the API served, and each message of the page is a message of
    that detail, shown as [user] when its sender is [human] and as
    [assistant] otherwise, with that role among the requested types (by
    default [user] and [assistant]).  The page is never longer than the
    reported message count, nor, for non-negative offset and limit,
    than the limit. *)
Theorem remote_getConversation_pages_requested_messages :
  forall (H : Host) (api : ClaudeApi.Api) (options : GetConversationOptions)
         (st : St) (conv : Conversation),
    fst (ClaudeApi.getConversation H api options st) = Some conv ->
    conv_id conv = gc_sessionId options /\
    conv_source conv = ClaudeApi.cloud_source /\
    sess_id (session conv) = gc_sessionId options /\
    (exists detail,
        served (ClaudeApi.chat_conversation api) detail /\
        forall m, In m (messages conv) ->
          exists msg,
            In msg (default_to (chat_messages detail) []) /\
            m = ClaudeApi.to_message H msg /\
            In (role m) (ClaudeCode.allowed_types (gc_messageTypes options)) /\
            (cm_sender msg = js "human" /\ role m = js "user" \/
             cm_sender msg <> js "human" /\ role m = js "assistant")) /\
    jslength (messages conv) <= messageCount (session conv) /\
    (0 <= default_to (gc_offset options) 0 ->
     0 <= default_to (gc_limit options) 100 ->
     jslength (messages conv) <= default_to (gc_limit options) 100).
Proof.
  intros H api options st conv. unfold ClaudeApi.getConversation, bind.
  destruct (getOrgId (ClaudeApi.organizations api) st) as [org0 st1].
  destruct (truthy org0) as [org|]; [|discriminate].
  destruct (fetchApi (ClaudeApi.chat_conversation api) _ st1)
    as [[detail|] st2] eqn:Hfetch; [|discriminate].
  apply ClientFacts.fetchApi_payload in Hfetch.
  destruct Hfetch as (n & status & Hout & Hok).
  unfold ret. cbn [fst]. intros Heq. injection Heq as <-.
  unfold ClaudeApi.conversation_of_detail.
  cbn [conv_id conv_source session sess_id messages messageCount].
  split; [reflexivity|]. split; [reflexivity|]. split; [reflexivity|].
  split; [|split].
  - exists detail. split; [eexists n, _, status; split; eassumption|].
    intros m Hm. apply slice_incl in Hm. apply sort_In in Hm.
    apply in_map_iff in Hm. destruct Hm as (msg & <- & Hmsg).
    apply filter_In in Hmsg. destruct Hmsg as [Hmsg Hallowed].
    exists msg. split; [exact Hmsg|]. split; [reflexivity|].
    cbn [ClaudeApi.to_message role].
    split; [apply LocalConversation.includes_str_In; exact Hallowed|].
    unfold ClaudeApi.role_of.
    destruct (jseqb (cm_sender msg) (js "human")) eqn:E.
    + left. apply jseqb_eq in E. auto.
    + right. apply jseqb_neq in E. auto.
  - apply LocalConversation.slice_length_le.
  - intros Hoff Hlim. eapply Z.le_trans; [apply slice_length; lia|]. lia.
Qed.

Lemma remote_getConversation_pages_requested_messages_witness :
  match fst (ClaudeApi.getConversation Reference.host Examples.account
               (Examples.conversation "conv-1")
               (Examples.fresh_session, Examples.start)) with
  | Some conv => conv_id conv = js "conv-1" /\ jslength (messages conv) <= 100
  | None => False
  end.
Proof.
  destruct (fst (ClaudeApi.getConversation Reference.host Examples.account
                   (Examples.conversation "conv-1")
                   (Examples.fresh_session, Examples.start)))
    as [conv|] eqn:Hget; [|vm_compute in Hget; discriminate].
  destruct (remote_getConversation_pages_requested_messages Reference.host
              Examples.account (Examples.conversation "conv-1")
              (Examples.fresh_session, Examples.start) conv Hget)
    as (Hid & _ & _ & _ & _ & Hpage).
  split; [exact Hid|]. apply Hpage; simpl; lia.
Defined.

End RemoteConversation.

(* ===================================================================== *)
(** * The tools over several sources *)
(* ===================================================================== *)

Module Orchestration.
Import Vocabulary LocalVocabulary ToolVocabulary.

Lemma SourceType_eqb_eq (a b : SourceType) : SourceType_eqb a b = true <-> a = b.
Proof. destruct a, b; simpl; split; congruence. Qed.

Lemma active_selected (sourceFilter : Tools.SourceFilter)
    (sources : list ConversationSource) (s : ConversationSource) :
  In s (Tools.activeSources sources sourceFilter) <->
  selected sourceFilter sources s.
Proof.
  unfold Tools.activeSources, Tools.active, selected.
  rewrite filter_In, andb_true_iff.
  destruct sourceFilter as [t|]; [rewrite SourceType_eqb_eq|]; tauto.
Qed.

(** An element of the merged answers was answered by a consulted
    source. *)
Lemma merged_origin {A} (f : ConversationSource -> result (list A))
    (sourceFilter : Tools.SourceFilter) (sources : list ConversationSource)
    (x : A) :
  In x (push_all (List.map (fun s => contribution (f s))
                    (Tools.activeSources sources sourceFilter))) ->
  exists s l, selected sourceFilter sources s /\ f s = Ok l /\ In x l.
Proof.
  unfold push_all. intros Hin. apply in_concat in Hin.
  destruct Hin as (l & Hl & Hx). apply in_map_iff in Hl.
  destruct Hl as (s & <- & Hs). apply active_selected in Hs.
  unfold contribution in Hx. destruct (f s) as [l|err] eqn:Hf; [|destruct Hx].
  exists s, l. auto.
Qed.

Lemma merged_complete {A} (f : ConversationSource -> result (list A))
    (sourceFilter : Tools.SourceFilter) (sources : list ConversationSource)
    (s : ConversationSource) (l : list A) (x : A) :
  selected sourceFilter sources s -> f s = Ok l -> In x l ->
  In x (push_all (List.map (fun s => contribution (f s))
                    (Tools.activeSources sources sourceFilter))).
Proof.
  intros Hs Hf Hx. unfold push_all. apply in_concat.
  exists l. split; [|exact Hx]. apply in_map_iff. exists s.
  split; [unfold contribution; rewrite Hf; reflexivity|].
  apply active_selected. exact Hs.
Qed.

(** X21. The listing and search tools consult only the sources that are
    available and of the requested type: every project, session or
    search result they return was answered by such a source, asked with
    the options the tool derives from its arguments.  Conversely every
    project such a source answers is in the project list. *)
Theorem tools_return_answers_of_selected_sources :
  forall (sources : list ConversationSource),
    (forall (args : Tools.ListProjectsArgs) (ps : list Project),
        Tools.listProjects sources args = Ok ps ->
        forall p,
          In p ps <->
          exists s l,
            selected (default_to (Tools.lp_source args) Tools.All) sources s /\
            Sources.listProjects s = Ok l /\ In p l) /\
    (forall (args : Tools.ListSessionsArgs) (r : Tools.ListSessionsResponse),
        Tools.listSessions sources args = Ok r ->
        forall x, In x (Tools.sessions r) ->
          exists s l,
            selected (default_to (Tools.source args) Tools.All) sources s /\
            Sources.listSessions s (Tools.source_options args) = Ok l /\
            In x l) /\
    (forall (args : Tools.SearchConversationsArgs)
            (r : Tools.SearchConversationsResponse),
        Tools.searchConversations sources args = Ok r ->
        forall x, In x (Tools.results r) ->
          exists s l,
            selected (default_to (Tools.sc_source args) Tools.All) sources s /\
            Sources.search s (Tools.search_options args) = Ok l /\
            In x l).
Proof.
  intros sources. split; [|split].
  - intros args ps Hps p. rewrite FanOut.listProjects_unfold in Hps.
    injection Hps as <-. rewrite sort_In. split.
    + apply merged_origin.
    + intros (s & l & Hs & Hf & Hp). eapply merged_complete; eassumption.
  - intros args r Hr x Hx. rewrite FanOut.listSessions_unfold in Hr.
    cbv zeta in Hr. injection Hr as <-. cbn [Tools.sessions] in Hx.
    apply slice_incl in Hx. unfold merged_sessions in Hx. apply sort_In in Hx.
    apply merged_origin in Hx. exact Hx.
  - intros args r Hr x Hx. rewrite FanOut.searchConversations_unfold in Hr.
    cbv zeta in Hr. injection Hr as <-. cbn [Tools.results] in Hx.
    apply slice_incl in Hx. apply sort_In in Hx.
    apply merged_origin in Hx. exact Hx.
Qed.

Lemma tools_return_answers_of_selected_sources_witness :
  match Tools.listProjects Examples.local_and_failing_cloud
          Examples.no_project_filter with
  | Ok (p :: _) =>
      exists s l,
        selected Tools.All Examples.local_and_failing_cloud s /\
        Sources.listProjects s = Ok l /\ In p l
  | _ => False
  end.
Proof.
  destruct (Tools.listProjects Examples.local_and_failing_cloud
              Examples.no_project_filter) as [[|p ps]|err] eqn:Hps;
    try (vm_compute in Hps; discriminate).
  apply (proj1 (proj1 (tools_return_answers_of_selected_sources
                         Examples.local_and_failing_cloud)
                  Examples.no_project_filter (p :: ps) Hps p)).
  left. reflexivity.
Defined.

(** ** The search tool *)

(** X22. [searchConversations] always answers.  [sources_searched]
    names, in order, every available source of the requested type,
    whether or not its search succeeded, and no other; for a
    non-negative limit at most [limit] results are returned, and when
    the timestamps of the sources' results are valid the results are
    ordered newest first. *)
Theorem searchConversations_reports_consulted_sources :
  forall (sources : list ConversationSource)
         (args : Tools.SearchConversationsArgs),
    exists r,
      Tools.searchConversations sources args = Ok r /\
      (forall src,
          In src (Tools.sources_searched r) <->
          exists s,
            selected (default_to (Tools.sc_source args) Tools.All) sources s /\
            src = {| src_type := type s |}) /\
      Tools.sources_searched r =
      List.map (fun s => {| src_type := type s |})
        (Tools.activeSources sources
           (default_to (Tools.sc_source args) Tools.All)) /\
      (0 <= default_to (Tools.sc_limit args) 30 ->
       jslength (Tools.results r) <= default_to (Tools.sc_limit args) 30) /\
      ((forall s l x,
           selected (default_to (Tools.sc_source args) Tools.All) sources s ->
           Sources.search s (Tools.search_options args) = Ok l ->
           In x l -> valid (sr_timestamp x)) ->
       results_newest_first (Tools.results r)).
Proof.
  intros sources args. rewrite FanOut.searchConversations_unfold. cbv zeta.
  eexists. split; [reflexivity|].
  cbn [Tools.sources_searched Tools.results].
  split; [|split; [reflexivity|split]].
  - intros src. rewrite in_map_iff. split.
    + intros (s & <- & Hs). exists s. split; [|reflexivity].
      apply active_selected. exact Hs.
    + intros (s & Hs & ->). exists s. split; [reflexivity|].
      apply active_selected. exact Hs.
  - intros Hlim. eapply Z.le_trans; [apply slice_length; lia|]. lia.
  - intros Hvalid. unfold results_newest_first. apply StronglySorted_slice.
    apply (sort_StronglySorted by_sr_timestamp_desc
             (fun a b => date_le (sr_timestamp b) (sr_timestamp a))
             (fun r => valid (sr_timestamp r))).
    + exact LocalSearch.by_sr_timestamp_desc_decides.
    + intros x y z Hxy Hyz. eapply Conversations.date_le_trans; eassumption.
    + apply Forall_forall. intros x Hx. apply merged_origin in Hx.
      destruct Hx as (s & l & Hs & Hf & Hx). eapply Hvalid; eassumption.
Qed.

Lemma searchConversations_reports_consulted_sources_witness :
  exists r,
    Tools.searchConversations Examples.local_and_failing_cloud
      (Examples.search_args "bug") = Ok r /\
    In {| src_type := cloud |} (Tools.sources_searched r) /\
    jslength (Tools.results r) <= 30.
Proof.
  destruct (searchConversations_reports_consulted_sources
              Examples.local_and_failing_cloud (Examples.search_args "bug"))
    as (r & Hr & Hsrc & _ & Hlen & _).
  exists r. split; [exact Hr|]. split.
  - apply Hsrc. exists Examples.failing_cloud. split; [|reflexivity].
    split; [right; left; reflexivity|]. split; reflexivity.
  - apply Hlen. simpl. lia.
Defined.

(** ** The conversation tool *)

Lemma first_hit_origin (ordered : list ConversationSource)
    (hint : option SourceType) (opts : GetConversationOptions)
    (c : Conversation) :
  Tools.first_hit ordered hint opts = Some c ->
  exists s,
    In s ordered /\ isAvailable s = true /\
    Sources.getConversation s opts = Ok (Some c) /\
    (forall t, hint = Some t -> type s = t).
Proof.
  induction ordered as [|src rest IH]; simpl; [discriminate|].
  assert (Hrest : Tools.first_hit rest hint opts = Some c ->
                  exists s,
                    In s (src :: rest) /\ isAvailable s = true /\
                    Sources.getConversation s opts = Ok (Some c) /\
                    (forall t, hint = Some t -> type s = t)).
  { intros Hc. destruct (IH Hc) as (s & Hs & Hrest). exists s.
    split; [right; exact Hs | exact Hrest]. }
  destruct (isAvailable src) eqn:Hav; cbn [negb]; [|exact Hrest].
  destruct (match hint with
            | Some t => negb (SourceType_eqb (type src) t)
            | None => false
            end) eqn:Hhint; [exact Hrest|].
  destruct (Sources.getConversation src opts) as [[c'|]|err] eqn:Hget;
    try exact Hrest.
  intros Heq. injection Heq as <-. exists src.
  split; [left; reflexivity|]. split; [exact Hav|]. split; [exact Hget|].
  intros t Ht. rewrite Ht in Hhint. apply negb_false_iff in Hhint.
  apply SourceType_eqb_eq. exact Hhint.
Qed.

Lemma sort_clouds (l : list ConversationSource) :
  Forall (fun s => type s = cloud) l -> sort Tools.code_first l = l.
Proof.
  induction l as [|x l IH]; intros Hl; simpl; [reflexivity|].
  inversion Hl as [|? ? Hx Hl']; subst. rewrite IH by exact Hl'.
  destruct l as [|y l]; [reflexivity|]. simpl.
  inversion Hl' as [|? ? Hy _]; subst.
  unfold Tools.code_first. rewrite Hx, Hy. reflexivity.
Qed.

Lemma sort_local_first (before after : list ConversationSource)
    (local : ConversationSource) :
  type local = code ->
  Forall (fun s => type s = cloud) before ->
  Forall (fun s => type s = cloud) after ->
  sort Tools.code_first (before ++ local :: after) = local :: before ++ after.
Proof.
  intros Hlocal Hbefore Hafter.
  induction before as [|b before IH]; simpl.
  - rewrite sort_clouds by exact Hafter.
    destruct after as [|y after]; [reflexivity|]. simpl.
    unfold Tools.code_first. rewrite Hlocal. reflexivity.
  - inversion Hbefore as [|? ? Hb Hbefore']; subst.
    rewrite IH by exact Hbefore'. simpl.
    unfold Tools.code_first at 1. rewrite Hb, Hlocal. simpl. f_equal.
    assert (Hrest : Forall (fun s => type s = cloud) (before ++ after))
      by (apply Forall_app; auto).
    destruct (before ++ after) as [|y rest]; [reflexivity|]. simpl.
    inversion Hrest as [|? ? Hy _]; subst.
    unfold Tools.code_first. rewrite Hb, Hy. reflexivity.
Qed.

Lemma find_local (before after : list ConversationSource)
    (local : ConversationSource) :
  type local = code -> isAvailable local = true ->
  Forall (fun s => type s = cloud) before ->
  List.find (fun s => SourceType_eqb (type s) code && isAvailable s)
    (before ++ local :: after) = Some local.
Proof.
  intros Hlocal Hav Hbefore. induction before as [|b before IH]; simpl.
  - rewrite Hlocal, Hav. reflexivity.
  - inversion Hbefore as [|? ? Hb Hbefore']; subst. rewrite Hb. simpl.
    apply IH. exact Hbefore'.
Qed.

(** X23. The conversation tool always answers.  A conversation it
    returns was returned by an available source of its list, of the
    hinted type when a hint is given.  With one local source among
    cloud sources, whatever their order, a conversation the local
    source has is the one returned unless the hint asks for [cloud]. *)
Theorem getConversation_prefers_the_local_source :
  (forall (sources : list ConversationSource) (args : Tools.GetConversationArgs),
      exists r, Tools.getConversation sources args = Ok r) /\
  (forall (sources : list ConversationSource) (args : Tools.GetConversationArgs)
          (c : Conversation),
      Tools.getConversation sources args = Ok (Some c) ->
      exists s,
        In s sources /\ isAvailable s = true /\
        Sources.getConversation s (Tools.conversation_options args)
        = Ok (Some c) /\
        (forall t, Tools.source_hint args = Some t -> type s = t)) /\
  (forall (before after : list ConversationSource) (local : ConversationSource)
          (args : Tools.GetConversationArgs) (c : Conversation),
      type local = code -> isAvailable local = true ->
      Forall (fun s => type s = cloud) before ->
      Forall (fun s => type s = cloud) after ->
      Tools.source_hint args <> Some cloud ->
      Sources.getConversation local (Tools.conversation_options args)
      = Ok (Some c) ->
      Tools.getConversation (before ++ local :: after) args = Ok (Some c)).
Proof.
  split; [|split].
  - intros sources args. unfold Tools.getConversation.
    destruct (Tools.source_hint args) as [t|]; [|eexists; reflexivity].
    destruct (List.find _ sources) as [targeted|]; [|eexists; reflexivity].
    destruct (catch _ None) as [[c|]|err]; eexists; reflexivity.
  - intros sources args c. unfold Tools.getConversation.
    assert (Hauto : Ok (Tools.first_hit (sort Tools.code_first sources)
                          (Tools.source_hint args)
                          (Tools.conversation_options args)) = Ok (Some c) ->
                    exists s,
                      In s sources /\ isAvailable s = true /\
                      Sources.getConversation s (Tools.conversation_options args)
                      = Ok (Some c) /\
                      (forall t, Tools.source_hint args = Some t -> type s = t)).
    { intros Heq. injection Heq as Heq. apply first_hit_origin in Heq.
      destruct Heq as (s & Hs & Hrest). exists s.
      split; [apply (sort_In Tools.code_first); exact Hs | exact Hrest]. }
    destruct (Tools.source_hint args) as [t|] eqn:Hhint; [|exact Hauto].
    destruct (List.find _ sources) as [targeted|] eqn:Hfind; [|exact Hauto].
    apply find_some in Hfind. destruct Hfind as [Hin Hsel].
    apply andb_true_iff in Hsel. destruct Hsel as [Htype Hav].
    apply SourceType_eqb_eq in Htype.
    destruct (Sources.getConversation targeted (Tools.conversation_options args))
      as [[c'|]|err] eqn:Hget; cbn [catch]; try exact Hauto.
    intros Heq. injection Heq as <-. exists targeted.
    repeat split; try assumption. intros t' Ht'. congruence.
  - intros before after local args c Hlocal Hav Hbefore Hafter Hhint Hget.
    unfold Tools.getConversation.
    rewrite (sort_local_first before after local Hlocal Hbefore Hafter).
    destruct (Tools.source_hint args) as [[|]|] eqn:Hh.
    + rewrite (find_local before after local Hlocal Hav Hbefore).
      rewrite Hget. reflexivity.
    + contradiction Hhint. reflexivity.
    + cbn [Tools.first_hit]. rewrite Hav, Hget. reflexivity.
Qed.

Lemma getConversation_prefers_the_local_source_witness :
  exists c,
    Sources.getConversation ToolSamples.local
      (Tools.conversation_options (ToolSamples.by_id "test-session-123"))
    = Ok (Some c) /\
    Tools.getConversation ([ToolSamples.answering_cloud] ++ ToolSamples.local :: [])
      (ToolSamples.by_id "test-session-123") = Ok (Some c).
Proof.
  destruct (Sources.getConversation ToolSamples.local
              (Tools.conversation_options (ToolSamples.by_id "test-session-123")))
    as [[c|]|err] eqn:Hget; try (vm_compute in Hget; discriminate).
  exists c. split; [reflexivity|].
  apply (proj2 (proj2 getConversation_prefers_the_local_source)
           [ToolSamples.answering_cloud] [] ToolSamples.local
           (ToolSamples.by_id "test-session-123") c).
  - reflexivity.
  - reflexivity.
  - constructor; [reflexivity | constructor].
  - constructor.
  - discriminate.
  - exact Hget.
Defined.

(** ** Pagination over the local source alone *)

(** X24. With the local source as the only source, the session tool
    never reports further pages: it asks the source for [limit + offset]
    sessions, so for a non-negative [limit + offset] the reported total
    is at most [limit + offset] and [has_more] is false, however many
    session files there are. *)
Theorem local_only_listing_never_reports_more :
  forall (H : Host) (fs : ClaudeCode.FileSystem) (args : Tools.ListSessionsArgs)
         (r : Tools.ListSessionsResponse),
    0 <= default_to (Tools.limit args) 50 + default_to (Tools.offset args) 0 ->
    Tools.listSessions [ClaudeCode.ClaudeCodeSource H fs] args = Ok r ->
    total_count (Tools.pagination r)
    <= default_to (Tools.limit args) 50 + default_to (Tools.offset args) 0 /\
    has_more (Tools.pagination r) = false.
Proof.
  intros H fs args r Hnonneg Hr. rewrite FanOut.listSessions_unfold in Hr.
  cbv zeta in Hr. injection Hr as <-.
  cbn [Tools.pagination total_count has_more].
  assert (Hlen : jslength (merged_sessions [ClaudeCode.ClaudeCodeSource H fs] args)
                 <= default_to (Tools.limit args) 50
                    + default_to (Tools.offset args) 0).
  { unfold merged_sessions. rewrite sort_length.
    unfold Tools.activeSources. cbn [List.filter].
    destruct (Tools.active _ _); cbn [List.map push_all List.concat].
    - rewrite app_nil_r. cbn [Sources.listSessions ClaudeCode.ClaudeCodeSource
                                contribution].
      unfold ClaudeCode.listSessions, Tools.source_options.
      cbn [ls_limit ls_offset default_to].
      eapply Z.le_trans; [apply slice_length; lia|]. lia.
    - unfold jslength. simpl. lia. }
  split; [exact Hlen|]. apply Z.ltb_ge. lia.
Qed.

Lemma local_only_listing_never_reports_more_witness :
  exists r,
    Tools.listSessions Examples.local_only ToolSamples.second_page = Ok r /\
    total_count (Tools.pagination r) <= 2 /\
    has_more (Tools.pagination r) = false.
Proof.
  destruct (Tools.listSessions Examples.local_only ToolSamples.second_page)
    as [r|err] eqn:Hr; [|vm_compute in Hr; discriminate].
  exists r. split; [reflexivity|].
  apply (local_only_listing_never_reports_more Reference.host Examples.projects
           ToolSamples.second_page r); [simpl; lia | exact Hr].
Defined.

(** ** The project tool *)

Lemma by_lastActivity_desc_decides (x y : Project) :
  valid (lastActivity x) -> valid (lastActivity y) ->
  if by_lastActivity_desc x y <=? 0
  then date_le (lastActivity y) (lastActivity x)
  else date_le (lastActivity x) (lastActivity y).
Proof.
  unfold valid, by_lastActivity_desc, getTime, date_le, NaN.
  destruct (lastActivity x) as [tx|], (lastActivity y) as [ty|]; try congruence.
  intros _ _. simpl.
  destruct (ty - tx <=? 0) eqn:E;
    [apply Z.leb_le in E | apply Z.leb_gt in E]; lia.
Qed.

(** X25. The project tool always answers, with every project of every
    consulted source that answered, each as often as it was answered;
    when their last activities are valid dates the list is ordered by
    last activity, newest first. *)
Theorem listProjects_merges_newest_first :
  forall (sources : list ConversationSource) (args : Tools.ListProjectsArgs),
    exists ps,
      Tools.listProjects sources args = Ok ps /\
      Permutation ps
        (push_all
           (List.map (fun s => contribution (Sources.listProjects s))
              (Tools.activeSources sources
                 (default_to (Tools.lp_source args) Tools.All)))) /\
      ((forall s l p,
           selected (default_to (Tools.lp_source args) Tools.All) sources s ->
           Sources.listProjects s = Ok l -> In p l -> valid (lastActivity p)) ->
       projects_newest_first ps).
Proof.
  intros sources args. rewrite FanOut.listProjects_unfold.
  eexists. split; [reflexivity|]. split; [apply sort_perm|].
  intros Hvalid. unfold projects_newest_first.
  apply (sort_StronglySorted by_lastActivity_desc
           (fun a b => date_le (lastActivity b) (lastActivity a))
           (fun p => valid (lastActivity p))).
  - exact by_lastActivity_desc_decides.
  - intros x y z Hxy Hyz. eapply Conversations.date_le_trans; eassumption.
  - apply Forall_forall. intros p Hp. apply merged_origin in Hp.
    destruct Hp as (s & l & Hs & Hf & Hp). eapply Hvalid; eassumption.
Qed.

Lemma listProjects_merges_newest_first_witness :
  exists ps,
    Tools.listProjects Examples.local_and_failing_cloud
      Examples.no_project_filter = Ok ps /\
    projects_newest_first ps.
Proof.
  destruct (listProjects_merges_newest_first Examples.local_and_failing_cloud
              Examples.no_project_filter) as (ps & Hps & _ & Hsorted).
  exists ps. split; [exact Hps|]. apply Hsorted.
  intros s l p (Hin & _ & _) Hl Hp.
  destruct Hin as [<-|[<-|[]]]; [|discriminate].
  injection Hl as <-.
  destruct Hp as [<-|[]]. unfold valid, NaN. vm_compute. discriminate.
Defined.

End Orchestration.

(* ===================================================================== *)
(** * Day boundaries in the zone UTC *)
(* ===================================================================== *)

Module UtcDays.
Import DateUtil.

Lemma indexOf_from_occurrence (q r : jsstring) (p : jsstring) :
  forall i, 0 <= i -> 0 <= indexOf_from (p ++ q ++ r) q i.
Proof.
  induction p as [|c p IH]; intros i Hi.
  - cbn [app]. destruct (q ++ r) as [|c s] eqn:Hs.
    + destruct q; [simpl; exact Hi | discriminate].
    + cbn [indexOf_from]. rewrite <- Hs, CodeCounts.isPrefix_app. exact Hi.
  - cbn [app indexOf_from].
    destruct (isPrefix q (c :: p ++ q ++ r)); [exact Hi|].
    apply Z.le_trans with (i + 1); [lia|].
    pose proof (IH (i + 1) ltac:(lia)) as Hrec.
    pose proof (Snippets.indexOf_from_found (p ++ q ++ r) q (i + 1) ltac:(lia))
      as Hfound.
    destruct Hfound as [Hle _]; [lia | exact Hle].
Qed.

Lemma includes_occurrence (p q r : jsstring) : includes (p ++ q ++ r) q = true.
Proof.
  unfold includes, indexOf.
  pose proof (indexOf_from_occurrence q r p 0 ltac:(lia)) as Hpos.
  apply negb_true_iff. apply Z.eqb_neq. lia.
Qed.

(** X26. For a day without a time component and the zone UTC, named
    explicitly or as the system zone when no zone is given,
    [normalizeDate] appends [T00:00:00.000Z] for a start date and
    [T23:59:59.999Z] for an end date; the start boundary sorts before
    the end boundary, and normalizing a boundary again, as start or as
    end date and in whatever zone, leaves it unchanged. *)
Theorem normalizeDate_utc_day_boundaries :
  forall (H : Host) (dateString : jsstring) (timezone : option jsstring),
    includes dateString (js "T") = false ->
    timezone = Some (js "UTC") \/
    (truthy timezone = None /\ systemZone H = js "UTC") ->
    normalizeDate H dateString false timezone
    = dateString ++ js "T00:00:00.000Z" /\
    normalizeDate H dateString true timezone
    = dateString ++ js "T23:59:59.999Z" /\
    jsltb (normalizeDate H dateString false timezone)
          (normalizeDate H dateString true timezone) = true /\
    forall (isEndDate again : bool) (zone : option jsstring),
      normalizeDate H (normalizeDate H dateString isEndDate timezone) again zone
      = normalizeDate H dateString isEndDate timezone.
Proof.
  intros H dateString timezone HT Hzone.
  assert (Hutc : forall b,
             normalizeDate H dateString b timezone = utc_boundary dateString b).
  { intros b. unfold normalizeDate. rewrite HT.
    destruct Hzone as [->|[Hnone Hsys]].
    - reflexivity.
    - destruct timezone as [[|c z]|]; try discriminate;
        rewrite Hsys; reflexivity. }
  rewrite !Hutc. split; [reflexivity|]. split; [reflexivity|].
  split; [apply DateFacts.utc_boundaries_ordered|].
  intros isEndDate again zone. rewrite Hutc.
  apply DateFacts.normalizeDate_time_qualified.
  unfold utc_boundary. apply includes_occurrence.
Qed.

Lemma normalizeDate_utc_day_boundaries_witness :
  normalizeDate Reference.host (js "2025-06-30") false None
  = js "2025-06-30" ++ js "T00:00:00.000Z" /\
  normalizeDate Reference.host (js "2025-06-30") true (Some (js "UTC"))
  = js "2025-06-30" ++ js "T23:59:59.999Z".
Proof.
  split.
  - apply (normalizeDate_utc_day_boundaries Reference.host (js "2025-06-30") None);
      [reflexivity | right; split; reflexivity].
  - apply (normalizeDate_utc_day_boundaries Reference.host (js "2025-06-30")
             (Some (js "UTC"))); [reflexivity | left; reflexivity].
Defined.

End UtcDays.

(* ===================================================================== *)
(** * Snippets of case-insensitive matches *)
(* ===================================================================== *)

Module SnippetFacts.
Import Vocabulary.

Lemma isPrefix_firstn (p : jsstring) :
  forall s, isPrefix p s = true -> firstn (List.length p) s = p.
Proof.
  induction p as [|a p IH]; intros s Hp; [reflexivity|].
  destruct s as [|b s]; [discriminate|]. simpl in Hp |- *.
  apply andb_true_iff in Hp. destruct Hp as [Hab Hp].
  apply N.eqb_eq in Hab. subst b. rewrite (IH s Hp). reflexivity.
Qed.

Lemma indexOf_from_prefix (q : jsstring) (s : jsstring) :
  forall i, 0 <= i -> indexOf_from s q i <> -1 ->
    isPrefix q (skipn (Z.to_nat (indexOf_from s q i - i)) s) = true.
Proof.
  induction s as [|c s IH]; intros i Hi Hfound.
  - simpl in Hfound |- *. destruct (isPrefix q []) eqn:E.
    + rewrite Z.sub_diag. simpl. destruct q; [reflexivity | discriminate].
    + contradiction Hfound. reflexivity.
  - cbn [indexOf_from] in Hfound |- *.
    destruct (isPrefix q (c :: s)) eqn:E.
    + rewrite Z.sub_diag. exact E.
    + pose proof (Snippets.indexOf_from_found s q (i + 1) ltac:(lia) Hfound)
        as [Hle _].
      pose proof (IH (i + 1) ltac:(lia) Hfound) as Hrec.
      replace (Z.to_nat (indexOf_from s q (i + 1) - i))
        with (S (Z.to_nat (indexOf_from s q (i + 1) - (i + 1)))) by lia.
      exact Hrec.
Qed.

(** X27. When lowercasing works code unit by code unit on the content
    and on the query, as it does on ASCII text, a matching message's
    snippet contains a piece of the content that has the query's length
    and equals the query up to case. *)
Theorem snippet_shows_the_match_up_to_case :
  forall (H : Host) (f : codeunit -> codeunit) (content query : jsstring),
    toLowerCase H content = List.map f content ->
    toLowerCase H query = List.map f query ->
    matches H content query = true ->
    exists segment,
      occurs_in segment (make_snippet H content query) /\
      jslength segment = jslength query /\
      List.map f segment = List.map f query.
Proof.
  intros H f content query Hcontent Hquery Hfound.
  assert (Hclen : jslength (toLowerCase H content) = jslength content)
    by (rewrite Hcontent; unfold jslength; rewrite length_map; reflexivity).
  assert (Hqlen : jslength (toLowerCase H query) = jslength query)
    by (rewrite Hquery; unfold jslength; rewrite length_map; reflexivity).
  pose proof (Snippets.make_snippet_contains_match H content query Hfound
                Hclen Hqlen) as Hocc.
  pose proof (Snippets.match_index_nonneg H content query Hfound) as Hidx.
  pose proof (Snippets.match_within_content H content query Hfound Hclen Hqlen)
    as Hfit.
  pose proof (jslength_nonneg query) as Hq.
  set (idx := match_index H content query) in *.
  exists (slice content idx (idx + jslength query)).
  split; [exact Hocc|].
  rewrite slice_nonneg by lia.
  replace (idx + jslength query - idx) with (jslength query) by lia.
  assert (Hprefix : isPrefix (List.map f query)
                      (skipn (Z.to_nat idx) (List.map f content)) = true).
  { pose proof (indexOf_from_prefix (toLowerCase H query) (toLowerCase H content)
                  0 ltac:(lia)) as Hp.
    unfold matches, includes, indexOf in Hfound.
    apply negb_true_iff, Z.eqb_neq in Hfound. specialize (Hp Hfound).
    rewrite Z.sub_0_r in Hp. rewrite Hcontent, Hquery in Hp.
    unfold idx, match_index, indexOf. rewrite Hcontent, Hquery. exact Hp. }
  split.
  - unfold jslength in *. rewrite length_firstn, length_skipn. lia.
  - rewrite <- firstn_map, <- skipn_map.
    replace (Z.to_nat (jslength query)) with (List.length (List.map f query))
      by (rewrite length_map; unfold jslength; lia).
    apply isPrefix_firstn. exact Hprefix.
Qed.

Lemma snippet_shows_the_match_up_to_case_witness :
  exists segment,
    occurs_in segment
      (make_snippet Reference.host (js "Fix the BUG in the module") (js "Bug")) /\
    jslength segment = jslength (js "Bug") /\
    List.map (fun c => if (N.leb 65 c && N.leb c 90)%bool then (c + 32)%N else c)
      segment = js "bug".
Proof.
  apply (snippet_shows_the_match_up_to_case Reference.host
           (fun c => if (N.leb 65 c && N.leb c 90)%bool then (c + 32)%N else c)
           (js "Fix the BUG in the module") (js "Bug"));
    vm_compute; reflexivity.
Defined.

End SnippetFacts.
